(** * peewee_migrate.auto : the schema diff behind automatic migrations

    A shallow embedding of [peewee_migrate/auto.py].  The Python program
    compares two lists of peewee models and returns the list of migration
    statements that turns the second into the first.  The embedding keeps the
    program's shape: dictionaries are insertion-ordered association lists,
    sets are lists read through an iteration order that the interpreter
    chooses, Python values are an inductive type with Python's [==], and
    every operation that can raise returns a [result]. *)

From Stdlib Require Import List String Ascii ZArith Bool Lia Arith DecimalString.
Import ListNotations.
Open Scope string_scope.
Open Scope list_scope.

Set Implicit Arguments.

(** ** Exceptions and the error monad *)

Inductive exn : Type :=
| TypeError
| KeyError
| IndexError
| CyclicDependencyError.

Inductive result (A : Type) : Type :=
| Ok (a : A)
| Raise (e : exn).

Arguments Ok {A} a.
Arguments Raise {A} e.

Definition bind {A B : Type} (r : result A) (k : A -> result B) : result B :=
  match r with
  | Ok a => k a
  | Raise e => Raise e
  end.

Notation "x <- e ;; k" := (bind e (fun x => k))
  (at level 61, e at next level, right associativity).
Notation "' p <- e ;; k" := (bind e (fun x => match x with p => k end))
  (at level 61, p pattern, e at next level, right associativity).

Fixpoint mapM {A B : Type} (f : A -> result B) (l : list A) : result (list B) :=
  match l with
  | [] => Ok []
  | a :: l' => b <- f a ;; bs <- mapM f l' ;; Ok (b :: bs)
  end.

(** ** Python values *)

(** The values that reach the diff: column defaults, the attributes of the
    typed columns, index declarations.  A callable stands for a function or
    class object; it is identified by the text [repr] prints for it. *)
#[warnings="-register-all"]
Inductive pyvalue : Type :=
| PyNone
| PyBool (b : bool)
| PyInt (z : Z)
| PyStr (s : string)
| PyTuple (items : list pyvalue)
| PyList (items : list pyvalue)
| PyCallable (ident : string).

(** Python's [==]: booleans are integers, tuples and lists compare
    element-wise and never equal each other. *)
Fixpoint py_eqb (a b : pyvalue) {struct a} : bool :=
  let fix all2 (xs ys : list pyvalue) {struct xs} : bool :=
    match xs, ys with
    | [], [] => true
    | x :: xs', y :: ys' => py_eqb x y && all2 xs' ys'
    | _, _ => false
    end in
  match a, b with
  | PyNone, PyNone => true
  | PyBool x, PyBool y => Bool.eqb x y
  | PyBool x, PyInt y => Z.eqb (Z.b2z x) y
  | PyInt x, PyBool y => Z.eqb x (Z.b2z y)
  | PyInt x, PyInt y => Z.eqb x y
  | PyStr x, PyStr y => String.eqb x y
  | PyTuple xs, PyTuple ys => all2 xs ys
  | PyList xs, PyList ys => all2 xs ys
  | PyCallable x, PyCallable y => String.eqb x y
  | _, _ => false
  end.

(** [hash(v)] succeeds: a list is unhashable, and so is a tuple that holds
    an unhashable value. *)
Fixpoint py_hashable (v : pyvalue) : bool :=
  match v with
  | PyList _ => false
  | PyTuple xs => forallb py_hashable xs
  | _ => true
  end.

(** [isinstance(v, collections.abc.Hashable)]: the type defines [__hash__];
    the test does not look inside a tuple. *)
Definition isinstance_Hashable (v : pyvalue) : bool :=
  match v with
  | PyList _ => false
  | _ => true
  end.

Definition callable (v : pyvalue) : bool :=
  match v with
  | PyCallable _ => true
  | _ => false
  end.

Definition is_None (v : pyvalue) : bool :=
  match v with
  | PyNone => true
  | _ => false
  end.

(** [v is True] *)
Definition is_True (v : pyvalue) : bool :=
  match v with
  | PyBool true => true
  | _ => false
  end.

(** Truth value of [v] in a condition. *)
Definition py_truthy (v : pyvalue) : bool :=
  match v with
  | PyNone => false
  | PyBool b => b
  | PyInt z => negb (Z.eqb z 0)
  | PyStr s => negb (String.eqb s "")
  | PyTuple xs | PyList xs => match xs with [] => false | _ => true end
  | PyCallable _ => true
  end.

Definition isinstance_list (v : pyvalue) : bool :=
  match v with
  | PyList _ => true
  | _ => false
  end.

(** [v[i]] *)
Definition py_getitem (v : pyvalue) (i : nat) : result pyvalue :=
  match v with
  | PyTuple xs | PyList xs =>
      match nth_error xs i with
      | Some x => Ok x
      | None => Raise IndexError
      end
  | PyStr s =>
      match String.get i s with
      | Some c => Ok (PyStr (String c EmptyString))
      | None => Raise IndexError
      end
  | _ => Raise TypeError
  end.

(** ** Dictionaries: insertion-ordered, keyed by strings *)

Definition dict (V : Type) : Type := list (string * V).

Fixpoint dict_get {V : Type} (d : dict V) (k : string) : option V :=
  match d with
  | [] => None
  | (k', v) :: d' => if String.eqb k k' then Some v else dict_get d' k
  end.

(** [d[k]] *)
Definition dict_getitem {V : Type} (d : dict V) (k : string) : result V :=
  match dict_get d k with
  | Some v => Ok v
  | None => Raise KeyError
  end.

(** [k in d] *)
Definition dict_contains {V : Type} (d : dict V) (k : string) : bool :=
  match dict_get d k with
  | Some _ => true
  | None => false
  end.

(** [d[k] = v]: an existing key keeps its place, a new one goes last. *)
Fixpoint dict_set {V : Type} (d : dict V) (k : string) (v : V) : dict V :=
  match d with
  | [] => [(k, v)]
  | (k', v') :: d' =>
      if String.eqb k k' then (k', v) :: d' else (k', v') :: dict_set d' k v
  end.

(** [d.pop(k, None)]: the value removed, if any, and the dictionary left. *)
Fixpoint dict_pop {V : Type} (d : dict V) (k : string) : option V * dict V :=
  match d with
  | [] => (None, [])
  | (k', v') :: d' =>
      if String.eqb k k' then (Some v', d')
      else let (r, d'') := dict_pop d' k in (r, (k', v') :: d'')
  end.

Definition dict_keys {V : Type} (d : dict V) : list string := map fst d.

(** [dict(pairs)] and the dict comprehension: later pairs overwrite. *)
Definition dict_of_pairs {V : Type} (l : list (string * V)) : dict V :=
  fold_left (fun d kv => dict_set d (fst kv) (snd kv)) l [].

(** [d1.update(d2)] *)
Definition dict_update {V : Type} (d1 d2 : dict V) : dict V :=
  fold_left (fun d kv => dict_set d (fst kv) (snd kv)) d2 d1.

(** ** Sets *)

(** A set is kept as the list of the objects put into it; membership goes
    through the element type's [==]. *)

(** [x in s] *)
Definition set_mem {A : Type} (eqb : A -> A -> bool) (x : A) (s : list A) : bool :=
  existsb (eqb x) s.

(** [s1 - s2] *)
Definition set_sub {A : Type} (eqb : A -> A -> bool) (s1 s2 : list A) : list A :=
  filter (fun x => negb (set_mem eqb x s2)) s1.

(** No element of the list equals a later one. *)
Fixpoint distinct {A : Type} (eqb : A -> A -> bool) (l : list A) : Prop :=
  match l with
  | [] => True
  | x :: l' => set_mem eqb x l' = false /\ distinct eqb l'
  end.

(** The order in which Python iterates over a set depends on the hashes of
    the elements and on the history of the table, so it is a parameter of
    the development.  Any order is allowed that lists objects of the set
    only, reaches every element up to [==], and lists no element twice. *)
Class SetIteration : Type := {
  iter_set : forall A : Type, (A -> A -> bool) -> list A -> list A;
  iter_set_incl :
    forall (A : Type) (eqb : A -> A -> bool) (s : list A) (x : A),
      In x (iter_set eqb s) -> In x s;
  iter_set_covers :
    forall (A : Type) (eqb : A -> A -> bool) (s : list A) (x : A),
      (forall a, eqb a a = true) ->
      In x s -> existsb (fun y => eqb y x) (iter_set eqb s) = true;
  iter_set_distinct :
    forall (A : Type) (eqb : A -> A -> bool) (s : list A),
      distinct eqb (iter_set eqb s)
}.

Arguments iter_set {_} {A} eqb s.

(** One such order: that of first insertion. *)
Fixpoint insertion_order {A : Type} (eqb : A -> A -> bool) (seen s : list A) : list A :=
  match s with
  | [] => []
  | x :: s' =>
      if existsb (fun y => eqb y x) seen then insertion_order eqb seen s'
      else x :: insertion_order eqb (seen ++ [x]) s'
  end.

(** ** Columns and tables *)

(** A class object: the diff only looks at its [__module__] and compares
    classes with each other. *)
Record pyclass : Type := {
  cls_module : string;
  cls_name : string
}.

Definition class_eqb (c1 c2 : pyclass) : bool :=
  String.eqb (cls_module c1) (cls_module c2) && String.eqb (cls_name c1) (cls_name c2).

(** A [pw.Field] instance: its class and the rest of the class's method
    resolution order, the flags every field has, and the attributes that
    [FIELD_TO_PARAMS] reads from the typed fields. *)
Record Field : Type := {
  field_name : string;
  field_class : pyclass;
  field_bases : list pyclass;
  field_null : bool;
  field_index : bool;
  field_unique : bool;
  field_default : pyvalue;
  field_max_length : pyvalue;
  field_max_digits : pyvalue;
  field_decimal_places : pyvalue;
  field_auto_round : pyvalue;
  field_rounding : pyvalue;
  field_on_delete : option string;
  field_on_update : option string;
  field_formats : pyvalue;
  field_rel_model : option string
}.

(** A model class, through its [_meta]: the table name, the dictionary of
    fields by name, the declared indexes as pairs (columns, unique). *)
Record Model : Type := {
  table_name : string;
  fields : dict Field;
  indexes : list (pyvalue * pyvalue)
}.

Definition TParams : Type := dict pyvalue.

Definition PW_MODULES : list string :=
  ["playhouse.postgres_ext"; "playhouse.fields"; "peewee"].

Definition in_PW_MODULES (c : pyclass) : bool :=
  existsb (String.eqb (cls_module c)) PW_MODULES.

(** [type(field).mro()] *)
Definition mro (field : Field) : list pyclass :=
  field_class field :: field_bases field.

Definition find_field_type (field : Field) : pyclass :=
  let ftype := field_class field in
  if negb (in_PW_MODULES ftype) then
    match find in_PW_MODULES (mro field) with
    | Some cls => cls
    | None => ftype
    end
  else ftype.

Definition pw_CharField : pyclass := {| cls_module := "peewee"; cls_name := "CharField" |}.
Definition pw_DecimalField : pyclass := {| cls_module := "peewee"; cls_name := "DecimalField" |}.
Definition pw_ForeignKeyField : pyclass := {| cls_module := "peewee"; cls_name := "ForeignKeyField" |}.
Definition pw_DateTimeField : pyclass := {| cls_module := "peewee"; cls_name := "DateTimeField" |}.

(** The f-string ['{s}'] *)
Definition quoted (s : string) : string := "'" ++ s ++ "'".

Definition fk_to_params (field : Field) : TParams :=
  let params := [] in
  let params :=
    match field_on_delete field with
    | Some s => dict_set params "on_delete" (PyStr (quoted s))
    | None => params
    end in
  let params :=
    match field_on_update field with
    | Some s => dict_set params "on_update" (PyStr (quoted s))
    | None => params
    end in
  params.

Definition dtf_to_params (field : Field) : TParams :=
  let params := [] in
  if negb (isinstance_list (field_formats field))
  then dict_set params "formats" (field_formats field)
  else params.

Definition FIELD_TO_PARAMS : list (pyclass * (Field -> TParams)) :=
  [ (pw_CharField, fun f => [("max_length", field_max_length f)]);
    (pw_DecimalField, fun f =>
       [("max_digits", field_max_digits f);
        ("decimal_places", field_decimal_places f);
        ("auto_round", field_auto_round f);
        ("rounding", field_rounding f)]);
    (pw_ForeignKeyField, fk_to_params);
    (pw_DateTimeField, dtf_to_params) ].

(** [FIELD_TO_PARAMS.get(ftype, lambda f: {})] *)
Fixpoint class_get {V : Type} (d : list (pyclass * V)) (c : pyclass) (dflt : V) : V :=
  match d with
  | [] => dflt
  | (c', v) :: d' => if class_eqb c c' then v else class_get d' c dflt
  end.

Definition field_to_params (field : Field) : TParams :=
  let ftype := find_field_type field in
  let params := class_get FIELD_TO_PARAMS ftype (fun _ => []) field in
  let params :=
    if negb (is_None (field_default field))
       && negb (callable (field_default field))
       && isinstance_Hashable (field_default field)
    then dict_set params "default" (field_default field)
    else params in
  let params :=
    dict_set params "index"
      (PyTuple [PyBool (field_index field && negb (field_unique field));
                PyBool (field_unique field)]) in
  snd (dict_pop params "backref").

(** Equality of two [(key, value)] tuples. *)
Definition item_eqb (kv1 kv2 : string * pyvalue) : bool :=
  String.eqb (fst kv1) (fst kv2) && py_eqb (snd kv1) (snd kv2).

(** [set(params.items())]: every value is hashed. *)
Definition set_of_items (params : TParams) : result (list (string * pyvalue)) :=
  if forallb (fun kv => py_hashable (snd kv)) params then Ok params
  else Raise TypeError.

(** [set(indexes)], the indexes being tuples [(columns, unique)]. *)
Definition index_eqb (i1 i2 : pyvalue * pyvalue) : bool :=
  py_eqb (fst i1) (fst i2) && py_eqb (snd i1) (snd i2).

Definition set_of_indexes (l : list (pyvalue * pyvalue)) : result (list (pyvalue * pyvalue)) :=
  if forallb (fun i => py_hashable (fst i) && py_hashable (snd i)) l then Ok l
  else Raise TypeError.

(** [isinstance(index[0], (list, tuple)) and len(index[0]) > 1] *)
Definition is_compound (index : pyvalue * pyvalue) : bool :=
  match fst index with
  | PyTuple xs | PyList xs => Nat.ltb 1 (List.length xs)
  | _ => false
  end.

(** Truth value of a set or list. *)
Definition nonempty {A : Type} (l : list A) : bool :=
  match l with
  | [] => false
  | _ :: _ => true
  end.

(** The value [d.pop(k, None)] returns. *)
Definition pop_value (r : option pyvalue) : pyvalue :=
  match r with
  | Some v => v
  | None => PyNone
  end.

(** ** The statements of a migration *)

(** [diff_one] and [diff_many] build their result by calling one of eight
    functions, each of which prints one statement.  A [change] records the
    call: the function and its arguments.  The text is produced by [render]
    below.  In the words of the specification: [CreateFields] is AddColumns,
    [DropFields] RemoveColumns, [ChangeFields] ChangeColumns, [ChangeNotNull]
    SetNullable, [CreateModel] CreateTable, [RemoveModel] RemoveTable. *)
Inductive change : Type :=
| CreateFields (model : Model) (flds : list Field)
| DropFields (model : Model) (names : list string)
| ChangeFields (model : Model) (flds : list Field)
| ChangeNotNull (model : Model) (name : string) (null : pyvalue)
| AddIndex (model : Model) (name : pyvalue) (unique : pyvalue)
| DropIndex (model : Model) (name : pyvalue)
| CreateModel (model : Model)
| RemoveModel (model : Model).

(** [m1] has a foreign key to [m2]. *)
Definition references (m1 m2 : Model) : Prop :=
  exists name f, In (name, f) (fields m1) /\ field_rel_model f = Some (table_name m2).

(** Every [x] of the list stands before every [y]. *)
Definition all_before {A : Type} (x y : A) (l : list A) : Prop :=
  exists l1 l2, l = l1 ++ l2 /\ In x l1 /\ ~ In y l1 /\ In y l2 /\ ~ In x l2.

(** Modelled from the spec: [pw.sort_models] belongs to peewee, not to this
    package, and is a parameter of the development.  Its contract is the
    one the specification gives it: the result lists the given models once
    each, a model after the other models its foreign keys refer to; a
    cycle of foreign keys is an error, so that then nothing is returned. *)
Class SortModels : Type := {
  sort_models : list Model -> result (list Model);
  sort_models_NoDup :
    forall models sorted, sort_models models = Ok sorted -> NoDup sorted;
  sort_models_In :
    forall models sorted, sort_models models = Ok sorted ->
      forall m, In m sorted <-> In m models;
  sort_models_order :
    forall models sorted, sort_models models = Ok sorted ->
      forall m1 m2, In m1 models -> In m2 models -> references m1 m2 ->
        table_name m1 <> table_name m2 -> all_before m2 m1 sorted
}.

Fixpoint flat_mapM {A B : Type} (f : A -> result (list B)) (l : list A) : result (list B) :=
  match l with
  | [] => Ok []
  | a :: l' => bs <- f a ;; rest <- flat_mapM f l' ;; Ok (bs ++ rest)
  end.

Fixpoint foldM {A S : Type} (f : S -> A -> result S) (l : list A) (s : S) : result S :=
  match l with
  | [] => Ok s
  | a :: l' => s' <- f s a ;; foldM f l' s'
  end.

Section Diff.

Context {set_order : SetIteration}.

Definition compare_fields (field1 field2 : Field) : result TParams :=
  let ftype1 := find_field_type field1 in
  let ftype2 := find_field_type field2 in
  if negb (class_eqb ftype1 ftype2) then Ok [("cls", PyBool true)]
  else
    let params1 := field_to_params field1 in
    let params1 := dict_set params1 "null" (PyBool (field_null field1)) in
    let params2 := field_to_params field2 in
    let params2 := dict_set params2 "null" (PyBool (field_null field2)) in
    s1 <- set_of_items params1 ;;
    s2 <- set_of_items params2 ;;
    Ok (dict_of_pairs (iter_set item_eqb (set_sub item_eqb s1 s2))).

(** The three lists the loop over the common columns fills. *)
Definition loop_state : Type :=
  (list Field * list (string * pyvalue) * list (string * pyvalue * pyvalue))%type.

(** One turn of the loop "Change fields" of [diff_one]. *)
Definition change_step (field_names1 field_names2 : dict Field)
    (st : loop_state) (name : string) : result loop_state :=
  let '(fields_, nulls_, indexes_) := st in
  field1 <- dict_getitem field_names1 name ;;
  field2 <- dict_getitem field_names2 name ;;
  diff <- compare_fields field1 field2 ;;
  let (r, diff) := dict_pop diff "null" in
  let null := pop_value r in
  let (r, diff) := dict_pop diff "index" in
  let index := pop_value r in
  let fields_ := if nonempty diff then fields_ ++ [field1] else fields_ in
  let nulls_ := if negb (is_None null) then nulls_ ++ [(name, null)] else nulls_ in
  indexes_ <-
    (if negb (is_None index) then
       i0 <- py_getitem index 0 ;;
       i1 <- py_getitem index 1 ;;
       Ok (indexes_ ++ [(name, i0, i1)])
     else Ok indexes_) ;;
  Ok (fields_, nulls_, indexes_).

(** One turn of the loop over [indexes_]. *)
Definition index_step (model1 : Model) (field_names2 : dict Field)
    (entry : string * pyvalue * pyvalue) : result (list change) :=
  let '(name, index, unique) := entry in
  if is_True index || is_True unique then
    field2 <- dict_getitem field_names2 name ;;
    Ok ((if field_unique field2 || field_index field2
         then [DropIndex model1 (PyStr name)] else [])
        ++ [AddIndex model1 (PyStr name) unique])
  else Ok [DropIndex model1 (PyStr name)].

Definition diff_one_calls (model1 model2 : Model) : result (list change) :=
  let field_names1 := fields model1 in
  let field_names2 := fields model2 in
  (* Add fields *)
  let names1 := set_sub String.eqb (dict_keys field_names1) (dict_keys field_names2) in
  added <-
    (if nonempty names1 then
       flds <- mapM (dict_getitem field_names1) (iter_set String.eqb names1) ;;
       Ok [CreateFields model1 flds]
     else Ok []) ;;
  (* Drop fields *)
  let names2 := set_sub String.eqb (dict_keys field_names2) (dict_keys field_names1) in
  let dropped :=
    if nonempty names2 then [DropFields model1 (iter_set String.eqb names2)] else [] in
  (* Change fields *)
  let common :=
    set_sub String.eqb (set_sub String.eqb (dict_keys field_names1) names1) names2 in
  '(fields_, nulls_, indexes_) <-
    foldM (change_step field_names1 field_names2) (iter_set String.eqb common) ([], [], []) ;;
  let changed := if nonempty fields_ then [ChangeFields model1 fields_] else [] in
  let not_null := map (fun nn => ChangeNotNull model1 (fst nn) (snd nn)) nulls_ in
  column_indexes <- flat_mapM (index_step model1 field_names2) indexes_ ;;
  (* Check additional compound indexes *)
  let indexes1 := indexes model1 in
  let indexes2 := indexes model2 in
  (* Drop compound indexes *)
  s2 <- set_of_indexes indexes2 ;;
  s1 <- set_of_indexes indexes1 ;;
  let indexes_to_drop := set_sub index_eqb s2 s1 in
  let drops :=
    flat_map (fun index => if is_compound index then [DropIndex model1 (fst index)] else [])
      (iter_set index_eqb indexes_to_drop) in
  (* Add compound indexes *)
  s1 <- set_of_indexes indexes1 ;;
  s2 <- set_of_indexes indexes2 ;;
  let indexes_to_add := set_sub index_eqb s1 s2 in
  let adds :=
    flat_map (fun index =>
                if is_compound index then [AddIndex model1 (fst index) (snd index)] else [])
      (iter_set index_eqb indexes_to_add) in
  Ok (added ++ dropped ++ changed ++ not_null ++ column_indexes ++ drops ++ adds).

Context {sorter : SortModels}.

(** [{m._meta.table_name: m for m in models}] *)
Definition models_map (models : list Model) : dict Model :=
  dict_of_pairs (map (fun m => (table_name m, m)) models).

(** The argument [migrator] of [diff_many] is handed to the functions that
    print a column, which do not read it; it is left out. *)
Definition diff_many_calls (models1 models2 : list Model) (reverse : bool)
  : result (list change) :=
  models1 <- sort_models models1 ;;
  models2 <- sort_models models2 ;;
  let models1 := if reverse then rev models1 else models1 in
  let models2 := if reverse then rev models2 else models2 in
  let models_map1 := models_map models1 in
  let models_map2 := models_map models2 in
  changes <-
    flat_mapM (fun item : string * Model =>
                 let (name, model1) := item in
                 if negb (dict_contains models_map2 name) then Ok []
                 else model2 <- dict_getitem models_map2 name ;;
                      diff_one_calls model1 model2)
      models_map1 ;;
  (* Add models *)
  created <-
    mapM (fun name => m <- dict_getitem models_map1 name ;; Ok (CreateModel m))
      (filter (fun m => negb (dict_contains models_map2 m)) (dict_keys models_map1)) ;;
  (* Remove models *)
  removed <-
    mapM (fun name => m <- dict_getitem models_map2 name ;; Ok (RemoveModel m))
      (filter (fun m => negb (dict_contains models_map1 m)) (dict_keys models_map2)) ;;
  Ok (changes ++ created ++ removed).

End Diff.

(** ** The text of the statements *)

Definition newline_char : ascii := "010"%char.

Definition INDENT : string := "    ".
Definition NEWLINE : string := String newline_char INDENT.

(** [sep.join(l)] *)
Fixpoint join (sep : string) (l : list string) : string :=
  match l with
  | [] => ""
  | [s] => s
  | s :: l' => s ++ sep ++ join sep l'
  end.

Definition char_in (c : ascii) (chars : string) : bool :=
  existsb (Ascii.eqb c) (list_ascii_of_string chars).

Fixpoint lstrip (chars : string) (s : string) : string :=
  match s with
  | EmptyString => EmptyString
  | String c s' => if char_in c chars then lstrip chars s' else s
  end.

Fixpoint rstrip (chars : string) (s : string) : string :=
  match s with
  | EmptyString => EmptyString
  | String c s' =>
      match rstrip chars s' with
      | EmptyString => if char_in c chars then EmptyString else String c EmptyString
      | r => String c r
      end
  end.

(** [s.strip(chars)] *)
Definition strip (chars : string) (s : string) : string :=
  rstrip chars (lstrip chars s).

Definition double_quote : ascii := ascii_of_nat 34.

Definition hex_digit (n : nat) : ascii :=
  nth n (list_ascii_of_string "0123456789abcdef") "0"%char.

(** A character that [repr] copies as it stands, among the code points
    below 256: not a control character (0 to 31, 127 to 159), not the
    no-break space (160), not the soft hyphen (173). *)
Definition printable (n : nat) : bool :=
  negb (Nat.ltb n 32 || Nat.eqb n 127
        || (Nat.leb 128 n && Nat.leb n 160) || Nat.eqb n 173).

(** The escape [repr] writes for one character of a string, between the
    given quotes.  A string is the list of the code points of its
    characters, all below 256. *)
Definition repr_char (quote c : ascii) : string :=
  let n := nat_of_ascii c in
  if Ascii.eqb c quote || Ascii.eqb c "\"%char then String "\"%char (String c "")
  else if Nat.eqb n 10 then "\n"
  else if Nat.eqb n 13 then "\r"
  else if Nat.eqb n 9 then "\t"
  else if negb (printable n)
       then "\x" ++ String (hex_digit (n / 16)) (String (hex_digit (n mod 16)) "")
  else String c "".

(** [repr(s)] of a string: single quotes, unless the string holds a single
    quote and no double quote. *)
Definition repr_str (s : string) : string :=
  let quote :=
    if char_in "'"%char s && negb (char_in double_quote s) then double_quote else "'"%char in
  String quote (concat "" (map (repr_char quote) (list_ascii_of_string s)))
  ++ String quote "".

Definition repr_int (z : Z) : string :=
  match z with
  | Z0 => "0"
  | Zpos p => NilZero.string_of_uint (Pos.to_uint p)
  | Zneg p => "-" ++ NilZero.string_of_uint (Pos.to_uint p)
  end.

Definition repr_bool (b : bool) : string := if b then "True" else "False".

Fixpoint py_repr (v : pyvalue) : string :=
  match v with
  | PyNone => "None"
  | PyBool b => repr_bool b
  | PyInt z => repr_int z
  | PyStr s => repr_str s
  | PyTuple xs =>
      match xs with
      | [x] => "(" ++ py_repr x ++ ",)"
      | _ => "(" ++ join ", " (map py_repr xs) ++ ")"
      end
  | PyList xs => "[" ++ join ", " (map py_repr xs) ++ "]"
  | PyCallable ident => ident
  end.

(** [str(v)], as an f-string prints a value. *)
Definition py_str (v : pyvalue) : string :=
  match v with
  | PyStr s => s
  | _ => py_repr v
  end.

Section Render.

(** [field_to_code] and [model_to_code] print a column through
    [playhouse.reflection.Column], which is not part of this package: the
    text of a column and of a model declaration are parameters. *)
Variable field_to_code : Field -> bool -> string.
Variable model_to_code : Model -> string.

Definition create_model (model_cls : Model) : string :=
  "@migrator.create_model" ++ String newline_char (model_to_code model_cls).

Definition remove_model (model_cls : Model) : string :=
  "migrator.remove_model('" ++ table_name model_cls ++ "')".

Definition create_fields (model_cls : Model) (flds : list Field) : string :=
  "migrator.add_fields(" ++ NEWLINE ++ "'" ++ table_name model_cls ++ "', "
  ++ (NEWLINE ++ join ("," ++ NEWLINE) (map (fun field => field_to_code field false) flds))
  ++ ")".

Definition drop_fields (model_cls : Model) (names : list string) : string :=
  "migrator.remove_fields('" ++ table_name model_cls ++ "', "
  ++ join ", " (map repr_str names) ++ ")".

Definition change_fields (model_cls : Model) (flds : list Field) : string :=
  "migrator.change_fields('" ++ table_name model_cls ++ "', "
  ++ join ("," ++ NEWLINE) (map (fun f => field_to_code f false) flds) ++ ")".

Definition change_not_null (model_cls : Model) (name : string) (null : pyvalue) : string :=
  let operation := if py_truthy null then "drop_not_null" else "add_not_null" in
  "migrator." ++ operation ++ "('" ++ table_name model_cls ++ "', " ++ repr_str name ++ ")".

Definition add_index (model_cls : Model) (name : pyvalue) (unique : pyvalue) : string :=
  let columns := strip "()[]" (py_repr name) in
  "migrator.add_index('" ++ table_name model_cls ++ "', " ++ columns
  ++ ", unique=" ++ py_str unique ++ ")".

Definition drop_index (model_cls : Model) (name : pyvalue) : string :=
  let columns := strip "()[]" (py_repr name) in
  "migrator.drop_index('" ++ table_name model_cls ++ "', " ++ columns ++ ")".

(** The call a [change] records. *)
Definition render (c : change) : string :=
  match c with
  | CreateFields model flds => create_fields model flds
  | DropFields model names => drop_fields model names
  | ChangeFields model flds => change_fields model flds
  | ChangeNotNull model name null => change_not_null model name null
  | AddIndex model name unique => add_index model name unique
  | DropIndex model name => drop_index model name
  | CreateModel model => create_model model
  | RemoveModel model => remove_model model
  end.

Context {set_order : SetIteration} {sorter : SortModels}.

Definition diff_one (model1 model2 : Model) : result (list string) :=
  changes <- diff_one_calls model1 model2 ;;
  Ok (map render changes).

Definition diff_many (models1 models2 : list Model) (reverse : bool)
  : result (list string) :=
  changes <- diff_many_calls models1 models2 reverse ;;
  Ok (map render changes).

End Render.

(** ** The declaration of a column *)

Definition FIELD_MODULES_MAP : dict string :=
  [("ArrayField", "pw_pext");
   ("BinaryJSONField", "pw_pext");
   ("DateTimeTZField", "pw_pext");
   ("HStoreField", "pw_pext");
   ("IntervalField", "pw_pext");
   ("JSONField", "pw_pext");
   ("TSVectorField", "pw_pext")].

(** [s.partition(sep)] for a separator of one character: the text before
    the first separator, the separator, the text after it; the whole text
    and two empty strings when the separator does not occur. *)
Fixpoint partition (sep : ascii) (s : string) : string * string * string :=
  match s with
  | EmptyString => (EmptyString, EmptyString, EmptyString)
  | String c s' =>
      if Ascii.eqb c sep then (EmptyString, String sep EmptyString, s')
      else let '(h, m, t) := partition sep s' in (String c h, m, t)
  end.

(** The characters [str.strip()] removes, among the code points below
    256: tab, line feed, vertical tab, form feed, carriage return, the four
    separators from 28 to 31, the space, the next-line character (133) and
    the no-break space (160). *)
Definition whitespace : string :=
  string_of_list_ascii
    (map ascii_of_nat [9; 10; 11; 12; 13; 28; 29; 30; 31; 32; 133; 160]).

(** [s.strip()] *)
Definition py_strip (s : string) : string := strip whitespace s.

(** [Column.get_field]: [super_get_field] is the text
    [playhouse.reflection.Column.get_field] returns for the column,
    [field_class] the class the column was built with. *)
Definition Column_get_field (super_get_field : string) (field_class : pyclass)
    (space : string) : string :=
  let field := super_get_field in
  let module :=
    match dict_get FIELD_MODULES_MAP (cls_name field_class) with
    | Some m => m
    | None => "pw"
    end in
  let '(name, _, field) := partition "="%char field in
  let name := py_strip name in
  let field := py_strip field in
  name ++ space ++ "=" ++ space ++ module ++ "." ++ field.

(** [field_to_code]: the column is built with the class
    [find_field_type(field)]; [vanilla] is the text playhouse prints for
    it. *)
Definition field_to_code (vanilla : Field -> string) (field : Field) (space : bool)
  : string :=
  Column_get_field (vanilla field) (find_field_type field) (if space then " " else "").

(** * Definitions for the properties *)

(** The notions in which the properties below are stated, a model of the
    two parameters of the development, and the sample columns and tables
    on which the properties are tried. *)

Section StatementDefinitions.

Context {set_order : SetIteration}.

(** ** The parameters of a field *)

(** The parameters [FIELD_TO_PARAMS] gives for the resolved type of the
    field. *)
Definition extra_params (field : Field) : TParams :=
  class_get FIELD_TO_PARAMS (find_field_type field) (fun _ => []) field.

(** The keys the functions of [FIELD_TO_PARAMS] may set. *)
Definition extra_keys : list string :=
  ["max_length"; "max_digits"; "decimal_places"; "auto_round"; "rounding";
   "on_delete"; "on_update"; "formats"].

(** The default takes part in the comparison: the condition under which
    [field_to_params] sets the key [default]. *)
Definition default_compared (field : Field) : bool :=
  negb (is_None (field_default field))
  && negb (callable (field_default field))
  && isinstance_Hashable (field_default field).

(** The value [field_to_params] sets under the key [index]. *)
Definition index_param (field : Field) : pyvalue :=
  PyTuple [PyBool (field_index field && negb (field_unique field));
           PyBool (field_unique field)].

Arguments index_param : simpl never.

(** The dictionary [compare_fields] hashes for a field: the parameters and
    the key [null]. *)
Definition compared_params (field : Field) : TParams :=
  dict_set (field_to_params field) "null" (PyBool (field_null field)).

(** Every parameter of the field that the comparison reads can be hashed. *)
Definition hashable_params (field : Field) : bool :=
  forallb (fun kv => py_hashable (snd kv)) (compared_params field).

(** Every index declaration of the model can be hashed. *)
Definition hashable_indexes (model : Model) : bool :=
  forallb (fun i => py_hashable (fst i) && py_hashable (snd i)) (indexes model).

(** Every value of the model that the comparison puts in a set can be
    hashed: the parameters of its fields and its index declarations. *)
Definition well_formed_model (m : Model) : bool :=
  forallb (fun nf => hashable_params (snd nf)) (fields m) && hashable_indexes m.

(** The dictionary of fields is keyed by the name of each field. *)
Definition keyed_by_name (m : Model) : bool :=
  forallb (fun nf => String.eqb (field_name (snd nf)) (fst nf)) (fields m).

(** No name of the list occurs twice. *)
Definition name_mem (t : string) (l : list string) : bool := existsb (String.eqb t) l.

Fixpoint names_distinct (l : list string) : bool :=
  match l with
  | [] => true
  | x :: l' => negb (name_mem x l') && names_distinct l'
  end.

(** What the set difference of [compare_fields] keeps under a key. *)
Definition diff_at (params1 params2 : TParams) (k : string) : option pyvalue :=
  match dict_get params1 k with
  | Some v =>
      match dict_get params2 k with
      | Some v' => if py_eqb v v' then None else Some v
      | None => Some v
      end
  | None => None
  end.

(** What is left of a difference once [null] and [index] are popped. *)
Definition other_diff (diff : TParams) : TParams :=
  snd (dict_pop (snd (dict_pop diff "null")) "index").

(** ** The loops of [diff_one] *)

(** The three lists of a [loop_state]. *)
Definition cd_fields (c : loop_state) : list Field := fst (fst c).
Definition cd_nulls (c : loop_state) : list (string * pyvalue) := snd (fst c).
Definition cd_indexes (c : loop_state) : list (string * pyvalue * pyvalue) := snd c.

(** What one column adds to the three lists. *)
Definition column_diff (field_names1 field_names2 : dict Field) (name : string)
  : result loop_state :=
  change_step field_names1 field_names2 ([], [], []) name.

(** The set [names1] of [diff_one]. *)
Definition names_added (model1 model2 : Model) : list string :=
  set_sub String.eqb (dict_keys (fields model1)) (dict_keys (fields model2)).

(** The set [names2] of [diff_one]. *)
Definition names_dropped (model1 model2 : Model) : list string :=
  set_sub String.eqb (dict_keys (fields model2)) (dict_keys (fields model1)).

(** The columns of both tables, in the order the loop visits them. *)
Definition common_names (model1 model2 : Model) : list string :=
  iter_set String.eqb
    (set_sub String.eqb
       (set_sub String.eqb (dict_keys (fields model1)) (names_added model1 model2))
       (names_dropped model1 model2)).

(** The calls of the loop "Drop compound indexes". *)
Definition compound_drops (model1 model2 : Model) : list change :=
  flat_map (fun index => if is_compound index then [DropIndex model1 (fst index)] else [])
    (iter_set index_eqb (set_sub index_eqb (indexes model2) (indexes model1))).

(** The calls of the loop "Add compound indexes". *)
Definition compound_adds (model1 model2 : Model) : list change :=
  flat_map (fun index =>
              if is_compound index then [AddIndex model1 (fst index) (snd index)] else [])
    (iter_set index_eqb (set_sub index_eqb (indexes model1) (indexes model2))).

(** The column has a [change_not_null] call. *)
Definition null_affected (fn1 fn2 : dict Field) (n : string) : bool :=
  match column_diff fn1 fn2 n with
  | Ok x => nonempty (cd_nulls x)
  | Raise _ => false
  end.

(** The index calls of the column. *)
Definition column_index_calls (m1 : Model) (fn1 fn2 : dict Field) (n : string) : list change :=
  match column_diff fn1 fn2 n with
  | Ok x =>
      match flat_mapM (index_step m1 fn2) (cd_indexes x) with
      | Ok r => r
      | Raise _ => []
      end
  | Raise _ => []
  end.

(** ** The calls for one column *)

(** A [change_not_null] call for the column. *)
Definition is_not_null_of (name : string) (c : change) : bool :=
  match c with
  | ChangeNotNull _ n _ => String.eqb n name
  | _ => false
  end.

(** An [add_index] or [drop_index] call for the index of the column. *)
Definition is_index_of (name : string) (c : change) : bool :=
  match c with
  | AddIndex _ (PyStr n) _ => String.eqb n name
  | DropIndex _ (PyStr n) => String.eqb n name
  | _ => false
  end.

Definition not_null_calls (name : string) (ops : list change) : list change :=
  filter (is_not_null_of name) ops.

Definition index_calls (name : string) (ops : list change) : list change :=
  filter (is_index_of name) ops.

(** The index calls the specification gives for a column: none when the
    index state is the same; when the new column is indexed or unique,
    [drop_index] if the old one was indexed or unique, then [add_index]
    with the new unique flag; otherwise [drop_index]. *)
Definition index_changes (model1 : Model) (name : string) (f1 f2 : Field) : list change :=
  if py_eqb (index_param f1) (index_param f2) then []
  else if field_index f1 || field_unique f1
       then (if field_unique f2 || field_index f2
             then [DropIndex model1 (PyStr name)] else [])
            ++ [AddIndex model1 (PyStr name) (PyBool (field_unique f1))]
       else [DropIndex model1 (PyStr name)].

(** The [change_not_null] call the specification gives for a column. *)
Definition not_null_changes (model1 : Model) (name : string) (f1 f2 : Field) : list change :=
  if Bool.eqb (field_null f1) (field_null f2) then []
  else [ChangeNotNull model1 name (PyBool (field_null f1))].

(** A [create_model] or [remove_model] call. *)
Definition is_model_call (c : change) : bool :=
  match c with
  | CreateModel _ | RemoveModel _ => true
  | _ => false
  end.

(** ** Two statements of the specification that the program does not meet *)


(** C5, without a condition on the types: the index calls for every
    column of both tables, whatever the types of its two versions. *)
Definition index_calls_whatever_the_type : Prop :=
  forall (order : SetIteration) m1 m2 name f1 f2 ops,
    dict_get (fields m1) name = Some f1 ->
    dict_get (fields m2) name = Some f2 ->
    @diff_one_calls order m1 m2 = Ok ops ->
    index_calls name ops = index_changes m1 name f1 f2.

(** ** A sorter of models *)

(** A function with the contract of [SortModels], to run [diff_many] on
    the samples. *)

(** The tables the foreign keys of a model refer to. *)
Definition fk_targets (m : Model) : list string :=
  flat_map (fun nf : string * Field =>
              match field_rel_model (snd nf) with
              | Some t => [t]
              | None => []
              end)
    (fields m).

(** The foreign keys of [m] that matter for the order refer to tables in
    [placed]. *)
Definition ready (all placed : list string) (m : Model) : bool :=
  forallb (fun t => String.eqb t (table_name m) || negb (name_mem t all) || name_mem t placed)
    (fk_targets m).

(** The first model that is ready, and the others. *)
Fixpoint pick (all placed : list string) (remaining : list Model)
  : option (Model * list Model) :=
  match remaining with
  | [] => None
  | m :: rest =>
      if ready all placed m then Some (m, rest)
      else match pick all placed rest with
           | Some (m', rest') => Some (m', m :: rest')
           | None => None
           end
  end.

(** Picks a ready model as long as there is one. *)
Fixpoint place (fuel : nat) (all placed : list string) (remaining : list Model)
  : list Model :=
  match fuel with
  | O => []
  | S fuel' =>
      match pick all placed remaining with
      | Some (m, rest) => m :: place fuel' all (table_name m :: placed) rest
      | None => []
      end
  end.

(** Every model of the list is ready when its turn comes. *)
Fixpoint topo_ok (all placed : list string) (l : list Model) : bool :=
  match l with
  | [] => true
  | m :: l' => ready all placed m && topo_ok all (table_name m :: placed) l'
  end.

(** Places the models one after the other, each once the tables it refers
    to are placed; fails when table names repeat or when the foreign keys
    form a cycle. *)
Definition sort_by_references (models : list Model) : result (list Model) :=
  let all := map table_name models in
  let sorted := place (List.length models) all [] models in
  if names_distinct all
     && Nat.eqb (List.length sorted) (List.length models)
     && names_distinct (map table_name sorted)
     && topo_ok all [] sorted
  then Ok sorted
  else Raise CyclicDependencyError.

(** ** Sample columns and tables *)

Definition py_object : pyclass := {| cls_module := "builtins"; cls_name := "object" |}.
Definition pw_Field : pyclass := {| cls_module := "peewee"; cls_name := "Field" |}.
Definition pw_AutoField : pyclass := {| cls_module := "peewee"; cls_name := "AutoField" |}.
Definition pw_IntegerField : pyclass := {| cls_module := "peewee"; cls_name := "IntegerField" |}.
Definition pw_BigIntegerField : pyclass :=
  {| cls_module := "peewee"; cls_name := "BigIntegerField" |}.

(** The field is an instance of [pw.Field], as every field of a model is:
    [peewee.Field] is in the method resolution order of its class. *)
Definition is_pw_field (field : Field) : bool :=
  existsb (class_eqb pw_Field) (mro field).

(** A column of the given class with peewee's defaults. *)
Definition column (name : string) (cls : pyclass) (bases : list pyclass) : Field :=
  {| field_name := name;
     field_class := cls;
     field_bases := bases;
     field_null := false;
     field_index := false;
     field_unique := false;
     field_default := PyNone;
     field_max_length := PyInt 255;
     field_max_digits := PyInt 10;
     field_decimal_places := PyInt 5;
     field_auto_round := PyBool false;
     field_rounding := PyNone;
     field_on_delete := None;
     field_on_update := None;
     field_formats := PyList [PyStr "%Y-%m-%d %H:%M:%S"];
     field_rel_model := None |}.

(** The field with another default, other flags, or a foreign key to the
    given table. *)
Definition set_default (f : Field) (d : pyvalue) : Field :=
  {| field_name := field_name f;
     field_class := field_class f;
     field_bases := field_bases f;
     field_null := field_null f;
     field_index := field_index f;
     field_unique := field_unique f;
     field_default := d;
     field_max_length := field_max_length f;
     field_max_digits := field_max_digits f;
     field_decimal_places := field_decimal_places f;
     field_auto_round := field_auto_round f;
     field_rounding := field_rounding f;
     field_on_delete := field_on_delete f;
     field_on_update := field_on_update f;
     field_formats := field_formats f;
     field_rel_model := field_rel_model f |}.

Definition set_flags (f : Field) (null index unique : bool) : Field :=
  {| field_name := field_name f;
     field_class := field_class f;
     field_bases := field_bases f;
     field_null := null;
     field_index := index;
     field_unique := unique;
     field_default := field_default f;
     field_max_length := field_max_length f;
     field_max_digits := field_max_digits f;
     field_decimal_places := field_decimal_places f;
     field_auto_round := field_auto_round f;
     field_rounding := field_rounding f;
     field_on_delete := field_on_delete f;
     field_on_update := field_on_update f;
     field_formats := field_formats f;
     field_rel_model := field_rel_model f |}.

Definition set_rel_model (f : Field) (target : string) : Field :=
  {| field_name := field_name f;
     field_class := field_class f;
     field_bases := field_bases f;
     field_null := field_null f;
     field_index := field_index f;
     field_unique := field_unique f;
     field_default := field_default f;
     field_max_length := field_max_length f;
     field_max_digits := field_max_digits f;
     field_decimal_places := field_decimal_places f;
     field_auto_round := field_auto_round f;
     field_rounding := field_rounding f;
     field_on_delete := field_on_delete f;
     field_on_update := field_on_update f;
     field_formats := field_formats f;
     field_rel_model := Some target |}.

Definition id_column : Field := column "id" pw_AutoField [pw_IntegerField; pw_Field; py_object].

(** A field class of an application derived from [pw.CharField]. *)
Definition app_EmailField : pyclass := {| cls_module := "shop.fields"; cls_name := "EmailField" |}.
Definition contact_column : Field :=
  column "contact" app_EmailField [pw_CharField; pw_Field; py_object].

(** Scenario A: [users.email], unique before, indexed and not unique now. *)
Definition email_unique : Field :=
  set_flags (column "email" pw_CharField [pw_Field; py_object]) false false true.
Definition email_indexed : Field :=
  set_flags (column "email" pw_CharField [pw_Field; py_object]) false true false.
Definition users_old : Model :=
  {| table_name := "users"; fields := [("id", id_column); ("email", email_unique)]; indexes := [] |}.
Definition users_new : Model :=
  {| table_name := "users"; fields := [("id", id_column); ("email", email_indexed)]; indexes := [] |}.

(** Scenario B: [people.age], a 32-bit integer before, a 64-bit one now. *)
Definition age_int : Field := column "age" pw_IntegerField [pw_Field; py_object].
Definition age_big : Field := column "age" pw_BigIntegerField [pw_IntegerField; pw_Field; py_object].
Definition people_old : Model :=
  {| table_name := "people"; fields := [("id", id_column); ("age", age_int)]; indexes := [] |}.
Definition people_new : Model :=
  {| table_name := "people"; fields := [("id", id_column); ("age", age_big)]; indexes := [] |}.

(** The same change of type, with the column also made nullable and
    indexed. *)
Definition age_big_nullable_indexed : Field := set_flags age_big true true false.
Definition people_newer : Model :=
  {| table_name := "people";
     fields := [("id", id_column); ("age", age_big_nullable_indexed)];
     indexes := [] |}.

(** [people.nick]: nullable now, not before. *)
Definition nick_required : Field := column "nick" pw_CharField [pw_Field; py_object].
Definition nick_optional : Field := set_flags nick_required true false false.
Definition members_old : Model :=
  {| table_name := "members"; fields := [("id", id_column); ("nick", nick_required)]; indexes := [] |}.
Definition members_new : Model :=
  {| table_name := "members"; fields := [("id", id_column); ("nick", nick_optional)]; indexes := [] |}.

(** [items.stock]: the literal default [5] before, none now; and a default
    computed by a function. *)
Definition stock_plain : Field := column "stock" pw_IntegerField [pw_Field; py_object].
Definition stock_default_5 : Field := set_default stock_plain (PyInt 5).
Definition stock_default_factory : Field :=
  set_default stock_plain (PyCallable "<function initial_stock at 0x7f3a5c0>").
Definition stock_default_nested : Field :=
  set_default stock_plain (PyTuple [PyInt 1; PyList [PyInt 2]]).
Definition items_old : Model :=
  {| table_name := "items"; fields := [("id", id_column); ("stock", stock_default_5)]; indexes := [] |}.
Definition items_new : Model :=
  {| table_name := "items"; fields := [("id", id_column); ("stock", stock_plain)]; indexes := [] |}.

(** Scenario C: [orders] refers to [customers]. *)
Definition customer_column : Field :=
  set_rel_model (column "customer" pw_ForeignKeyField [pw_Field; py_object]) "customers".
Definition orders : Model :=
  {| table_name := "orders";
     fields := [("id", id_column); ("customer", customer_column)];
     indexes := [] |}.
Definition customers : Model :=
  {| table_name := "customers";
     fields := [("id", id_column); ("name", column "name" pw_CharField [pw_Field; py_object])];
     indexes := [] |}.

(** A table that changes in every way [diff_one] looks at. *)
Definition fax_column : Field := column "fax" pw_CharField [pw_Field; py_object].
Definition city_column : Field := column "city" pw_CharField [pw_Field; py_object].
Definition stores_old : Model :=
  {| table_name := "stores";
     fields := [("id", id_column); ("email", email_unique); ("age", age_int);
                ("nick", nick_required); ("fax", fax_column)];
     indexes := [(PyTuple [PyStr "nick"; PyStr "fax"], PyBool false)] |}.
Definition stores_new : Model :=
  {| table_name := "stores";
     fields := [("id", id_column); ("email", email_indexed); ("age", age_big);
                ("nick", nick_optional); ("city", city_column)];
     indexes := [(PyTuple [PyStr "nick"; PyStr "city"], PyBool true)] |}.


(** The table [stores]: every kind of call, in the order of C2. *)
Definition stores_calls : list change :=
  [CreateFields stores_new [city_column];
   DropFields stores_new ["fax"];
   ChangeFields stores_new [age_big];
   ChangeNotNull stores_new "nick" (PyBool true);
   DropIndex stores_new (PyStr "email");
   AddIndex stores_new (PyStr "email") (PyBool false);
   DropIndex stores_new (PyTuple [PyStr "nick"; PyStr "fax"]);
   AddIndex stores_new (PyTuple [PyStr "nick"; PyStr "city"]) (PyBool true)].

(** ** When [diff_one] returns *)

(** The two versions of a column can be compared: their types differ, or
    the parameters of both can be hashed. *)
Definition comparable_fields (f1 f2 : Field) : bool :=
  negb (class_eqb (find_field_type f1) (find_field_type f2))
  || (hashable_params f1 && hashable_params f2).

(** Every column of both tables can be compared. *)
Definition comparable_columns (m1 m2 : Model) : bool :=
  forallb (fun name =>
             match dict_get (fields m1) name, dict_get (fields m2) name with
             | Some f1, Some f2 => comparable_fields f1 f2
             | _, _ => true
             end)
    (dict_keys (fields m1)).

Definition comparable_tables (m1 m2 : Model) : bool :=
  comparable_columns m1 m2 && hashable_indexes m1 && hashable_indexes m2.

(** The list [diff_many] walks through: the sorted models, the other way
    round under [reverse]. *)
Definition in_direction (reverse : bool) (sorted : list Model) : list Model :=
  if reverse then rev sorted else sorted.

(** The schema has no model with the table name of the model. *)
Definition lacking (models : list Model) (m : Model) : bool :=
  negb (name_mem (table_name m) (map table_name models)).

(** What the first loop of [diff_many] adds for a model of the first
    schema: the calls of [diff_one] against the model of the second schema
    with the same table name, nothing when there is none. *)
Definition paired_calls (models2 : list Model) (m1 : Model) (r : list change) : Prop :=
  if name_mem (table_name m1) (map table_name models2)
  then exists m2,
      In m2 models2 /\ table_name m2 = table_name m1 /\ diff_one_calls m1 m2 = Ok r
  else r = [].

(** The column names of the argument [name] of [add_index] and
    [drop_index]: one name for a string; the elements of a list of strings,
    or of a tuple of strings that has not exactly one element. *)
Fixpoint all_names (xs : list pyvalue) : option (list string) :=
  match xs with
  | [] => Some []
  | PyStr s :: xs' => option_map (cons s) (all_names xs')
  | _ => None
  end.

Definition index_names (name : pyvalue) : option (list string) :=
  match name with
  | PyStr n => Some [n]
  | PyList xs => all_names xs
  | PyTuple xs => if Nat.eqb (List.length xs) 1 then None else all_names xs
  | _ => None
  end.

(** The names as a statement lists them. *)
Definition columns_text (names : list string) : string :=
  join ", " (map repr_str names).

(** Every character of the text is one of [chars]. *)
Definition all_in (chars : string) (s : string) : bool :=
  forallb (fun c => char_in c chars) (list_ascii_of_string s).

(** The text is made of white space. *)
Definition blank (s : string) : bool := all_in whitespace s.

Fixpoint last_char (s : string) (c : ascii) : ascii :=
  match s with
  | EmptyString => c
  | String c' s' => last_char s' c'
  end.

(** A character of the first 128 that is not white space. *)
Definition solid (c : ascii) : bool :=
  negb (char_in c whitespace) && Nat.ltb (nat_of_ascii c) 128.

(** The text neither starts nor ends with white space. *)
Definition trimmed (s : string) : bool :=
  match s with
  | EmptyString => true
  | String c s' => solid c && solid (last_char s' c)
  end.

(** The text playhouse prints for a column, and a foreign key of the same
    parameters to another table. *)
Definition vanilla_sample (field : Field) : string :=
  (field_name field ++ " = " ++ cls_name (find_field_type field) ++ "(null=True)")%string.
Definition customer_column_moved : Field := set_rel_model customer_column "clients".
Definition orders_moved : Model :=
  {| table_name := "orders";
     fields := [("id", id_column); ("customer", customer_column_moved)];
     indexes := [] |}.

(** A sample with a column whose parameters cannot be hashed in both
    versions, and one with such a column in the old version only. *)
Definition crates_old : Model :=
  {| table_name := "crates";
     fields := [("id", id_column); ("stock", stock_default_nested)];
     indexes := [] |}.
Definition crates_new : Model :=
  {| table_name := "crates";
     fields := [("id", id_column); ("stock", stock_default_nested)];
     indexes := [] |}.
Definition crates_emptied : Model :=
  {| table_name := "crates"; fields := [("id", id_column)]; indexes := [] |}.

(** The columns of an index declaration are a tuple or a list of more than
    one element: what [diff_one] asks of [index[0]]. *)
Definition several_columns (cols : pyvalue) : bool := is_compound (cols, PyNone).

(** The call is not an index call, or it names one column by a string, or
    more than one column. *)
Definition index_call_well_formed (c : change) : bool :=
  match c with
  | AddIndex _ (PyStr _) _ | DropIndex _ (PyStr _) => true
  | AddIndex _ cols _ | DropIndex _ cols => several_columns cols
  | _ => true
  end.

(** A table that declares an index on one column in [indexes]. *)
Definition tags_old : Model :=
  {| table_name := "tags";
     fields := [("id", id_column); ("nick", nick_required); ("fax", fax_column)];
     indexes := [(PyTuple [PyStr "nick"; PyStr "fax"], PyBool false)] |}.
Definition tags_new : Model :=
  {| table_name := "tags";
     fields := [("id", id_column); ("nick", nick_required); ("fax", fax_column)];
     indexes := [(PyTuple [PyStr "nick"; PyStr "fax"], PyBool true);
                 (PyTuple [PyStr "nick"], PyBool true)] |}.

(** The table [tags]: the unique flag of the index on two columns changes,
    so the index is dropped and added; the index declared on one column is
    left alone. *)
Definition tags_calls : list change :=
  [DropIndex tags_new (PyTuple [PyStr "nick"; PyStr "fax"]);
   AddIndex tags_new (PyTuple [PyStr "nick"; PyStr "fax"]) (PyBool true)].

(** A unique e-mail column, indexed in one version and not in the other. *)
Definition users_unique_indexed : Model :=
  {| table_name := "users";
     fields := [("id", id_column); ("email", set_flags email_unique false true true)];
     indexes := [] |}.
Definition users_unique_plain : Model :=
  {| table_name := "users";
     fields := [("id", id_column); ("email", set_flags email_unique false false true)];
     indexes := [] |}.

End StatementDefinitions.

(** * Properties *)

(** ** Python equality *)

Section PyvalueInduction.

Variable P : pyvalue -> Prop.
Hypothesis HNone : P PyNone.
Hypothesis HBool : forall b, P (PyBool b).
Hypothesis HInt : forall z, P (PyInt z).
Hypothesis HStr : forall s, P (PyStr s).
Hypothesis HTuple : forall xs, Forall P xs -> P (PyTuple xs).
Hypothesis HList : forall xs, Forall P xs -> P (PyList xs).
Hypothesis HCallable : forall s, P (PyCallable s).

Fixpoint pyvalue_nested_ind (v : pyvalue) : P v :=
  let fix all (xs : list pyvalue) : Forall P xs :=
    match xs with
    | [] => Forall_nil P
    | x :: xs' => Forall_cons x (pyvalue_nested_ind x) (all xs')
    end in
  match v with
  | PyNone => HNone
  | PyBool b => HBool b
  | PyInt z => HInt z
  | PyStr s => HStr s
  | PyTuple xs => HTuple (all xs)
  | PyList xs => HList (all xs)
  | PyCallable s => HCallable s
  end.

End PyvalueInduction.

Lemma py_eqb_refl : forall v, py_eqb v v = true.
Proof.
  induction v using pyvalue_nested_ind; simpl;
    try reflexivity;
    try apply Bool.eqb_reflx; try apply Z.eqb_refl; try apply String.eqb_refl.
  - induction H as [|x xs Hx _ IH]; simpl; [reflexivity|].
    rewrite Hx. exact IH.
  - induction H as [|x xs Hx _ IH]; simpl; [reflexivity|].
    rewrite Hx. exact IH.
Qed.

Lemma item_eqb_refl : forall kv, item_eqb kv kv = true.
Proof.
  intros [k v]. unfold item_eqb; simpl.
  now rewrite String.eqb_refl, py_eqb_refl.
Qed.

Lemma index_eqb_refl : forall i, index_eqb i i = true.
Proof.
  intros [c u]. unfold index_eqb; simpl.
  now rewrite !py_eqb_refl.
Qed.

Lemma class_eqb_refl : forall c, class_eqb c c = true.
Proof.
  intros c. unfold class_eqb. now rewrite !String.eqb_refl.
Qed.

Lemma class_eqb_eq : forall c1 c2, class_eqb c1 c2 = true <-> c1 = c2.
Proof.
  intros [m1 n1] [m2 n2]. unfold class_eqb; simpl.
  rewrite andb_true_iff, !String.eqb_eq. split.
  - intros [-> ->]. reflexivity.
  - intros H. injection H as -> ->. split; reflexivity.
Qed.

(** ** Sets *)

Lemma set_mem_refl :
  forall (A : Type) (eqb : A -> A -> bool) (x : A) (s : list A),
    (forall a, eqb a a = true) -> In x s -> set_mem eqb x s = true.
Proof.
  intros A eqb x s Hrefl Hin. unfold set_mem.
  apply existsb_exists. exists x. split; [exact Hin | apply Hrefl].
Qed.

Lemma set_sub_self :
  forall (A : Type) (eqb : A -> A -> bool) (s : list A),
    (forall a, eqb a a = true) -> set_sub eqb s s = [].
Proof.
  intros A eqb s Hrefl. unfold set_sub.
  assert (H : forall l, incl l s -> filter (fun x => negb (set_mem eqb x s)) l = []).
  { induction l as [|x l IH]; intros Hl; simpl; [reflexivity|].
    rewrite set_mem_refl; [simpl | exact Hrefl | apply Hl; now left].
    apply IH. intros y Hy. apply Hl. now right. }
  apply H. apply incl_refl.
Qed.

Lemma set_mem_string : forall x s, set_mem String.eqb x s = true <-> In x s.
Proof.
  intros x s. unfold set_mem. rewrite existsb_exists. split.
  - intros [y [Hy Heq]]. apply String.eqb_eq in Heq. now subst.
  - intros H. exists x. split; [exact H | apply String.eqb_refl].
Qed.

Lemma In_set_sub_string :
  forall x s1 s2, In x (set_sub String.eqb s1 s2) <-> In x s1 /\ ~ In x s2.
Proof.
  intros x s1 s2. unfold set_sub. rewrite filter_In, negb_true_iff.
  rewrite <- set_mem_string with (s := s2).
  destruct (set_mem String.eqb x s2); intuition congruence.
Qed.

Lemma distinct_string_NoDup : forall l, distinct String.eqb l -> NoDup l.
Proof.
  induction l as [|x l IH]; simpl; intros H; constructor.
  - destruct H as [H _]. intros Hin.
    apply set_mem_string in Hin. congruence.
  - apply IH. apply H.
Qed.

Section SetIterationFacts.

Context {set_order : SetIteration}.

Lemma iter_set_nil :
  forall (A : Type) (eqb : A -> A -> bool), iter_set eqb (@nil A) = [].
Proof.
  intros A eqb. destruct (iter_set eqb (@nil A)) as [|x l] eqn:E; [reflexivity|].
  exfalso. apply (iter_set_incl eqb (@nil A) x). rewrite E. now left.
Qed.

Lemma iter_set_names_In :
  forall (s : list string) x, In x (iter_set String.eqb s) <-> In x s.
Proof.
  intros s x. split; [apply iter_set_incl|].
  intros H. pose proof (iter_set_covers String.eqb s x String.eqb_refl H) as Hc.
  apply existsb_exists in Hc. destruct Hc as [y [Hy Heq]].
  apply String.eqb_eq in Heq. now subst.
Qed.

Lemma iter_set_names_NoDup : forall s : list string, NoDup (iter_set String.eqb s).
Proof.
  intros s. apply distinct_string_NoDup. apply iter_set_distinct.
Qed.

End SetIterationFacts.

(** ** Dictionaries *)

Lemma dict_get_In :
  forall (V : Type) (d : dict V) k v, dict_get d k = Some v -> In (k, v) d.
Proof.
  induction d as [|[k' v'] d IH]; simpl; intros k v H; [discriminate|].
  destruct (String.eqb k k') eqn:E.
  - apply String.eqb_eq in E. injection H as ->. subst. now left.
  - right. now apply IH.
Qed.

Lemma dict_get_keys :
  forall (V : Type) (d : dict V) k, In k (dict_keys d) -> exists v, dict_get d k = Some v.
Proof.
  induction d as [|[k' v'] d IH]; simpl; intros k H; [contradiction|].
  destruct (String.eqb k k') eqn:E; [eauto|].
  destruct H as [H|H]; [|now apply IH].
  subst. rewrite String.eqb_refl in E. discriminate.
Qed.

Lemma dict_get_None :
  forall (V : Type) (d : dict V) k, dict_get d k = None <-> ~ In k (dict_keys d).
Proof.
  induction d as [|[k' v'] d IH]; simpl; intros k; [tauto|].
  destruct (String.eqb k k') eqn:E.
  - apply String.eqb_eq in E. subst. split; [discriminate | tauto].
  - apply String.eqb_neq in E. rewrite IH. split; [|tauto].
    intros H [H'|H']; [congruence | tauto].
Qed.

Lemma dict_contains_keys :
  forall (V : Type) (d : dict V) k, dict_contains d k = true <-> In k (dict_keys d).
Proof.
  intros V d k. unfold dict_contains. split.
  - intros H. destruct (dict_get d k) eqn:E; [|discriminate].
    apply dict_get_In in E. apply in_map with (f := fst) in E. exact E.
  - intros H. apply dict_get_keys in H. destruct H as [v ->]. reflexivity.
Qed.

Lemma dict_get_NoDup :
  forall (V : Type) (d : dict V) k v,
    NoDup (dict_keys d) -> In (k, v) d -> dict_get d k = Some v.
Proof.
  induction d as [|[k' v'] d IH]; simpl; intros k v Hnd Hin; [contradiction|].
  inversion Hnd as [|? ? Hnotin Hnd']; subst.
  destruct Hin as [Hin|Hin].
  - injection Hin as -> ->. now rewrite String.eqb_refl.
  - destruct (String.eqb k k') eqn:E.
    + apply String.eqb_eq in E. subst. exfalso. apply Hnotin.
      apply in_map with (f := fst) in Hin. exact Hin.
    + now apply IH.
Qed.

Lemma dict_set_keys :
  forall (V : Type) (d : dict V) k v,
    dict_keys (dict_set d k v) = if dict_contains d k then dict_keys d else dict_keys d ++ [k].
Proof.
  unfold dict_contains.
  induction d as [|[k' v'] d IH]; simpl; intros k v; [reflexivity|].
  destruct (String.eqb k k') eqn:E; simpl; [reflexivity|].
  rewrite IH. destruct (dict_get d k); reflexivity.
Qed.

Lemma dict_set_NoDup :
  forall (V : Type) (d : dict V) k v, NoDup (dict_keys d) -> NoDup (dict_keys (dict_set d k v)).
Proof.
  intros V d k v H. rewrite dict_set_keys.
  destruct (dict_contains d k) eqn:E; [exact H|].
  apply NoDup_app; [exact H | repeat constructor; tauto |].
  intros x Hx [Hk|[]]. subst.
  apply dict_contains_keys in Hx. congruence.
Qed.

Lemma dict_set_In :
  forall (V : Type) (d : dict V) k v k0 v0,
    In (k0, v0) (dict_set d k v) -> In (k0, v0) d \/ (k0, v0) = (k, v).
Proof.
  induction d as [|[k' v'] d IH]; simpl; intros k v k0 v0 H.
  - destruct H as [H|[]]. right. now symmetry.
  - destruct (String.eqb k k') eqn:E; simpl in H.
    + apply String.eqb_eq in E. subst.
      destruct H as [H|H]; [right; now symmetry | left; now right].
    + destruct H as [H|H]; [left; now left|].
      apply IH in H. tauto.
Qed.

Lemma dict_get_set :
  forall (V : Type) (d : dict V) k v k0,
    dict_get (dict_set d k v) k0 = if String.eqb k0 k then Some v else dict_get d k0.
Proof.
  induction d as [|[k' v'] d IH]; simpl; intros k v k0.
  - destruct (String.eqb k0 k); reflexivity.
  - destruct (String.eqb k k') eqn:E; simpl.
    + apply String.eqb_eq in E. subst.
      destruct (String.eqb k0 k'); reflexivity.
    + rewrite IH. destruct (String.eqb k0 k') eqn:E'; [|reflexivity].
      apply String.eqb_eq in E'. subst. rewrite String.eqb_sym, E. reflexivity.
Qed.

Lemma dict_update_acc :
  forall (V : Type) (l : list (string * V)) (d : dict V),
    NoDup (dict_keys d) ->
    NoDup (dict_keys (dict_update d l))
    /\ (forall k v, In (k, v) (dict_update d l) -> In (k, v) d \/ In (k, v) l)
    /\ (forall k, In k (dict_keys (dict_update d l)) <-> In k (dict_keys d) \/ In k (map fst l)).
Proof.
  unfold dict_update.
  induction l as [|[k v] l IH]; simpl; intros d Hd.
  - split; [exact Hd|]. split; [tauto|]. intros k; tauto.
  - destruct (IH (dict_set d k v) (dict_set_NoDup d k v Hd)) as [H1 [H2 H3]].
    split; [exact H1|]. split.
    + intros k0 v0 H. apply H2 in H. destruct H as [H|H]; [|tauto].
      apply dict_set_In in H. destruct H as [H|H]; [tauto|].
      right. left. now symmetry.
    + intros k0. rewrite H3. rewrite dict_set_keys.
      destruct (dict_contains d k) eqn:E.
      * apply dict_contains_keys in E. intuition (subst; tauto).
      * rewrite in_app_iff. simpl. intuition (subst; tauto).
Qed.

Lemma dict_of_pairs_NoDup :
  forall (V : Type) (l : list (string * V)), NoDup (dict_keys (dict_of_pairs l)).
Proof.
  intros V l. apply (@dict_update_acc V l []). constructor.
Qed.

Lemma dict_of_pairs_In :
  forall (V : Type) (l : list (string * V)) k v, In (k, v) (dict_of_pairs l) -> In (k, v) l.
Proof.
  intros V l k v H.
  destruct (@dict_update_acc V l [] (NoDup_nil _)) as [_ [H2 _]].
  apply H2 in H. destruct H as [[]|H]. exact H.
Qed.

Lemma dict_of_pairs_keys :
  forall (V : Type) (l : list (string * V)) k,
    In k (dict_keys (dict_of_pairs l)) <-> In k (map fst l).
Proof.
  intros V l k.
  destruct (@dict_update_acc V l [] (NoDup_nil _)) as [_ [_ H3]].
  unfold dict_of_pairs, dict_update in *. rewrite H3. simpl. tauto.
Qed.

Lemma dict_update_fresh :
  forall (V : Type) (l : list (string * V)) (d : dict V),
    NoDup (dict_keys d ++ map fst l) -> dict_update d l = d ++ l.
Proof.
  unfold dict_update.
  induction l as [|[k v] l IH]; simpl; intros d H.
  - now rewrite app_nil_r.
  - assert (Hk : dict_set d k v = d ++ [(k, v)]).
    { apply NoDup_remove_2 in H.
      assert (Hd : ~ In k (dict_keys d)) by (intros Hin; apply H; apply in_or_app; now left).
      clear H IH. induction d as [|[k' v'] d IHd]; simpl; [reflexivity|].
      destruct (String.eqb k k') eqn:E.
      - apply String.eqb_eq in E. subst. exfalso. apply Hd. now left.
      - f_equal. apply IHd. intros Hin. apply Hd. now right. }
    rewrite Hk. rewrite IH.
    + now rewrite <- app_assoc.
    + unfold dict_keys in *. rewrite map_app. simpl. rewrite <- app_assoc. exact H.
Qed.

Lemma dict_of_pairs_fresh :
  forall (V : Type) (l : list (string * V)), NoDup (map fst l) -> dict_of_pairs l = l.
Proof.
  intros V l H. apply (@dict_update_fresh V l []). exact H.
Qed.

Lemma dict_pop_fst :
  forall (V : Type) (d : dict V) k, fst (dict_pop d k) = dict_get d k.
Proof.
  induction d as [|[k' v'] d IH]; simpl; intros k; [reflexivity|].
  destruct (String.eqb k k'); [reflexivity|].
  specialize (IH k). destruct (dict_pop d k). exact IH.
Qed.

Lemma dict_pop_absent :
  forall (V : Type) (d : dict V) k, dict_get d k = None -> dict_pop d k = (None, d).
Proof.
  induction d as [|[k' v'] d IH]; simpl; intros k H; [reflexivity|].
  destruct (String.eqb k k'); [discriminate|].
  now rewrite IH.
Qed.

(** Membership in a set of items, read in the dictionary the items came
    from. *)
Lemma set_mem_items :
  forall (p : TParams) k v,
    NoDup (dict_keys p) ->
    set_mem item_eqb (k, v) p =
    match dict_get p k with
    | Some v' => py_eqb v v'
    | None => false
    end.
Proof.
  induction p as [|[k' v'] p IH]; intros k v Hnd; [reflexivity|].
  inversion Hnd as [|? ? Hnotin Hnd']; subst.
  change (set_mem item_eqb (k, v) ((k', v') :: p))
    with (item_eqb (k, v) (k', v') || set_mem item_eqb (k, v) p).
  rewrite IH by exact Hnd'. unfold item_eqb. simpl.
  destruct (String.eqb k k') eqn:E; simpl; [|reflexivity].
  apply String.eqb_eq in E. subst.
  apply dict_get_None in Hnotin. rewrite Hnotin.
  destruct (py_eqb v v'); reflexivity.
Qed.

(** ** The parameters of a field *)

Lemma extra_params_keys :
  forall f, NoDup (dict_keys (extra_params f))
            /\ incl (dict_keys (extra_params f)) extra_keys.
Proof.
  intros f. unfold extra_params, FIELD_TO_PARAMS. simpl.
  destruct (class_eqb (find_field_type f) pw_CharField).
  { simpl. split; [repeat constructor; simpl; tauto|].
    intros k [<-|[]]. unfold extra_keys. simpl. tauto. }
  destruct (class_eqb (find_field_type f) pw_DecimalField).
  { simpl. split.
    - repeat constructor; simpl; intuition discriminate.
    - intros k H. unfold extra_keys. simpl in *. intuition. }
  destruct (class_eqb (find_field_type f) pw_ForeignKeyField).
  { unfold fk_to_params.
    destruct (field_on_delete f), (field_on_update f); simpl; split;
      try (repeat constructor; simpl; intuition discriminate);
      intros k H; unfold extra_keys; simpl in *; intuition. }
  destruct (class_eqb (find_field_type f) pw_DateTimeField).
  { unfold dtf_to_params.
    destruct (isinstance_list (field_formats f)); simpl; split;
      try (repeat constructor; simpl; intuition discriminate);
      intros k H; unfold extra_keys; simpl in *; intuition. }
  simpl. split; [constructor | intros k []].
Qed.

Lemma extra_params_get_other :
  forall f k, ~ In k extra_keys -> dict_get (extra_params f) k = None.
Proof.
  intros f k H. apply dict_get_None. intros Hin. apply H.
  now apply (proj2 (extra_params_keys f)).
Qed.

Lemma field_to_params_eq :
  forall f,
    field_to_params f =
    dict_set
      (if default_compared f then dict_set (extra_params f) "default" (field_default f)
       else extra_params f)
      "index" (index_param f).
Proof.
  intros f. unfold field_to_params. fold (extra_params f). fold (default_compared f).
  fold (index_param f).
  rewrite dict_pop_absent; [reflexivity|].
  rewrite dict_get_set. simpl.
  destruct (default_compared f).
  - rewrite dict_get_set. simpl. apply extra_params_get_other.
    unfold extra_keys. simpl. intuition discriminate.
  - apply extra_params_get_other. unfold extra_keys. simpl. intuition discriminate.
Qed.

Lemma field_to_params_NoDup : forall f, NoDup (dict_keys (field_to_params f)).
Proof.
  intros f. rewrite field_to_params_eq. apply dict_set_NoDup.
  destruct (default_compared f); [apply dict_set_NoDup|]; apply extra_params_keys.
Qed.

Lemma field_to_params_get :
  forall f k,
    dict_get (field_to_params f) k =
    if String.eqb k "index" then Some (index_param f)
    else if String.eqb k "default"
         then (if default_compared f then Some (field_default f) else None)
         else dict_get (extra_params f) k.
Proof.
  intros f k. rewrite field_to_params_eq, dict_get_set.
  destruct (String.eqb k "index"); [reflexivity|].
  destruct (default_compared f).
  - rewrite dict_get_set. reflexivity.
  - destruct (String.eqb k "default") eqn:E; [|reflexivity].
    apply String.eqb_eq in E. subst. apply extra_params_get_other.
    unfold extra_keys. simpl. intuition discriminate.
Qed.

Lemma compared_params_NoDup : forall f, NoDup (dict_keys (compared_params f)).
Proof.
  intros f. apply dict_set_NoDup, field_to_params_NoDup.
Qed.

Lemma compared_params_get :
  forall f k,
    dict_get (compared_params f) k =
    if String.eqb k "null" then Some (PyBool (field_null f))
    else dict_get (field_to_params f) k.
Proof.
  intros f k. unfold compared_params. apply dict_get_set.
Qed.

Lemma item_eqb_key : forall x y, item_eqb x y = true -> fst x = fst y.
Proof.
  intros x y H. unfold item_eqb in H. apply andb_true_iff in H.
  now apply String.eqb_eq.
Qed.

Lemma same_key_same_item :
  forall (p : TParams) x y,
    NoDup (dict_keys p) -> In x p -> In y p -> fst x = fst y -> x = y.
Proof.
  intros p [k v] [k' v'] Hnd Hx Hy Hk. simpl in Hk. subst k'.
  apply dict_get_NoDup in Hx; [|exact Hnd].
  apply dict_get_NoDup in Hy; [|exact Hnd].
  congruence.
Qed.

Lemma distinct_items_NoDup_keys :
  forall (p l : TParams),
    NoDup (dict_keys p) -> incl l p -> distinct item_eqb l -> NoDup (dict_keys l).
Proof.
  intros p l Hnd. induction l as [|x l IH]; simpl; intros Hincl Hd; constructor.
  - destruct Hd as [Hx _]. intros Hin.
    unfold dict_keys in Hin. apply in_map_iff in Hin. destruct Hin as [y [Hk Hy]].
    assert (x = y).
    { apply (same_key_same_item p); auto.
      - apply Hincl. now left.
      - apply Hincl. now right. }
    subst y. unfold set_mem in Hx.
    assert (Ht : existsb (item_eqb x) l = true).
    { apply existsb_exists. exists x. split; [exact Hy | apply item_eqb_refl]. }
    congruence.
  - apply IH; [|apply Hd]. intros y Hy. apply Hincl. now right.
Qed.

Section CompareFacts.

Context {set_order : SetIteration}.

Lemma compare_fields_cls :
  forall f1 f2,
    find_field_type f1 <> find_field_type f2 ->
    compare_fields f1 f2 = Ok [("cls", PyBool true)].
Proof.
  intros f1 f2 H. unfold compare_fields.
  destruct (class_eqb (find_field_type f1) (find_field_type f2)) eqn:E; [|reflexivity].
  apply class_eqb_eq in E. contradiction.
Qed.

Lemma compare_fields_same_type :
  forall f1 f2,
    find_field_type f1 = find_field_type f2 ->
    compare_fields f1 f2 =
    if hashable_params f1 && hashable_params f2
    then Ok (iter_set item_eqb
               (set_sub item_eqb (compared_params f1) (compared_params f2)))
    else Raise TypeError.
Proof.
  intros f1 f2 H. unfold compare_fields. rewrite H, class_eqb_refl. simpl.
  fold (compared_params f1). fold (compared_params f2).
  unfold set_of_items. fold (hashable_params f1). fold (hashable_params f2).
  destruct (hashable_params f1); simpl; [|reflexivity].
  destruct (hashable_params f2); simpl; [|reflexivity].
  f_equal. apply dict_of_pairs_fresh.
  apply (@distinct_items_NoDup_keys (compared_params f1)).
  - apply compared_params_NoDup.
  - intros x Hx. apply iter_set_incl in Hx. unfold set_sub in Hx.
    apply filter_In in Hx. apply Hx.
  - apply iter_set_distinct.
Qed.

(** The result of [compare_fields] on two fields of the same resolved
    type, key by key. *)
Lemma compare_fields_get :
  forall f1 f2 diff,
    find_field_type f1 = find_field_type f2 ->
    compare_fields f1 f2 = Ok diff ->
    NoDup (dict_keys diff)
    /\ forall k, dict_get diff k = diff_at (compared_params f1) (compared_params f2) k.
Proof.
  intros f1 f2 diff Hty Hc. rewrite compare_fields_same_type in Hc by exact Hty.
  destruct (hashable_params f1 && hashable_params f2); [|discriminate].
  injection Hc as <-.
  set (p1 := compared_params f1). set (p2 := compared_params f2).
  set (s := set_sub item_eqb p1 p2).
  assert (Hnd1 : NoDup (dict_keys p1)) by apply compared_params_NoDup.
  assert (Hnd2 : NoDup (dict_keys p2)) by apply compared_params_NoDup.
  assert (Hincl : incl (iter_set item_eqb s) p1).
  { intros x Hx. apply iter_set_incl in Hx. unfold s, set_sub in Hx.
    apply filter_In in Hx. apply Hx. }
  assert (Hnd : NoDup (dict_keys (iter_set item_eqb s))).
  { apply (@distinct_items_NoDup_keys p1); auto. apply iter_set_distinct. }
  split; [exact Hnd|]. intros k. unfold diff_at.
  destruct (dict_get p1 k) as [v|] eqn:E1.
  - assert (Hin1 : In (k, v) p1) by now apply dict_get_In.
    assert (Hmem : set_mem item_eqb (k, v) p2 =
                   match dict_get p2 k with Some v' => py_eqb v v' | None => false end)
      by now apply set_mem_items.
    assert (Hkeep : set_mem item_eqb (k, v) p2 = false -> dict_get (iter_set item_eqb s) k = Some v).
    { intros Hf. apply dict_get_NoDup; [exact Hnd|].
      assert (Hs : In (k, v) s).
      { unfold s, set_sub. apply filter_In. split; [exact Hin1 | now rewrite Hf]. }
      pose proof (iter_set_covers item_eqb s (k, v) item_eqb_refl Hs) as Hc.
      apply existsb_exists in Hc. destruct Hc as [y [Hy Heq]].
      assert (y = (k, v)).
      { apply (same_key_same_item p1); auto. now apply item_eqb_key. }
      now subst y. }
    assert (Hdrop : set_mem item_eqb (k, v) p2 = true -> dict_get (iter_set item_eqb s) k = None).
    { intros Ht. apply dict_get_None. intros Hin.
      unfold dict_keys in Hin. apply in_map_iff in Hin. destruct Hin as [y [Hk Hy]].
      assert (y = (k, v)).
      { apply (same_key_same_item p1); auto. }
      subst y. apply iter_set_incl in Hy. unfold s, set_sub in Hy.
      apply filter_In in Hy. destruct Hy as [_ Hy]. rewrite Ht in Hy. discriminate. }
    rewrite Hmem in Hkeep, Hdrop.
    destruct (dict_get p2 k) as [v'|]; [|now apply Hkeep].
    destruct (py_eqb v v'); [now apply Hdrop | now apply Hkeep].
  - apply dict_get_None. intros Hin. apply dict_get_None in E1. apply E1.
    unfold dict_keys in *. apply in_map_iff in Hin. destruct Hin as [y [Hk Hy]].
    subst k. apply in_map. now apply Hincl.
Qed.

End CompareFacts.

(** ** The loops of [diff_one] *)

Lemma mapM_Forall2 :
  forall (A B : Type) (f : A -> result B) l r,
    mapM f l = Ok r <-> Forall2 (fun a b => f a = Ok b) l r.
Proof.
  induction l as [|a l IH]; simpl; intros r.
  - split; intros H; [injection H as <-; constructor | inversion H; reflexivity].
  - split.
    + intros H. destruct (f a) as [b|] eqn:E; simpl in H; [|discriminate].
      destruct (mapM f l) as [bs|] eqn:E'; simpl in H; [|discriminate].
      injection H as <-. constructor; [exact E | now apply IH].
    + intros H. inversion H as [|? b ? bs Hb Hbs]; subst.
      rewrite Hb. simpl. apply IH in Hbs. rewrite Hbs. reflexivity.
Qed.

Lemma flat_mapM_Forall2 :
  forall (A B : Type) (f : A -> result (list B)) l r,
    flat_mapM f l = Ok r <->
    exists rs, Forall2 (fun a bs => f a = Ok bs) l rs /\ r = List.concat rs.
Proof.
  induction l as [|a l IH]; simpl; intros r.
  - split.
    + intros H. injection H as <-. exists []. split; [constructor | reflexivity].
    + intros [rs [H ->]]. inversion H. reflexivity.
  - split.
    + intros H. destruct (f a) as [bs|] eqn:E; simpl in H; [|discriminate].
      destruct (flat_mapM f l) as [rest|] eqn:E'; simpl in H; [|discriminate].
      injection H as <-. destruct (proj1 (IH rest) eq_refl) as [rs [Hrs ->]].
      exists (bs :: rs). split; [now constructor | reflexivity].
    + intros [rs [H ->]]. inversion H as [|? bs ? rs' Hb Hbs]; subst.
      rewrite Hb. simpl.
      assert (Hl : flat_mapM f l = Ok (List.concat rs')) by (apply IH; eauto).
      rewrite Hl. reflexivity.
Qed.

Section LoopFacts.

Context {set_order : SetIteration}.

Lemma change_step_acc :
  forall fn1 fn2 a b c name,
    change_step fn1 fn2 (a, b, c) name =
    (x <- column_diff fn1 fn2 name ;;
     Ok (a ++ cd_fields x, b ++ cd_nulls x, c ++ cd_indexes x)).
Proof.
  intros fn1 fn2 a b c name. unfold column_diff, change_step.
  destruct (dict_getitem fn1 name) as [f1|]; simpl; [|reflexivity].
  destruct (dict_getitem fn2 name) as [f2|]; simpl; [|reflexivity].
  destruct (compare_fields f1 f2) as [diff|]; simpl; [|reflexivity].
  destruct (dict_pop diff "null") as [r diff'].
  destruct (dict_pop diff' "index") as [r' diff''].
  destruct (is_None (pop_value r')); simpl.
  - destruct (nonempty diff''), (is_None (pop_value r)); simpl;
      unfold cd_fields, cd_nulls, cd_indexes; simpl; now rewrite ?app_nil_r.
  - destruct (py_getitem (pop_value r') 0); simpl; [|reflexivity].
    destruct (py_getitem (pop_value r') 1); simpl; [|reflexivity].
    destruct (nonempty diff''), (is_None (pop_value r)); simpl;
      unfold cd_fields, cd_nulls, cd_indexes; simpl; now rewrite ?app_nil_r.
Qed.

Lemma foldM_change_step :
  forall fn1 fn2 names a b c st,
    foldM (change_step fn1 fn2) names (a, b, c) = Ok st <->
    exists cs,
      Forall2 (fun name x => column_diff fn1 fn2 name = Ok x) names cs
      /\ st = (a ++ flat_map cd_fields cs,
               b ++ flat_map cd_nulls cs,
               c ++ flat_map cd_indexes cs).
Proof.
  intros fn1 fn2. induction names as [|name names IH]; cbn [foldM]; intros a b c st.
  - split.
    + intros H. injection H as <-. exists []. split; [constructor|].
      simpl. now rewrite !app_nil_r.
    + intros [cs [H ->]]. inversion H. simpl. now rewrite !app_nil_r.
  - rewrite change_step_acc. split.
    + intros H. destruct (column_diff fn1 fn2 name) as [x|] eqn:E; simpl in H; [|discriminate].
      apply IH in H. destruct H as [cs [Hcs ->]].
      exists (x :: cs). split; [now constructor|].
      simpl. now rewrite !app_assoc.
    + intros [cs [H ->]]. inversion H as [|? x ? cs' Hx Hcs]; subst.
      rewrite Hx. simpl. apply IH. exists cs'. split; [exact Hcs|].
      simpl. now rewrite !app_assoc.
Qed.

Lemma In_common_names :
  forall m1 m2 name,
    In name (common_names m1 m2) <->
    In name (dict_keys (fields m1)) /\ In name (dict_keys (fields m2)).
Proof.
  intros m1 m2 name. unfold common_names, names_added, names_dropped.
  rewrite iter_set_names_In, !In_set_sub_string.
  destruct (in_dec string_dec name (dict_keys (fields m2))); tauto.
Qed.

(** The anatomy of a result of [diff_one]. *)
Lemma diff_one_calls_inv :
  forall m1 m2 ops,
    diff_one_calls m1 m2 = Ok ops <->
    exists added cs ixs,
      (if nonempty (names_added m1 m2)
       then exists flds,
           mapM (dict_getitem (fields m1)) (iter_set String.eqb (names_added m1 m2)) = Ok flds
           /\ added = [CreateFields m1 flds]
       else added = [])
      /\ Forall2 (fun name x => column_diff (fields m1) (fields m2) name = Ok x)
           (common_names m1 m2) cs
      /\ Forall2 (fun e r => index_step m1 (fields m2) e = Ok r) (flat_map cd_indexes cs) ixs
      /\ hashable_indexes m1 = true /\ hashable_indexes m2 = true
      /\ ops =
         added
         ++ (if nonempty (names_dropped m1 m2)
             then [DropFields m1 (iter_set String.eqb (names_dropped m1 m2))] else [])
         ++ (if nonempty (flat_map cd_fields cs)
             then [ChangeFields m1 (flat_map cd_fields cs)] else [])
         ++ map (fun nn => ChangeNotNull m1 (fst nn) (snd nn)) (flat_map cd_nulls cs)
         ++ List.concat ixs
         ++ compound_drops m1 m2
         ++ compound_adds m1 m2.
Proof.
  intros m1 m2 ops. unfold diff_one_calls.
  fold (names_added m1 m2). fold (names_dropped m1 m2). fold (common_names m1 m2).
  unfold set_of_indexes. fold (hashable_indexes m1). fold (hashable_indexes m2).
  fold (compound_drops m1 m2). fold (compound_adds m1 m2).
  split.
  - intros H.
    destruct (if nonempty (names_added m1 m2) then _ else _) as [added|] eqn:Ea;
      simpl in H; [|discriminate].
    destruct (foldM _ _ _) as [[[fields_ nulls_] indexes_]|] eqn:Ef; simpl in H; [|discriminate].
    apply foldM_change_step in Ef. destruct Ef as [cs [Hcs Hst]].
    simpl in Hst. injection Hst as -> -> ->.
    destruct (flat_mapM _ _) as [column_indexes|] eqn:Ei; simpl in H; [|discriminate].
    apply flat_mapM_Forall2 in Ei. destruct Ei as [ixs [Hixs ->]].
    destruct (hashable_indexes m2) eqn:H2; simpl in H; [|discriminate].
    destruct (hashable_indexes m1) eqn:H1; simpl in H; [|discriminate].
    injection H as <-.
    exists added, cs, ixs. repeat split; auto.
    destruct (nonempty (names_added m1 m2)).
    + destruct (mapM _ _) as [flds|] eqn:Em; simpl in Ea; [|discriminate].
      injection Ea as <-. eauto.
    + now injection Ea as <-.
  - intros [added [cs [ixs [Ha [Hcs [Hixs [H1 [H2 ->]]]]]]]].
    assert (Ea : (if nonempty (names_added m1 m2)
                  then flds <- mapM (dict_getitem (fields m1))
                                 (iter_set String.eqb (names_added m1 m2)) ;;
                       Ok [CreateFields m1 flds]
                  else Ok []) = Ok added).
    { destruct (nonempty (names_added m1 m2)).
      - destruct Ha as [flds [-> ->]]. reflexivity.
      - now subst. }
    rewrite Ea. simpl.
    assert (Ef : foldM (change_step (fields m1) (fields m2)) (common_names m1 m2) ([], [], [])
                 = Ok (flat_map cd_fields cs, flat_map cd_nulls cs, flat_map cd_indexes cs)).
    { apply foldM_change_step. exists cs. split; [exact Hcs | reflexivity]. }
    rewrite Ef. simpl.
    assert (Ei : flat_mapM (index_step m1 (fields m2)) (flat_map cd_indexes cs)
                 = Ok (List.concat ixs)).
    { apply flat_mapM_Forall2. eauto. }
    rewrite Ei. simpl. rewrite H1, H2. simpl. reflexivity.
Qed.

End LoopFacts.

Lemma dict_pop_snd_get :
  forall (V : Type) (d : dict V) k k0,
    k0 <> k -> dict_get (snd (dict_pop d k)) k0 = dict_get d k0.
Proof.
  induction d as [|[k' v'] d IH]; simpl; intros k k0 Hne; [reflexivity|].
  destruct (String.eqb k k') eqn:E; simpl.
  - apply String.eqb_eq in E. subst.
    destruct (String.eqb k0 k') eqn:E'; [|reflexivity].
    apply String.eqb_eq in E'. contradiction.
  - specialize (IH k k0 Hne). destruct (dict_pop d k) as [r d'']. simpl in *.
    now rewrite IH.
Qed.

Section ColumnFacts.

Context {set_order : SetIteration}.

Lemma column_diff_cls :
  forall fn1 fn2 name f1 f2,
    dict_get fn1 name = Some f1 ->
    dict_get fn2 name = Some f2 ->
    find_field_type f1 <> find_field_type f2 ->
    column_diff fn1 fn2 name = Ok ([f1], [], []).
Proof.
  intros fn1 fn2 name f1 f2 H1 H2 Hty.
  unfold column_diff, change_step, dict_getitem. rewrite H1, H2. simpl.
  rewrite compare_fields_cls by exact Hty. reflexivity.
Qed.

Lemma column_diff_same_type :
  forall fn1 fn2 name f1 f2 diff,
    dict_get fn1 name = Some f1 ->
    dict_get fn2 name = Some f2 ->
    find_field_type f1 = find_field_type f2 ->
    compare_fields f1 f2 = Ok diff ->
    column_diff fn1 fn2 name =
    Ok (if nonempty (other_diff diff) then [f1] else [],
        if Bool.eqb (field_null f1) (field_null f2) then []
        else [(name, PyBool (field_null f1))],
        if py_eqb (index_param f1) (index_param f2) then []
        else [(name,
               PyBool (field_index f1 && negb (field_unique f1)),
               PyBool (field_unique f1))]).
Proof.
  intros fn1 fn2 name f1 f2 diff H1 H2 Hty Hc.
  destruct (compare_fields_get f1 f2 Hty Hc) as [Hnd Hget].
  pose proof (field_to_params_get f1 "index") as Hi1.
  pose proof (field_to_params_get f2 "index") as Hi2.
  remember (index_param f1) as ip1 eqn:E1. remember (index_param f2) as ip2 eqn:E2.
  unfold column_diff, change_step, dict_getitem. rewrite H1, H2. simpl.
  rewrite Hc. simpl.
  pose proof (dict_pop_fst diff "null") as Hr.
  destruct (dict_pop diff "null") as [r diff'] eqn:Ep. simpl in Hr.
  pose proof (dict_pop_fst diff' "index") as Hr'.
  assert (Ho : snd (dict_pop diff' "index") = other_diff diff).
  { unfold other_diff. now rewrite Ep. }
  assert (Hg' : dict_get diff' "index" = dict_get diff "index").
  { replace diff' with (snd (dict_pop diff "null")) by now rewrite Ep.
    apply dict_pop_snd_get. discriminate. }
  destruct (dict_pop diff' "index") as [r' diff''] eqn:Ep'. simpl in Hr', Ho. subst diff''.
  rewrite Hget in Hr. rewrite Hg', Hget in Hr'.
  unfold diff_at in Hr, Hr'. rewrite !compared_params_get in Hr, Hr'.
  rewrite Hi1, Hi2 in Hr'.
  simpl in Hr, Hr'. subst r r'.
  destruct (Bool.eqb (field_null f1) (field_null f2)); simpl;
    destruct (py_eqb ip1 ip2); simpl; try reflexivity;
    subst ip1; reflexivity.
Qed.

End ColumnFacts.

(** ** An iteration order: first insertion *)

Lemma insertion_order_incl :
  forall (A : Type) (eqb : A -> A -> bool) (s seen : list A) (x : A),
    In x (insertion_order eqb seen s) -> In x s.
Proof.
  induction s as [|a s IH]; simpl; intros seen x H; [contradiction|].
  destruct (existsb (fun y => eqb y a) seen).
  - right. now apply IH with (seen := seen).
  - destruct H as [H|H]; [now left | right; now apply IH with (seen := seen ++ [a])].
Qed.

Lemma insertion_order_covers :
  forall (A : Type) (eqb : A -> A -> bool) (s seen : list A) (x : A),
    (forall a, eqb a a = true) ->
    In x seen \/ In x s ->
    existsb (fun y => eqb y x) (seen ++ insertion_order eqb seen s) = true.
Proof.
  induction s as [|a s IH]; simpl; intros seen x Hrefl H.
  - destruct H as [H|[]]. rewrite app_nil_r. apply existsb_exists.
    exists x. split; [exact H | apply Hrefl].
  - destruct (existsb (fun y => eqb y a) seen) eqn:E.
    + destruct H as [H|[H|H]].
      * apply IH; auto.
      * subst a. rewrite existsb_app, E. reflexivity.
      * apply IH; auto.
    + replace (seen ++ a :: insertion_order eqb (seen ++ [a]) s)
        with ((seen ++ [a]) ++ insertion_order eqb (seen ++ [a]) s)
        by (rewrite <- app_assoc; reflexivity).
      apply IH; [exact Hrefl|].
      destruct H as [H|[H|H]].
      * left. apply in_or_app. now left.
      * left. apply in_or_app. right. now left.
      * now right.
Qed.

Lemma insertion_order_fresh :
  forall (A : Type) (eqb : A -> A -> bool) (s seen : list A) (x z : A),
    In x (insertion_order eqb seen s) -> In z seen -> eqb z x = false.
Proof.
  induction s as [|a s IH]; simpl; intros seen x z H Hz; [contradiction|].
  destruct (existsb (fun y => eqb y a) seen) eqn:E.
  - now apply IH with (seen := seen).
  - destruct H as [H|H].
    + subst a. destruct (eqb z x) eqn:Ez; [|reflexivity].
      assert (Ht : existsb (fun y => eqb y x) seen = true).
      { apply existsb_exists. now exists z. }
      congruence.
    + apply IH with (seen := seen ++ [a]); [exact H|].
      apply in_or_app. now left.
Qed.

Lemma insertion_order_distinct :
  forall (A : Type) (eqb : A -> A -> bool) (s seen : list A),
    distinct eqb (insertion_order eqb seen s).
Proof.
  induction s as [|a s IH]; simpl; intros seen; [exact I|].
  destruct (existsb (fun y => eqb y a) seen); [apply IH|].
  simpl. split; [|apply IH].
  unfold set_mem.
  destruct (existsb (eqb a) (insertion_order eqb (seen ++ [a]) s)) eqn:E; [|reflexivity].
  apply existsb_exists in E. destruct E as [y [Hy Heq]].
  rewrite (@insertion_order_fresh A eqb s (seen ++ [a]) y a) in Heq; [discriminate | exact Hy |].
  apply in_or_app. right. now left.
Qed.

#[export] Instance insertion_iteration : SetIteration := {
  iter_set := fun A eqb s => insertion_order eqb [] s;
  iter_set_incl := fun A eqb s x => @insertion_order_incl A eqb s [] x;
  iter_set_covers := fun A eqb s x Hrefl Hin =>
    @insertion_order_covers A eqb s [] x Hrefl (or_intror Hin);
  iter_set_distinct := fun A eqb s => @insertion_order_distinct A eqb s []
}.

(** ** A sorter of models *)

Lemma name_mem_In : forall t l, name_mem t l = true <-> In t l.
Proof.
  intros t l. apply set_mem_string.
Qed.

Lemma names_distinct_NoDup : forall l, names_distinct l = true -> NoDup l.
Proof.
  induction l as [|x l IH]; simpl; intros H; constructor.
  - apply andb_true_iff in H. destruct H as [H _].
    apply negb_true_iff in H. intros Hin. apply name_mem_In in Hin. congruence.
  - apply IH. apply andb_true_iff in H. apply H.
Qed.

Lemma NoDup_map_inj :
  forall (A B : Type) (f : A -> B) (l : list A) x y,
    NoDup (map f l) -> In x l -> In y l -> f x = f y -> x = y.
Proof.
  induction l as [|a l IH]; simpl; intros x y Hnd Hx Hy Hf; [contradiction|].
  inversion Hnd as [|? ? Hnotin Hnd']; subst.
  destruct Hx as [Hx|Hx], Hy as [Hy|Hy]; subst.
  - reflexivity.
  - exfalso. apply Hnotin. rewrite Hf. now apply in_map.
  - exfalso. apply Hnotin. rewrite <- Hf. now apply in_map.
  - now apply IH.
Qed.

Lemma NoDup_map_NoDup :
  forall (A B : Type) (f : A -> B) (l : list A), NoDup (map f l) -> NoDup l.
Proof.
  induction l as [|a l IH]; simpl; intros H; constructor.
  - inversion H; subst. intros Hin. apply in_map with (f := f) in Hin. contradiction.
  - inversion H; subst. now apply IH.
Qed.

Lemma pick_In :
  forall all placed remaining m rest,
    pick all placed remaining = Some (m, rest) ->
    In m remaining /\ incl rest remaining.
Proof.
  induction remaining as [|a remaining IH]; simpl; intros m rest H; [discriminate|].
  destruct (ready all placed a).
  - injection H as -> ->. split; [now left | intros x Hx; now right].
  - destruct (pick all placed remaining) as [[m' rest']|] eqn:E; [|discriminate].
    injection H as Hm Hr. subst m rest. destruct (IH m' rest' eq_refl) as [H1 H2].
    split; [now right|]. intros x [Hx|Hx]; [now left | right; now apply H2].
Qed.

Lemma place_incl :
  forall fuel all placed remaining, incl (place fuel all placed remaining) remaining.
Proof.
  induction fuel as [|fuel IH]; simpl; intros all placed remaining x Hx; [contradiction|].
  destruct (pick all placed remaining) as [[m rest]|] eqn:E; [|contradiction].
  apply pick_In in E. destruct E as [H1 H2].
  destruct Hx as [Hx|Hx]; [now subst|].
  apply H2. now apply IH in Hx.
Qed.

Lemma In_fk_targets :
  forall m1 m2, references m1 m2 -> In (table_name m2) (fk_targets m1).
Proof.
  intros m1 m2 [name [f [Hin Hrel]]]. unfold fk_targets.
  apply in_flat_map. exists (name, f). split; [exact Hin|].
  simpl. rewrite Hrel. now left.
Qed.

(** In a list that passes [topo_ok], a model stands after the tables it
    refers to. *)
Lemma topo_ok_sound :
  forall all l placed a m b t,
    topo_ok all placed l = true ->
    l = a ++ m :: b ->
    In t (fk_targets m) -> t <> table_name m -> In t all ->
    In t placed \/ In t (map table_name a).
Proof.
  intros all. induction l as [|x l IH]; intros placed a m b t Hok Hl Ht Hne Hall.
  - destruct a; discriminate.
  - simpl in Hok. apply andb_true_iff in Hok. destruct Hok as [Hr Hok].
    destruct a as [|a0 a]; simpl in Hl; injection Hl as -> ->.
    + left. unfold ready in Hr. rewrite forallb_forall in Hr.
      specialize (Hr t Ht). apply orb_true_iff in Hr. destruct Hr as [Hr|Hr].
      * apply orb_true_iff in Hr. destruct Hr as [Hr|Hr].
        -- apply String.eqb_eq in Hr. contradiction.
        -- apply negb_true_iff in Hr. apply name_mem_In in Hall. congruence.
      * now apply name_mem_In.
    + destruct (IH (table_name a0 :: placed) a m b t Hok eq_refl Ht Hne Hall) as [H|H].
      * destruct H as [H|H]; [right; now left | now left].
      * right. now right.
Qed.

Lemma sort_by_references_spec :
  forall models sorted,
    sort_by_references models = Ok sorted ->
    NoDup (map table_name sorted)
    /\ (forall m, In m sorted <-> In m models)
    /\ topo_ok (map table_name models) [] sorted = true.
Proof.
  intros models sorted H. unfold sort_by_references in H.
  set (cand := place (List.length models) (map table_name models) [] models) in *.
  destruct (names_distinct (map table_name models)) eqn:E1; simpl in H; [|discriminate].
  destruct (Nat.eqb (List.length cand) (List.length models)) eqn:E2; simpl in H; [|discriminate].
  destruct (names_distinct (map table_name cand)) eqn:E3; simpl in H; [|discriminate].
  destruct (topo_ok (map table_name models) [] cand) eqn:E4; [|discriminate].
  injection H as <-.
  apply names_distinct_NoDup in E1, E3. apply Nat.eqb_eq in E2.
  assert (Hincl : incl cand models) by apply place_incl.
  split; [exact E3|]. split; [|exact E4].
  intros m. split; [apply Hincl|].
  apply NoDup_length_incl; [now apply NoDup_map_NoDup in E3 | lia | exact Hincl].
Qed.

Lemma sort_by_references_order :
  forall models sorted,
    sort_by_references models = Ok sorted ->
    forall m1 m2, In m1 models -> In m2 models -> references m1 m2 ->
      table_name m1 <> table_name m2 -> all_before m2 m1 sorted.
Proof.
  intros models sorted H m1 m2 H1 H2 Href Hne.
  destruct (sort_by_references_spec models H) as [Hnd [Hin Hok]].
  assert (Hnd' : NoDup sorted) by now apply NoDup_map_NoDup in Hnd.
  apply Hin in H1, H2.
  destruct (in_split m1 sorted H1) as [a [b Hsplit]].
  assert (Ha : In (table_name m2) (map table_name a)).
  { destruct (@topo_ok_sound (map table_name models) sorted [] a m1 b (table_name m2)
                Hok Hsplit) as [[]|Ha]; auto.
    - now apply In_fk_targets.
    - apply in_map. now apply Hin. }
  apply in_map_iff in Ha. destruct Ha as [m' [Hname Hm']].
  assert (m' = m2).
  { apply (@NoDup_map_inj _ _ table_name sorted); auto.
    subst sorted. apply in_or_app. now left. }
  subst m'. exists a, (m1 :: b). subst sorted.
  split; [reflexivity|]. split; [exact Hm'|].
  destruct (NoDup_remove a b m1 Hnd') as [Hab Hm1].
  split; [intros Hx; apply Hm1; apply in_or_app; now left|].
  split; [now left|].
  intros [Hx|Hx]; [now subst|].
  clear - Hab Hm' Hx. induction a as [|x a IH]; [contradiction|].
  simpl in Hab. inversion Hab; subst. destruct Hm' as [->|Hm'].
  - apply H1. apply in_or_app. now right.
  - now apply IH.
Qed.

#[export] Instance reference_sorter : SortModels := {
  sort_models := sort_by_references;
  sort_models_NoDup := fun models sorted H =>
    NoDup_map_NoDup table_name sorted (proj1 (sort_by_references_spec models H));
  sort_models_In := fun models sorted H =>
    proj1 (proj2 (sort_by_references_spec models H));
  sort_models_order := sort_by_references_order
}.

(** ** Reading a result of [diff_one] column by column *)

Lemma Forall2_In_l :
  forall (A B : Type) (R : A -> B -> Prop) l l' a,
    Forall2 R l l' -> In a l -> exists b, In b l' /\ R a b.
Proof.
  intros A B R l l' a H. induction H as [|x y l l' Hxy _ IH]; intros Hin; [contradiction|].
  destruct Hin as [->|Hin].
  - exists y. split; [now left | exact Hxy].
  - destruct (IH Hin) as [b [Hb HR]]. exists b. split; [now right | exact HR].
Qed.

Lemma Forall2_In_r :
  forall (A B : Type) (R : A -> B -> Prop) l l' b,
    Forall2 R l l' -> In b l' -> exists a, In a l /\ R a b.
Proof.
  intros A B R l l' b H. induction H as [|x y l l' Hxy _ IH]; intros Hin; [contradiction|].
  destruct Hin as [->|Hin].
  - exists x. split; [now left | exact Hxy].
  - destruct (IH Hin) as [a [Ha HR]]. exists a. split; [now right | exact HR].
Qed.

Lemma filter_none :
  forall (A : Type) (p : A -> bool) (l : list A),
    (forall x, In x l -> p x = false) -> filter p l = [].
Proof.
  induction l as [|a l IH]; simpl; intros H; [reflexivity|].
  rewrite (H a) by now left. apply IH. intros x Hx. apply H. now right.
Qed.

Lemma filter_all :
  forall (A : Type) (p : A -> bool) (l : list A),
    (forall x, In x l -> p x = true) -> filter p l = l.
Proof.
  induction l as [|a l IH]; simpl; intros H; [reflexivity|].
  rewrite (H a) by now left. f_equal. apply IH. intros x Hx. apply H. now right.
Qed.

Section ColumnViews.

Context {set_order : SetIteration}.

(** What a column puts into the lists carries the column's name, and the
    field it puts into [fields_] is the column's field in the first model. *)
Lemma column_diff_names :
  forall fn1 fn2 name x,
    column_diff fn1 fn2 name = Ok x ->
    (forall f, In f (cd_fields x) -> dict_get fn1 name = Some f)
    /\ (forall n v, In (n, v) (cd_nulls x) -> n = name)
    /\ (forall n i u, In (n, i, u) (cd_indexes x) -> n = name).
Proof.
  intros fn1 fn2 name x H. unfold column_diff, change_step, dict_getitem in H.
  destruct (dict_get fn1 name) as [f1|] eqn:E1; simpl in H; [|discriminate].
  destruct (dict_get fn2 name) as [f2|] eqn:E2; simpl in H; [|discriminate].
  destruct (compare_fields f1 f2) as [diff|]; simpl in H; [|discriminate].
  destruct (dict_pop diff "null") as [r diff'].
  destruct (dict_pop diff' "index") as [r' diff''].
  assert (Hf : forall f, In f (if nonempty diff'' then [] ++ [f1] else []) -> Some f1 = Some f).
  { intros f Hin. destruct (nonempty diff''); simpl in Hin; [|contradiction].
    destruct Hin as [->|[]]. reflexivity. }
  assert (Hn : forall n v,
             In (n, v) (if negb (is_None (pop_value r)) then [] ++ [(name, pop_value r)] else [])
             -> n = name).
  { intros n v Hin. destruct (negb (is_None (pop_value r))); simpl in Hin; [|contradiction].
    destruct Hin as [Hin|[]]. congruence. }
  destruct (negb (is_None (pop_value r'))); simpl in H.
  - destruct (py_getitem (pop_value r') 0) as [i0|]; simpl in H; [|discriminate].
    destruct (py_getitem (pop_value r') 1) as [i1|]; simpl in H; [|discriminate].
    injection H as <-. unfold cd_fields, cd_nulls, cd_indexes. simpl.
    split; [exact Hf|]. split; [exact Hn|].
    intros n i u [Hin|[]]. congruence.
  - injection H as <-. unfold cd_fields, cd_nulls, cd_indexes. simpl.
    split; [exact Hf|]. split; [exact Hn|]. intros n i u [].
Qed.

Lemma index_step_names :
  forall m1 fn2 n i u r c,
    index_step m1 fn2 (n, i, u) = Ok r -> In c r ->
    is_index_of n c = true /\ forall name, name <> n -> is_index_of name c = false.
Proof.
  intros m1 fn2 n i u r c H Hin. unfold index_step in H.
  assert (Hd : is_index_of n (DropIndex m1 (PyStr n)) = true
               /\ forall name, name <> n -> is_index_of name (DropIndex m1 (PyStr n)) = false).
  { simpl. split; [apply String.eqb_refl|].
    intros name Hne. apply String.eqb_neq. congruence. }
  assert (Ha : is_index_of n (AddIndex m1 (PyStr n) u) = true
               /\ forall name, name <> n -> is_index_of name (AddIndex m1 (PyStr n) u) = false).
  { simpl. split; [apply String.eqb_refl|].
    intros name Hne. apply String.eqb_neq. congruence. }
  destruct (is_True i || is_True u).
  - destruct (dict_getitem fn2 n) as [f2|]; simpl in H; [|discriminate].
    injection H as <-.
    destruct (field_unique f2 || field_index f2); simpl in Hin.
    + destruct Hin as [<-|[<-|[]]]; assumption.
    + destruct Hin as [<-|[]]; assumption.
  - injection H as <-. destruct Hin as [<-|[]]. assumption.
Qed.

Lemma compound_drops_not_column :
  forall m1 m2 name c, In c (compound_drops m1 m2) -> is_index_of name c = false.
Proof.
  intros m1 m2 name c H. unfold compound_drops in H.
  apply in_flat_map in H. destruct H as [[cols u] [_ H]].
  unfold is_compound in H. simpl in H.
  destruct cols; try contradiction;
    destruct (Nat.ltb 1 (List.length items)); try contradiction;
    destruct H as [<-|[]]; reflexivity.
Qed.

Lemma compound_adds_not_column :
  forall m1 m2 name c, In c (compound_adds m1 m2) -> is_index_of name c = false.
Proof.
  intros m1 m2 name c H. unfold compound_adds in H.
  apply in_flat_map in H. destruct H as [[cols u] [_ H]].
  unfold is_compound in H. simpl in H.
  destruct cols; try contradiction;
    destruct (Nat.ltb 1 (List.length items)); try contradiction;
    destruct H as [<-|[]]; reflexivity.
Qed.

End ColumnViews.

Section ColumnOfResult.

Context {set_order : SetIteration}.

(** The entries a column contributes to one of the lists of the loop are
    those of the list that carry its name. *)
Lemma column_entries :
  forall (E : Type) (proj : loop_state -> list E) (ename : E -> string) fn1 fn2,
    (forall n y e, column_diff fn1 fn2 n = Ok y -> In e (proj y) -> ename e = n) ->
    forall names cs name x,
      Forall2 (fun n y => column_diff fn1 fn2 n = Ok y) names cs ->
      NoDup names -> In name names ->
      column_diff fn1 fn2 name = Ok x ->
      filter (fun e => String.eqb (ename e) name) (flat_map proj cs) = proj x.
Proof.
  intros E proj ename fn1 fn2 Hname names cs name x HF.
  induction HF as [|n y names cs Hny HF IH]; intros Hnd Hin Hx; [contradiction|].
  inversion Hnd as [|? ? Hnotin Hnd']; subst.
  simpl. rewrite filter_app.
  destruct (string_dec n name) as [->|Hne].
  - assert (y = x) by congruence. subst y.
    rewrite filter_all.
    + rewrite filter_none; [now rewrite app_nil_r|].
      intros e He. apply in_flat_map in He. destruct He as [y' [Hy' He]].
      destruct (Forall2_In_r _ HF Hy') as [n' [Hn' Hc]].
      apply String.eqb_neq. rewrite (Hname n' y' e Hc He). congruence.
    + intros e He. apply String.eqb_eq. now apply (Hname name x).
  - rewrite filter_none.
    + simpl. apply IH; auto. destruct Hin as [Hin|Hin]; [contradiction | exact Hin].
    + intros e He. apply String.eqb_neq. rewrite (Hname n y e Hny He). exact Hne.
Qed.

Lemma index_steps_of_column :
  forall m1 fn2 name entries ixs,
    Forall2 (fun e r => index_step m1 fn2 e = Ok r) entries ixs ->
    flat_mapM (index_step m1 fn2)
      (filter (fun e => String.eqb (fst (fst e)) name) entries)
    = Ok (filter (is_index_of name) (List.concat ixs)).
Proof.
  intros m1 fn2 name entries ixs HF.
  induction HF as [|[[n i] u] r entries ixs Hr HF IH]; [reflexivity|].
  cbn [List.concat]. rewrite filter_app. cbn [filter fst].
  destruct (String.eqb n name) eqn:E.
  - apply String.eqb_eq in E. subst n. cbn [flat_mapM]. rewrite Hr. cbn [bind].
    rewrite IH. cbn [bind].
    rewrite (@filter_all _ (is_index_of name) r); [reflexivity|].
    intros c Hc. now apply (index_step_names _ _ _ _ _ _ Hr Hc).
  - apply String.eqb_neq in E. rewrite IH.
    rewrite (@filter_none _ (is_index_of name) r); [reflexivity|].
    intros c Hc. apply (index_step_names _ _ _ _ _ _ Hr Hc). congruence.
Qed.

Lemma dict_get_common :
  forall m1 m2 name f1 f2,
    dict_get (fields m1) name = Some f1 ->
    dict_get (fields m2) name = Some f2 ->
    In name (common_names m1 m2).
Proof.
  intros m1 m2 name f1 f2 H1 H2. apply In_common_names.
  apply dict_get_In in H1, H2.
  split; [apply in_map with (f := fst) in H1 | apply in_map with (f := fst) in H2]; assumption.
Qed.

Lemma common_names_NoDup : forall m1 m2, NoDup (common_names m1 m2).
Proof.
  intros m1 m2. apply iter_set_names_NoDup.
Qed.

(** A column of both tables in a result of [diff_one]: its calls to
    [change_not_null] and its index calls are those its turn of the loop
    asked for, and its field is in the [change_fields] batch when its turn
    put it there. *)
Lemma diff_one_calls_column :
  forall m1 m2 ops name f1 f2,
    diff_one_calls m1 m2 = Ok ops ->
    dict_get (fields m1) name = Some f1 ->
    dict_get (fields m2) name = Some f2 ->
    exists x,
      column_diff (fields m1) (fields m2) name = Ok x
      /\ not_null_calls name ops
         = map (fun nn => ChangeNotNull m1 (fst nn) (snd nn)) (cd_nulls x)
      /\ flat_mapM (index_step m1 (fields m2)) (cd_indexes x) = Ok (index_calls name ops)
      /\ (cd_fields x <> [] ->
          exists flds, In (ChangeFields m1 flds) ops /\ incl (cd_fields x) flds).
Proof.
  intros m1 m2 ops name f1 f2 H H1 H2.
  apply diff_one_calls_inv in H.
  destruct H as [added [cs [ixs [Ha [Hcs [Hixs [_ [_ ->]]]]]]]].
  pose proof (dict_get_common m1 m2 name H1 H2) as Hin.
  destruct (Forall2_In_l _ Hcs Hin) as [x [Hx Hcx]].
  exists x. split; [exact Hcx|].
  assert (Hadded : forall p : change -> bool,
             (forall flds, p (CreateFields m1 flds) = false) -> filter p added = []).
  { intros p Hp. destruct (nonempty (names_added m1 m2)).
    - destruct Ha as [flds [_ ->]]. simpl. now rewrite Hp.
    - now subst. }
  assert (Hdropped : forall p : change -> bool,
             (forall names, p (DropFields m1 names) = false) ->
             filter p (if nonempty (names_dropped m1 m2)
                       then [DropFields m1 (iter_set String.eqb (names_dropped m1 m2))]
                       else []) = []).
  { intros p Hp. destruct (nonempty (names_dropped m1 m2)); [|reflexivity].
    simpl. now rewrite Hp. }
  assert (Hchanged : forall p : change -> bool,
             (forall flds, p (ChangeFields m1 flds) = false) ->
             filter p (if nonempty (flat_map cd_fields cs)
                       then [ChangeFields m1 (flat_map cd_fields cs)] else []) = []).
  { intros p Hp. destruct (nonempty (flat_map cd_fields cs)); [|reflexivity].
    simpl. now rewrite Hp. }
  split; [|split].
  - unfold not_null_calls. rewrite !filter_app.
    rewrite Hadded, Hdropped, Hchanged by reflexivity. simpl.
    rewrite (@filter_none _ _ (List.concat ixs)).
    2:{ intros c Hc. apply in_concat in Hc. destruct Hc as [r [Hr Hc]].
        destruct (Forall2_In_r _ Hixs Hr) as [[[n i] u] [_ Hstep]].
        pose proof (index_step_names _ _ _ _ _ _ Hstep Hc) as [Hi _].
        destruct c; try discriminate; reflexivity. }
    rewrite (@filter_none _ _ (compound_drops m1 m2)).
    2:{ intros c Hc. unfold compound_drops in Hc. apply in_flat_map in Hc.
        destruct Hc as [i [_ Hc]]. destruct (is_compound i); [|contradiction].
        destruct Hc as [<-|[]]. reflexivity. }
    rewrite (@filter_none _ _ (compound_adds m1 m2)).
    2:{ intros c Hc. unfold compound_adds in Hc. apply in_flat_map in Hc.
        destruct Hc as [i [_ Hc]]. destruct (is_compound i); [|contradiction].
        destruct Hc as [<-|[]]. reflexivity. }
    rewrite !app_nil_r.
    rewrite <- (@column_entries _ cd_nulls fst (fields m1) (fields m2))
      with (names := common_names m1 m2) (cs := cs) (name := name) (x := x);
      auto using common_names_NoDup.
    + generalize (flat_map cd_nulls cs). intros l.
      induction l as [|[n v] l IH]; simpl; [reflexivity|].
      destruct (String.eqb n name); simpl; now rewrite IH.
    + intros n y [n' v] Hy He. simpl.
      now apply (proj1 (proj2 (column_diff_names _ _ _ Hy)) n' v).
  - unfold index_calls. rewrite !filter_app.
    rewrite Hadded, Hdropped, Hchanged by reflexivity. simpl.
    rewrite (@filter_none _ _ (map _ _)).
    2:{ intros c Hc. apply in_map_iff in Hc. destruct Hc as [nn [<- _]]. reflexivity. }
    rewrite (@filter_none _ _ (compound_drops m1 m2))
      by (intros c Hc; now apply compound_drops_not_column with (m1 := m1) (m2 := m2)).
    rewrite (@filter_none _ _ (compound_adds m1 m2))
      by (intros c Hc; now apply compound_adds_not_column with (m1 := m1) (m2 := m2)).
    rewrite !app_nil_r. simpl.
    rewrite <- (@index_steps_of_column m1 (fields m2) name _ _ Hixs).
    f_equal. symmetry.
    apply (@column_entries _ cd_indexes (fun e => fst (fst e)) (fields m1) (fields m2))
      with (names := common_names m1 m2); auto using common_names_NoDup.
    intros n y [[n' i] u] Hy He. simpl.
    now apply (proj2 (proj2 (column_diff_names _ _ _ Hy)) n' i u).
  - intros Hne. exists (flat_map cd_fields cs). split.
    + assert (Hn : nonempty (flat_map cd_fields cs) = true).
      { destruct (cd_fields x) as [|f fs] eqn:E; [contradiction|].
        assert (Hf : In f (flat_map cd_fields cs)).
        { apply in_flat_map. exists x. split; [exact Hx | rewrite E; now left]. }
        destruct (flat_map cd_fields cs); [contradiction | reflexivity]. }
      rewrite Hn. apply in_or_app. right. apply in_or_app. right.
      apply in_or_app. left. now left.
    + intros f Hf. apply in_flat_map. exists x. split; assumption.
Qed.

(** Every field of a [change_fields] batch was put there by the turn of
    its column. *)
Lemma diff_one_calls_changed :
  forall m1 m2 ops m flds f,
    diff_one_calls m1 m2 = Ok ops ->
    In (ChangeFields m flds) ops -> In f flds ->
    exists name x,
      In name (common_names m1 m2)
      /\ column_diff (fields m1) (fields m2) name = Ok x
      /\ In f (cd_fields x).
Proof.
  intros m1 m2 ops m flds f H Hin Hf.
  apply diff_one_calls_inv in H.
  destruct H as [added [cs [ixs [Ha [Hcs [Hixs [_ [_ ->]]]]]]]].
  assert (Hflds : flds = flat_map cd_fields cs).
  { repeat (apply in_app_or in Hin; destruct Hin as [Hin|Hin]).
    - destruct (nonempty (names_added m1 m2)).
      + destruct Ha as [? [_ ->]]. destruct Hin as [Hin|[]]. discriminate.
      + subst. contradiction.
    - destruct (nonempty (names_dropped m1 m2)); [|contradiction].
      destruct Hin as [Hin|[]]. discriminate.
    - destruct (nonempty (flat_map cd_fields cs)); [|contradiction].
      destruct Hin as [Hin|[]]. now injection Hin.
    - apply in_map_iff in Hin. destruct Hin as [? [Hin _]]. discriminate.
    - apply in_concat in Hin. destruct Hin as [r [Hr Hc]].
      destruct (Forall2_In_r _ Hixs Hr) as [[[n i] u] [_ Hstep]].
      pose proof (index_step_names _ _ _ _ _ _ Hstep Hc) as [Hi _]. discriminate.
    - pose proof (compound_drops_not_column m1 m2 "" _ Hin) as Hc.
      unfold compound_drops in Hin. apply in_flat_map in Hin.
      destruct Hin as [i [_ Hin]]. destruct (is_compound i); [|contradiction].
      destruct Hin as [Hin|[]]. discriminate.
    - unfold compound_adds in Hin. apply in_flat_map in Hin.
      destruct Hin as [i [_ Hin]]. destruct (is_compound i); [|contradiction].
      destruct Hin as [Hin|[]]. discriminate. }
  subst flds. apply in_flat_map in Hf. destruct Hf as [x [Hx Hf]].
  destruct (Forall2_In_r _ Hcs Hx) as [name [Hname Hc]].
  exists name, x. auto.
Qed.

End ColumnOfResult.

(** * The claims *)

(** ** Canonical type resolution *)

(** The loop of [find_field_type]: the first class of the method
    resolution order that comes from a recognised module. *)
Lemma find_field_type_first_recognised :
  forall field,
    find_field_type field =
    match find in_PW_MODULES (mro field) with
    | Some cls => cls
    | None => field_class field
    end
    /\ in_PW_MODULES (find_field_type field) = existsb in_PW_MODULES (mro field).
Proof.
  intros field. unfold find_field_type, mro. simpl.
  destruct (in_PW_MODULES (field_class field)) eqn:E; simpl.
  - split; [reflexivity | exact E].
  - split; [reflexivity|].
    destruct (find in_PW_MODULES (field_bases field)) as [cls|] eqn:Ef.
    + apply find_some in Ef. destruct Ef as [Hin Hcls]. rewrite Hcls.
      symmetry. apply existsb_exists. exists cls. split; assumption.
    + rewrite E. symmetry.
      destruct (existsb in_PW_MODULES (field_bases field)) eqn:Ee; [|reflexivity].
      apply existsb_exists in Ee. destruct Ee as [cls [Hin Hcls]].
      rewrite (find_none _ _ Ef cls Hin) in Hcls. discriminate.
Qed.

(** C4: canonical type resolution is total over the fields of a model,
    and nothing is raised.  For every field that is an instance of
    [pw.Field], [find_field_type] returns a class of a recognised module:
    the first such class of the method resolution order of the field.  It
    does not fall back to a class that is not recognised. *)
Theorem find_field_type_recognised :
  forall field,
    is_pw_field field = true ->
    in_PW_MODULES (find_field_type field) = true
    /\ find in_PW_MODULES (mro field) = Some (find_field_type field)
    /\ In (find_field_type field) (mro field).
Proof.
  intros field H.
  assert (He : existsb in_PW_MODULES (mro field) = true).
  { unfold is_pw_field in H. apply existsb_exists in H.
    destruct H as [c [Hin Hc]]. apply class_eqb_eq in Hc. subst c.
    apply existsb_exists. exists pw_Field. split; [exact Hin | reflexivity]. }
  destruct (find_field_type_first_recognised field) as [Hf Hr].
  rewrite He in Hr. split; [exact Hr|].
  destruct (find in_PW_MODULES (mro field)) as [cls|] eqn:Ef.
  - rewrite Hf. split; [reflexivity|]. now apply find_some in Ef.
  - exfalso. apply existsb_exists in He. destruct He as [c [Hin Hc]].
    rewrite (find_none _ _ Ef c Hin) in Hc. discriminate.
Qed.

(** A class of an application that derives from [pw.CharField] resolves to
    it. *)
Lemma find_field_type_recognised_witness :
  in_PW_MODULES (find_field_type contact_column) = true
  /\ find in_PW_MODULES (mro contact_column) = Some pw_CharField
  /\ In pw_CharField (mro contact_column).
Proof.
  apply (find_field_type_recognised contact_column). reflexivity.
Defined.

Lemma find_field_type_ancestor : find_field_type contact_column = pw_CharField.
Proof.
  reflexivity.
Qed.

(** ** Columns whose canonical type changed *)

Lemma class_eqb_false : forall c1 c2, class_eqb c1 c2 = false -> c1 <> c2.
Proof.
  intros c1 c2 H Heq. subst. rewrite class_eqb_refl in H. discriminate.
Qed.

Section TypeChange.

Context {set_order : SetIteration}.

(** The column of a result whose type changed: in the batch and nowhere
    else. *)
Lemma type_change_column :
  forall m1 m2 name f1 f2 ops,
    dict_get (fields m1) name = Some f1 ->
    dict_get (fields m2) name = Some f2 ->
    class_eqb (find_field_type f1) (find_field_type f2) = false ->
    diff_one_calls m1 m2 = Ok ops ->
    not_null_calls name ops = []
    /\ index_calls name ops = []
    /\ exists flds, In (ChangeFields m1 flds) ops /\ In f1 flds.
Proof.
  intros m1 m2 name f1 f2 ops H1 H2 Hty H.
  apply class_eqb_false in Hty.
  destruct (diff_one_calls_column _ _ _ H H1 H2) as [x [Hx [Hn [Hi Hf]]]].
  rewrite (column_diff_cls _ _ _ H1 H2 Hty) in Hx. injection Hx as <-.
  unfold cd_fields, cd_nulls, cd_indexes in *. simpl in *.
  split; [exact Hn|]. split; [now injection Hi|].
  destruct Hf as [flds [Hin Hincl]]; [discriminate|].
  exists flds. split; [exact Hin | apply Hincl; now left].
Qed.

(** C6: when the resolved types of the two versions of a column differ,
    [compare_fields] returns the non-empty difference [{"cls": True}],
    whatever the other attributes are, and the new field is in the
    [change_fields] batch of the result of [diff_one]. *)
Theorem type_mismatch_forces_change_fields :
  forall m1 m2 name f1 f2 ops,
    dict_get (fields m1) name = Some f1 ->
    dict_get (fields m2) name = Some f2 ->
    class_eqb (find_field_type f1) (find_field_type f2) = false ->
    diff_one_calls m1 m2 = Ok ops ->
    compare_fields f1 f2 = Ok [("cls", PyBool true)]
    /\ exists flds, In (ChangeFields m1 flds) ops /\ In f1 flds.
Proof.
  intros m1 m2 name f1 f2 ops H1 H2 Hty H. split.
  - apply compare_fields_cls. now apply class_eqb_false.
  - now apply (type_change_column m1 m2 name H1 H2 Hty H).
Qed.

(** C9: when the resolved types differ, [compare_fields] returns only the
    marker [cls]; the result of [diff_one] then has no [change_not_null]
    call and no index call for the column, even if its null, index or
    unique flag changed too: the column is in the [change_fields] batch
    only. *)
Theorem type_mismatch_hides_null_and_index :
  forall m1 m2 name f1 f2 ops,
    dict_get (fields m1) name = Some f1 ->
    dict_get (fields m2) name = Some f2 ->
    class_eqb (find_field_type f1) (find_field_type f2) = false ->
    diff_one_calls m1 m2 = Ok ops ->
    compare_fields f1 f2 = Ok [("cls", PyBool true)]
    /\ not_null_calls name ops = []
    /\ index_calls name ops = []
    /\ exists flds, In (ChangeFields m1 flds) ops /\ In f1 flds.
Proof.
  intros m1 m2 name f1 f2 ops H1 H2 Hty H. split.
  - apply compare_fields_cls. now apply class_eqb_false.
  - now apply (type_change_column m1 m2 name H1 H2 Hty H).
Qed.

End TypeChange.

(** Scenario B: [age] goes from a 32-bit to a 64-bit integer, nothing else
    changes, and the result is one [change_fields] call with the column. *)
Lemma type_mismatch_forces_change_fields_witness :
  compare_fields age_big age_int = Ok [("cls", PyBool true)]
  /\ exists flds,
      In (ChangeFields people_new flds) [ChangeFields people_new [age_big]]
      /\ In age_big flds.
Proof.
  apply (@type_mismatch_forces_change_fields insertion_iteration
           people_new people_old "age" age_big age_int);
    reflexivity.
Defined.

(** The type of [age] changes and the column becomes nullable and indexed:
    still one [change_fields] call and nothing else. *)
Lemma type_mismatch_hides_null_and_index_witness :
  compare_fields age_big_nullable_indexed age_int = Ok [("cls", PyBool true)]
  /\ not_null_calls "age" [ChangeFields people_newer [age_big_nullable_indexed]] = []
  /\ index_calls "age" [ChangeFields people_newer [age_big_nullable_indexed]] = []
  /\ exists flds,
      In (ChangeFields people_newer flds) [ChangeFields people_newer [age_big_nullable_indexed]]
      /\ In age_big_nullable_indexed flds.
Proof.
  apply (@type_mismatch_hides_null_and_index insertion_iteration
           people_newer people_old "age" age_big_nullable_indexed age_int);
    reflexivity.
Defined.

(** ** Columns whose canonical type is the same *)

Lemma keyed_by_name_get :
  forall m n f, keyed_by_name m = true -> dict_get (fields m) n = Some f -> field_name f = n.
Proof.
  intros m n f Hk Hg. unfold keyed_by_name in Hk. rewrite forallb_forall in Hk.
  apply dict_get_In in Hg. specialize (Hk _ Hg). simpl in Hk.
  now apply String.eqb_eq.
Qed.

Lemma dict_all_None :
  forall (V : Type) (d : dict V), (forall k, dict_get d k = None) -> d = [].
Proof.
  intros V [|[k v] d] H; [reflexivity|].
  specialize (H k). simpl in H. rewrite String.eqb_refl in H. discriminate.
Qed.

Section SameType.

Context {set_order : SetIteration}.

Lemma column_diff_compare :
  forall fn1 fn2 name f1 f2 x,
    dict_get fn1 name = Some f1 ->
    dict_get fn2 name = Some f2 ->
    column_diff fn1 fn2 name = Ok x ->
    exists diff, compare_fields f1 f2 = Ok diff.
Proof.
  intros fn1 fn2 name f1 f2 x H1 H2 H.
  unfold column_diff, change_step, dict_getitem in H. rewrite H1, H2 in H. simpl in H.
  destruct (compare_fields f1 f2) as [diff|]; [eauto | discriminate].
Qed.

(** Nothing is left of the difference when the old column has every
    parameter of the new one, with an equal value. *)
Lemma compare_fields_subsumed :
  forall f1 f2 diff,
    class_eqb (find_field_type f1) (find_field_type f2) = true ->
    compare_fields f1 f2 = Ok diff ->
    (forall k v, dict_get (compared_params f1) k = Some v ->
                 exists v', dict_get (compared_params f2) k = Some v' /\ py_eqb v v' = true) ->
    diff = [].
Proof.
  intros f1 f2 diff Hty Hc Hsub. apply class_eqb_eq in Hty.
  destruct (compare_fields_get f1 f2 Hty Hc) as [_ Hget].
  apply dict_all_None. intros k. rewrite Hget. unfold diff_at.
  destruct (dict_get (compared_params f1) k) as [v|] eqn:E; [|reflexivity].
  destruct (Hsub k v E) as [v' [-> ->]]. reflexivity.
Qed.

(** A column of the same type in both tables, in a result of [diff_one]. *)
Lemma same_type_column :
  forall m1 m2 name f1 f2 ops,
    dict_get (fields m1) name = Some f1 ->
    dict_get (fields m2) name = Some f2 ->
    class_eqb (find_field_type f1) (find_field_type f2) = true ->
    diff_one_calls m1 m2 = Ok ops ->
    exists diff,
      compare_fields f1 f2 = Ok diff
      /\ column_diff (fields m1) (fields m2) name =
         Ok (if nonempty (other_diff diff) then [f1] else [],
             if Bool.eqb (field_null f1) (field_null f2) then []
             else [(name, PyBool (field_null f1))],
             if py_eqb (index_param f1) (index_param f2) then []
             else [(name,
                    PyBool (field_index f1 && negb (field_unique f1)),
                    PyBool (field_unique f1))])
      /\ not_null_calls name ops = not_null_changes m1 name f1 f2
      /\ index_calls name ops = index_changes m1 name f1 f2.
Proof.
  intros m1 m2 name f1 f2 ops H1 H2 Hty H. apply class_eqb_eq in Hty.
  destruct (diff_one_calls_column _ _ _ H H1 H2) as [x [Hx [Hn [Hi _]]]].
  destruct (column_diff_compare _ _ _ H1 H2 Hx) as [diff Hc].
  exists diff. split; [exact Hc|].
  pose proof (column_diff_same_type _ _ _ H1 H2 Hty Hc) as Hx'.
  split; [exact Hx'|].
  match type of Hx' with _ = Ok ?r => assert (Ex : x = r) by congruence end.
  subst x. unfold cd_nulls, cd_indexes in Hn, Hi. cbn [fst snd] in Hn, Hi. split.
  - rewrite Hn. unfold not_null_changes.
    destruct (Bool.eqb (field_null f1) (field_null f2)); reflexivity.
  - unfold index_changes.
    destruct (py_eqb (index_param f1) (index_param f2)).
    + simpl in Hi. now injection Hi.
    + cbn [flat_mapM] in Hi. unfold index_step, dict_getitem in Hi.
      rewrite H2 in Hi. simpl in Hi.
      destruct (field_index f1), (field_unique f1); simpl in Hi;
        injection Hi as <-; simpl; now rewrite ?app_nil_r.
Qed.

(** A column for which [compare_fields] finds no difference leaves no
    trace in the result. *)
Lemma unchanged_column :
  forall m1 m2 name f1 f2 ops,
    dict_get (fields m1) name = Some f1 ->
    dict_get (fields m2) name = Some f2 ->
    class_eqb (find_field_type f1) (find_field_type f2) = true ->
    compare_fields f1 f2 = Ok [] ->
    keyed_by_name m1 = true ->
    diff_one_calls m1 m2 = Ok ops ->
    not_null_calls name ops = []
    /\ index_calls name ops = []
    /\ forall m flds, In (ChangeFields m flds) ops -> ~ In f1 flds.
Proof.
  intros m1 m2 name f1 f2 ops H1 H2 Hty Hc Hk H.
  destruct (same_type_column _ _ _ H1 H2 Hty H) as [diff [Hc' [Hx [Hn Hi]]]].
  assert (diff = []) by congruence. subst diff.
  apply class_eqb_eq in Hty.
  destruct (compare_fields_get f1 f2 Hty Hc) as [_ Hget].
  assert (Hnull : Bool.eqb (field_null f1) (field_null f2) = true).
  { specialize (Hget "null"). unfold diff_at in Hget.
    rewrite !compared_params_get in Hget. simpl in Hget.
    destruct (Bool.eqb (field_null f1) (field_null f2)); [reflexivity | discriminate]. }
  assert (Hidx : py_eqb (index_param f1) (index_param f2) = true).
  { specialize (Hget "index"). unfold diff_at in Hget.
    rewrite !compared_params_get in Hget.
    pose proof (field_to_params_get f1 "index") as Hi1.
    pose proof (field_to_params_get f2 "index") as Hi2.
    remember (index_param f1) as ip1. remember (index_param f2) as ip2.
    simpl in Hget, Hi1, Hi2. rewrite Hi1, Hi2 in Hget.
    destruct (py_eqb ip1 ip2); [reflexivity | discriminate]. }
  split; [|split].
  - rewrite Hn. unfold not_null_changes. now rewrite Hnull.
  - rewrite Hi. unfold index_changes. now rewrite Hidx.
  - intros m flds Hin Hf.
    destruct (@diff_one_calls_changed _ m1 m2 ops m flds f1 H Hin Hf)
      as [name' [x' [_ [Hx' Hf']]]].
    pose proof (proj1 (@column_diff_names _ (fields m1) (fields m2) name' x' Hx') f1 Hf')
      as Hg.
    assert (name' = name).
    { rewrite <- (keyed_by_name_get _ _ Hk Hg). now apply keyed_by_name_get with (m := m1). }
    subst name'. rewrite Hx in Hx'. injection Hx' as <-.
    unfold cd_fields in Hf'. simpl in Hf'. exact Hf'.
Qed.

End SameType.

(** ** Defaults *)

Lemma compared_params_default :
  forall g,
    dict_get (compared_params g) "default" =
    if default_compared g then Some (field_default g) else None.
Proof.
  intros g. rewrite compared_params_get, field_to_params_get. reflexivity.
Qed.

Lemma set_default_extra_params :
  forall f d, extra_params (set_default f d) = extra_params f.
Proof.
  intros f d. unfold extra_params.
  change (find_field_type (set_default f d)) with (find_field_type f).
  unfold FIELD_TO_PARAMS. simpl.
  repeat (match goal with |- context [if ?b then _ else _] => destruct b end;
          try reflexivity).
Qed.

Lemma set_default_params :
  forall f d k,
    String.eqb k "default" = false ->
    dict_get (compared_params (set_default f d)) k = dict_get (compared_params f) k.
Proof.
  intros f d k Hk. rewrite !compared_params_get, !field_to_params_get, Hk.
  rewrite set_default_extra_params. reflexivity.
Qed.

Lemma set_default_type :
  forall f d, class_eqb (find_field_type (set_default f d)) (find_field_type f) = true.
Proof.
  intros f d. apply class_eqb_eq. reflexivity.
Qed.

Lemma set_default_subsumed :
  forall f d1 d2 k v,
    default_compared (set_default f d1) = false ->
    dict_get (compared_params (set_default f d1)) k = Some v ->
    exists v', dict_get (compared_params (set_default f d2)) k = Some v' /\ py_eqb v v' = true.
Proof.
  intros f d1 d2 k v Hd Hg. exists v. split; [|apply py_eqb_refl].
  destruct (String.eqb k "default") eqn:E.
  - apply String.eqb_eq in E. subst k.
    rewrite compared_params_default, Hd in Hg. discriminate.
  - rewrite set_default_params in Hg by exact E.
    now rewrite set_default_params by exact E.
Qed.

Lemma set_default_same : forall f, set_default f (field_default f) = f.
Proof.
  intros f. destruct f. reflexivity.
Qed.

Section Claims.

Context {set_order : SetIteration}.

(** C7: for a column of both tables whose two versions resolve to the same
    type, the result of [diff_one] has exactly one [change_not_null] call
    for the column, carrying the new flag, when the flag [null] differs,
    and none when it is the same; the call prints [drop_not_null] for a
    column that becomes nullable and [add_not_null] for one that no longer
    is. *)
Theorem null_change_one_change_not_null :
  forall m1 m2 name f1 f2 ops,
    dict_get (fields m1) name = Some f1 ->
    dict_get (fields m2) name = Some f2 ->
    class_eqb (find_field_type f1) (find_field_type f2) = true ->
    diff_one_calls m1 m2 = Ok ops ->
    not_null_calls name ops =
    (if Bool.eqb (field_null f1) (field_null f2) then []
     else [ChangeNotNull m1 name (PyBool (field_null f1))])
    /\ change_not_null m1 name (PyBool true) =
       ("migrator.drop_not_null('" ++ table_name m1 ++ "', " ++ repr_str name ++ ")")%string
    /\ change_not_null m1 name (PyBool false) =
       ("migrator.add_not_null('" ++ table_name m1 ++ "', " ++ repr_str name ++ ")")%string.
Proof.
  intros m1 m2 name f1 f2 ops H1 H2 Hty H.
  destruct (same_type_column _ _ _ H1 H2 Hty H) as [diff [_ [_ [Hn _]]]].
  split; [exact Hn|]. split; reflexivity.
Qed.

(** C5 (amended): for a column of both tables whose two versions resolve
    to the same type and whose index state (index and not unique, unique)
    differs, the index calls of the result of [diff_one] for the column
    are: when the new column is indexed or unique, [drop_index] if the old
    one was indexed or unique, then [add_index] with the new unique flag;
    otherwise [drop_index] alone.  When the state is the same there is no
    index call for the column. *)
Theorem index_change_calls :
  forall m1 m2 name f1 f2 ops,
    dict_get (fields m1) name = Some f1 ->
    dict_get (fields m2) name = Some f2 ->
    class_eqb (find_field_type f1) (find_field_type f2) = true ->
    diff_one_calls m1 m2 = Ok ops ->
    index_calls name ops = index_changes m1 name f1 f2.
Proof.
  intros m1 m2 name f1 f2 ops H1 H2 Hty H.
  destruct (same_type_column _ _ _ H1 H2 Hty H) as [diff [_ [_ [_ Hi]]]].
  exact Hi.
Qed.


(** C10: the difference [compare_fields] returns holds items of the new
    column only: a key that the parameters of the new column do not have
    is not in it.  So when the literal default of a column is removed, the
    key [default] being absent from the parameters of the new column,
    [compare_fields] returns the empty difference, the column is in no
    [change_fields] batch and the result of [diff_one] has no call for
    it. *)
Theorem removed_default_not_reported :
  forall m1 m2 name f2 ops,
    dict_get (fields m1) name = Some (set_default f2 PyNone) ->
    dict_get (fields m2) name = Some f2 ->
    keyed_by_name m1 = true ->
    diff_one_calls m1 m2 = Ok ops ->
    (forall g1 g2 diff k,
        class_eqb (find_field_type g1) (find_field_type g2) = true ->
        compare_fields g1 g2 = Ok diff ->
        dict_get (compared_params g1) k = None ->
        dict_get diff k = None)
    /\ dict_get (compared_params (set_default f2 PyNone)) "default" = None
    /\ compare_fields (set_default f2 PyNone) f2 = Ok []
    /\ not_null_calls name ops = []
    /\ index_calls name ops = []
    /\ forall m flds, In (ChangeFields m flds) ops -> ~ In (set_default f2 PyNone) flds.
Proof.
  intros m1 m2 name f2 ops H1 H2 Hk H.
  split.
  { intros g1 g2 diff k Hty Hc Hg. apply class_eqb_eq in Hty.
    destruct (compare_fields_get g1 g2 Hty Hc) as [_ Hget].
    rewrite Hget. unfold diff_at. now rewrite Hg. }
  split; [now rewrite compared_params_default|].
  pose proof (set_default_type f2 PyNone) as Hty.
  destruct (same_type_column _ _ _ H1 H2 Hty H) as [diff [Hc _]].
  assert (diff = []).
  { apply (compare_fields_subsumed _ _ Hty Hc). intros k v Hg.
    rewrite <- (set_default_same f2).
    apply set_default_subsumed with (d1 := PyNone); [reflexivity | exact Hg]. }
  subst diff. split; [exact Hc|].
  now apply (unchanged_column _ _ _ H1 H2 Hty Hc Hk H).
Qed.

End Claims.

(** [members.nick] becomes nullable: one [drop_not_null]. *)
Lemma null_change_one_change_not_null_witness :
  not_null_calls "nick" [ChangeNotNull members_new "nick" (PyBool true)]
  = [ChangeNotNull members_new "nick" (PyBool true)]
  /\ change_not_null members_new "nick" (PyBool true)
     = "migrator.drop_not_null('members', 'nick')"
  /\ change_not_null members_new "nick" (PyBool false)
     = "migrator.add_not_null('members', 'nick')".
Proof.
  apply (@null_change_one_change_not_null insertion_iteration
           members_new members_old "nick" nick_optional nick_required);
    reflexivity.
Defined.

(** Scenario A: [users.email] from unique to indexed and not unique. *)
Lemma index_change_calls_witness :
  index_calls "email"
    [DropIndex users_new (PyStr "email"); AddIndex users_new (PyStr "email") (PyBool false)]
  = [DropIndex users_new (PyStr "email"); AddIndex users_new (PyStr "email") (PyBool false)].
Proof.
  apply (@index_change_calls insertion_iteration
           users_new users_old "email" email_indexed email_unique);
    reflexivity.
Defined.

(** Scenario A, as text. *)
Lemma scenario_A_text :
  forall field_to_code model_to_code,
    diff_one field_to_code model_to_code users_new users_old
    = Ok ["migrator.drop_index('users', 'email')";
          "migrator.add_index('users', 'email', unique=False)"].
Proof.
  intros field_to_code model_to_code. reflexivity.
Qed.

(** C5 (counterexample): [people.age] becomes indexed while its type
    changes from a 32-bit to a 64-bit integer.  The index state differs and
    the new column is indexed, but the result holds no [add_index]: only
    the [change_fields] call. *)
Lemma index_change_lost_when_type_changes :
  dict_get (fields people_newer) "age" = Some age_big_nullable_indexed
  /\ dict_get (fields people_old) "age" = Some age_int
  /\ py_eqb (index_param age_big_nullable_indexed) (index_param age_int) = false
  /\ diff_one_calls people_newer people_old
     = Ok [ChangeFields people_newer [age_big_nullable_indexed]]
  /\ index_calls "age" [ChangeFields people_newer [age_big_nullable_indexed]] = []
  /\ index_changes people_newer "age" age_big_nullable_indexed age_int
     = [AddIndex people_newer (PyStr "age") (PyBool false)]
  /\ ~ index_calls_whatever_the_type.
Proof.
  repeat (split; [reflexivity|]).
  intros H.
  specialize (H insertion_iteration people_newer people_old "age"
                age_big_nullable_indexed age_int
                [ChangeFields people_newer [age_big_nullable_indexed]]
                eq_refl eq_refl eq_refl).
  discriminate H.
Qed.


(** [items.stock] loses its literal default [5]. *)
Lemma removed_default_not_reported_witness :
  (forall g1 g2 diff k,
      class_eqb (find_field_type g1) (find_field_type g2) = true ->
      compare_fields g1 g2 = Ok diff ->
      dict_get (compared_params g1) k = None ->
      dict_get diff k = None)
  /\ dict_get (compared_params stock_plain) "default" = None
  /\ compare_fields stock_plain stock_default_5 = Ok []
  /\ not_null_calls "stock" [] = []
  /\ index_calls "stock" [] = []
  /\ forall m flds, In (ChangeFields m flds) [] -> ~ In stock_plain flds.
Proof.
  apply (@removed_default_not_reported insertion_iteration
           items_new items_old "stock" stock_default_5);
    reflexivity.
Defined.

(** A literal default against a default computed by a function: reported
    when the literal is the new one, not when it is the old one. *)
Lemma literal_default_against_factory :
  compare_fields stock_default_5 stock_default_factory = Ok [("default", PyInt 5)]
  /\ compare_fields stock_default_factory stock_default_5 = Ok [].
Proof.
  split; reflexivity.
Qed.


(** A tuple that holds a list is an instance of [Hashable] and cannot be
    hashed: with such a default the comparison raises, also against the
    field itself. *)
Lemma default_hashable_in_name_only :
  isinstance_Hashable (field_default stock_default_nested) = true
  /\ hashable_params stock_default_nested = false
  /\ compare_fields stock_default_nested stock_default_nested = Raise TypeError.
Proof.
  repeat split.
Qed.

(** The comparison is not symmetric: the same two versions the other way
    round, the default [5] being new, give a [change_fields] call. *)
Lemma added_default_reported :
  compare_fields stock_default_5 stock_plain = Ok [("default", PyInt 5)]
  /\ diff_one_calls items_old items_new = Ok [ChangeFields items_old [stock_default_5]].
Proof.
  split; reflexivity.
Qed.

(** ** The order of the calls of [diff_one] *)

Section Order.

Context {set_order : SetIteration}.

Lemma column_nulls_shape :
  forall fn1 fn2 n x,
    column_diff fn1 fn2 n = Ok x ->
    cd_nulls x = [] \/ exists v, cd_nulls x = [(n, v)].
Proof.
  intros fn1 fn2 n x H. unfold column_diff, change_step in H.
  destruct (dict_getitem fn1 n) as [f1|]; simpl in H; [|discriminate].
  destruct (dict_getitem fn2 n) as [f2|]; simpl in H; [|discriminate].
  destruct (compare_fields f1 f2) as [diff|]; simpl in H; [|discriminate].
  destruct (dict_pop diff "null") as [r diff'].
  destruct (dict_pop diff' "index") as [r' diff''].
  destruct (negb (is_None (pop_value r'))); simpl in H.
  - destruct (py_getitem (pop_value r') 0) as [i0|]; simpl in H; [|discriminate].
    destruct (py_getitem (pop_value r') 1) as [i1|]; simpl in H; [|discriminate].
    injection H as <-. unfold cd_nulls. simpl.
    destruct (negb (is_None (pop_value r))); simpl; eauto.
  - injection H as <-. unfold cd_nulls. simpl.
    destruct (negb (is_None (pop_value r))); simpl; eauto.
Qed.

Lemma null_names_in_order :
  forall fn1 fn2 names cs,
    Forall2 (fun n x => column_diff fn1 fn2 n = Ok x) names cs ->
    map fst (flat_map cd_nulls cs) = filter (null_affected fn1 fn2) names.
Proof.
  intros fn1 fn2 names cs HF.
  induction HF as [|n x names cs Hx HF IH]; [reflexivity|].
  simpl. rewrite map_app, IH. unfold null_affected at 2. rewrite Hx.
  destruct (column_nulls_shape _ _ _ Hx) as [->|[v ->]]; reflexivity.
Qed.

Lemma index_calls_in_order :
  forall m1 fn1 fn2 names cs,
    Forall2 (fun n x => column_diff fn1 fn2 n = Ok x) names cs ->
    forall ixs,
      Forall2 (fun e r => index_step m1 fn2 e = Ok r) (flat_map cd_indexes cs) ixs ->
      List.concat ixs = flat_map (column_index_calls m1 fn1 fn2) names.
Proof.
  intros m1 fn1 fn2 names cs HF.
  induction HF as [|n x names cs Hx HF IH]; intros ixs Hixs.
  - inversion Hixs. reflexivity.
  - simpl in Hixs. apply Forall2_app_inv_l in Hixs.
    destruct Hixs as [ixs1 [ixs2 [H1 [H2 ->]]]].
    rewrite concat_app. simpl. rewrite (IH ixs2 H2). f_equal.
    unfold column_index_calls. rewrite Hx.
    assert (Hf : flat_mapM (index_step m1 fn2) (cd_indexes x) = Ok (List.concat ixs1)).
    { apply flat_mapM_Forall2. eauto. }
    now rewrite Hf.
Qed.

Lemma column_index_calls_named :
  forall m1 fn1 fn2 n,
    Forall (fun c => is_index_of n c = true) (column_index_calls m1 fn1 fn2 n).
Proof.
  intros m1 fn1 fn2 n. unfold column_index_calls.
  destruct (column_diff fn1 fn2 n) as [x|] eqn:Hx; [|constructor].
  destruct (flat_mapM (index_step m1 fn2) (cd_indexes x)) as [r|] eqn:Hr; [|constructor].
  apply flat_mapM_Forall2 in Hr. destruct Hr as [rs [HF ->]].
  apply Forall_forall. intros c Hc. apply in_concat in Hc. destruct Hc as [r [Hr Hc]].
  destruct (Forall2_In_r _ HF Hr) as [[[n' i] u] [He Hstep]].
  assert (n' = n) by
    (apply (proj2 (proj2 (@column_diff_names _ fn1 fn2 n x Hx)) n' i u He)).
  subst n'. now apply (index_step_names _ _ _ _ _ _ Hstep Hc).
Qed.

(** C2: a result of [diff_one] is, in this order: at most one
    [create_fields] call, at most one [drop_fields] call, at most one
    [change_fields] call, the [change_not_null] calls, one for each column
    concerned and in the order in which the loop visits the columns, the
    index calls of the columns, column after column in that same order,
    the [drop_index] calls for compound indexes, and the [add_index] calls
    for compound indexes. *)
Theorem diff_one_calls_order :
  forall m1 m2 ops,
    diff_one_calls m1 m2 = Ok ops ->
    exists added dropped changed not_null column_indexes drops adds,
      ops = added ++ dropped ++ changed ++ not_null ++ column_indexes ++ drops ++ adds
      /\ (added = [] \/ exists flds, added = [CreateFields m1 flds])
      /\ (dropped = [] \/ exists names, dropped = [DropFields m1 names])
      /\ (changed = [] \/ exists flds, changed = [ChangeFields m1 flds])
      /\ (exists affected nulls,
             not_null = map (fun nn => ChangeNotNull m1 (fst nn) (snd nn)) nulls
             /\ map fst nulls = filter affected (common_names m1 m2))
      /\ (exists calls,
             column_indexes = flat_map calls (common_names m1 m2)
             /\ forall n, Forall (fun c => is_index_of n c = true) (calls n))
      /\ Forall (fun c => exists i, is_compound i = true /\ c = DropIndex m1 (fst i)) drops
      /\ Forall (fun c => exists i, is_compound i = true /\ c = AddIndex m1 (fst i) (snd i))
           adds.
Proof.
  intros m1 m2 ops H. apply diff_one_calls_inv in H.
  destruct H as [added [cs [ixs [Ha [Hcs [Hixs [_ [_ ->]]]]]]]].
  exists added.
  exists (if nonempty (names_dropped m1 m2)
          then [DropFields m1 (iter_set String.eqb (names_dropped m1 m2))] else []).
  exists (if nonempty (flat_map cd_fields cs)
          then [ChangeFields m1 (flat_map cd_fields cs)] else []).
  exists (map (fun nn => ChangeNotNull m1 (fst nn) (snd nn)) (flat_map cd_nulls cs)).
  exists (List.concat ixs), (compound_drops m1 m2), (compound_adds m1 m2).
  split; [reflexivity|]. split.
  { destruct (nonempty (names_added m1 m2)).
    - destruct Ha as [flds [_ ->]]. right. eauto.
    - now left. }
  split. { destruct (nonempty (names_dropped m1 m2)); [right; eauto | now left]. }
  split. { destruct (nonempty (flat_map cd_fields cs)); [right; eauto | now left]. }
  split.
  { exists (null_affected (fields m1) (fields m2)), (flat_map cd_nulls cs).
    split; [reflexivity|]. now apply null_names_in_order. }
  split.
  { exists (column_index_calls m1 (fields m1) (fields m2)).
    split; [now apply index_calls_in_order with (cs := cs)|].
    intros n. apply column_index_calls_named. }
  split.
  - apply Forall_forall. intros c Hc. unfold compound_drops in Hc.
    apply in_flat_map in Hc. destruct Hc as [i [_ Hc]].
    destruct (is_compound i) eqn:E; [|contradiction].
    destruct Hc as [<-|[]]. eauto.
  - apply Forall_forall. intros c Hc. unfold compound_adds in Hc.
    apply in_flat_map in Hc. destruct Hc as [i [_ Hc]].
    destruct (is_compound i) eqn:E; [|contradiction].
    destruct Hc as [<-|[]]. eauto.
Qed.

End Order.

Lemma diff_one_calls_order_witness :
  exists added dropped changed not_null column_indexes drops adds,
    stores_calls = added ++ dropped ++ changed ++ not_null ++ column_indexes ++ drops ++ adds
    /\ (added = [] \/ exists flds, added = [CreateFields stores_new flds])
    /\ (dropped = [] \/ exists names, dropped = [DropFields stores_new names])
    /\ (changed = [] \/ exists flds, changed = [ChangeFields stores_new flds])
    /\ (exists affected nulls,
           not_null = map (fun nn => ChangeNotNull stores_new (fst nn) (snd nn)) nulls
           /\ map fst nulls = filter affected (common_names stores_new stores_old))
    /\ (exists calls,
           column_indexes = flat_map calls (common_names stores_new stores_old)
           /\ forall n, Forall (fun c => is_index_of n c = true) (calls n))
    /\ Forall (fun c => exists i, is_compound i = true /\ c = DropIndex stores_new (fst i)) drops
    /\ Forall (fun c => exists i, is_compound i = true /\ c = AddIndex stores_new (fst i) (snd i))
         adds.
Proof.
  apply (@diff_one_calls_order insertion_iteration stores_new stores_old stores_calls).
  reflexivity.
Defined.

(** ** Whole schemas *)

Lemma all_before_filter :
  forall (A : Type) (keep : A -> bool) (x y : A) l,
    all_before x y l -> keep x = true -> keep y = true ->
    all_before x y (filter keep l).
Proof.
  intros A keep x y l [l1 [l2 [-> [Hx [Hy [Hy' Hx']]]]]] Kx Ky.
  exists (filter keep l1), (filter keep l2). rewrite filter_app.
  split; [reflexivity|]. rewrite !filter_In. tauto.
Qed.

Lemma all_before_map :
  forall (A B : Type) (f : A -> B) (x y : A) l,
    (forall a b, f a = f b -> a = b) ->
    all_before x y l -> all_before (f x) (f y) (map f l).
Proof.
  intros A B f x y l Hinj [l1 [l2 [-> [Hx [Hy [Hy' Hx']]]]]].
  exists (map f l1), (map f l2). rewrite map_app.
  split; [reflexivity|].
  split; [now apply in_map|].
  split.
  { intros H. apply in_map_iff in H. destruct H as [a [Ha Hin]].
    apply Hinj in Ha. now subst. }
  split; [now apply in_map|].
  intros H. apply in_map_iff in H. destruct H as [a [Ha Hin]].
  apply Hinj in Ha. now subst.
Qed.

Lemma all_before_rev :
  forall (A : Type) (x y : A) l, all_before x y l -> all_before y x (rev l).
Proof.
  intros A x y l [l1 [l2 [-> [Hx [Hy [Hy' Hx']]]]]].
  exists (rev l2), (rev l1). rewrite rev_app_distr.
  split; [reflexivity|]. rewrite <- !in_rev. tauto.
Qed.

Lemma all_before_app :
  forall (A : Type) (x y : A) a l r,
    all_before x y l -> ~ In y a -> ~ In x r -> all_before x y (a ++ l ++ r).
Proof.
  intros A x y a l r [l1 [l2 [-> [Hx [Hy [Hy' Hx']]]]]] Ha Hr.
  exists (a ++ l1), (l2 ++ r). rewrite <- !app_assoc.
  split; [reflexivity|]. rewrite !in_app_iff. tauto.
Qed.

Lemma NoDup_map_incl :
  forall (A B : Type) (f : A -> B) (l l' : list A),
    NoDup l -> incl l l' -> NoDup (map f l') -> NoDup (map f l).
Proof.
  intros A B f l l' Hnd Hincl Hnd'.
  induction l as [|x l IH]; simpl; constructor.
  - inversion Hnd as [|? ? Hx _]; subst. intros H.
    apply in_map_iff in H. destruct H as [y [Hf Hy]].
    assert (y = x).
    { apply (NoDup_map_inj f l'); auto.
      - apply Hincl. now right.
      - apply Hincl. now left. }
    now subst.
  - inversion Hnd; subst. apply IH; auto.
    intros y Hy. apply Hincl. now right.
Qed.

Lemma models_map_fresh :
  forall l, NoDup (map table_name l) ->
            models_map l = map (fun m => (table_name m, m)) l.
Proof.
  intros l H. unfold models_map. apply dict_of_pairs_fresh.
  now rewrite map_map.
Qed.

Lemma models_map_keys :
  forall l k, In k (dict_keys (models_map l)) <-> In k (map table_name l).
Proof.
  intros l k. unfold models_map. rewrite dict_of_pairs_keys, map_map. reflexivity.
Qed.

Lemma models_map_values :
  forall l k m, In (k, m) (models_map l) -> In m l /\ k = table_name m.
Proof.
  intros l k m H. unfold models_map in H. apply dict_of_pairs_In in H.
  apply in_map_iff in H. destruct H as [m' [Heq Hin]].
  injection Heq as <- <-. auto.
Qed.

Lemma models_map_get :
  forall l m, NoDup (map table_name l) -> In m l ->
              dict_get (models_map l) (table_name m) = Some m.
Proof.
  intros l m Hnd Hin. apply dict_get_NoDup.
  - unfold models_map. apply dict_of_pairs_NoDup.
  - rewrite models_map_fresh by exact Hnd.
    apply in_map_iff. exists m. auto.
Qed.

(** The loops "Add models" and "Remove models" of [diff_many]. *)
Lemma model_calls :
  forall (mk : Model -> change) (own other : dict Model) l,
    (forall m, In m l -> dict_get own (table_name m) = Some m) ->
    mapM (fun name => m <- dict_getitem own name ;; Ok (mk m))
      (filter (fun n => negb (dict_contains other n)) (map table_name l))
    = Ok (map mk (filter (fun m => negb (dict_contains other (table_name m))) l)).
Proof.
  intros mk own other l. induction l as [|m l IH]; intros H; [reflexivity|].
  simpl. destruct (negb (dict_contains other (table_name m))).
  - cbn [mapM]. unfold dict_getitem at 1. rewrite (H m) by now left.
    cbn [bind]. rewrite IH by (intros m' Hm'; apply H; now right). reflexivity.
  - apply IH. intros m' Hm'. apply H. now right.
Qed.

Section Schema.

Context {set_order : SetIteration} {sorter : SortModels}.

Lemma diff_one_calls_no_model :
  forall m1 m2 ops c,
    diff_one_calls m1 m2 = Ok ops -> In c ops -> is_model_call c = false.
Proof.
  intros m1 m2 ops c H Hin. apply diff_one_calls_inv in H.
  destruct H as [added [cs [ixs [Ha [Hcs [Hixs [_ [_ ->]]]]]]]].
  repeat (apply in_app_or in Hin; destruct Hin as [Hin|Hin]).
  - destruct (nonempty (names_added m1 m2)).
    + destruct Ha as [? [_ ->]]. destruct Hin as [<-|[]]. reflexivity.
    + subst. contradiction.
  - destruct (nonempty (names_dropped m1 m2)); [|contradiction].
    destruct Hin as [<-|[]]. reflexivity.
  - destruct (nonempty (flat_map cd_fields cs)); [|contradiction].
    destruct Hin as [<-|[]]. reflexivity.
  - apply in_map_iff in Hin. destruct Hin as [? [<- _]]. reflexivity.
  - apply in_concat in Hin. destruct Hin as [r [Hr Hc]].
    destruct (Forall2_In_r _ Hixs Hr) as [[[n i] u] [_ Hstep]].
    pose proof (index_step_names _ _ _ _ _ _ Hstep Hc) as [Hi _].
    destruct c; try discriminate; reflexivity.
  - unfold compound_drops in Hin. apply in_flat_map in Hin.
    destruct Hin as [i [_ Hin]]. destruct (is_compound i); [|contradiction].
    destruct Hin as [<-|[]]. reflexivity.
  - unfold compound_adds in Hin. apply in_flat_map in Hin.
    destruct Hin as [i [_ Hin]]. destruct (is_compound i); [|contradiction].
    destruct Hin as [<-|[]]. reflexivity.
Qed.

(** The anatomy of a result of [diff_many] on schemas whose table names
    do not repeat. *)
Lemma diff_many_calls_inv :
  forall models1 models2 reverse ops,
    names_distinct (map table_name models1) = true ->
    names_distinct (map table_name models2) = true ->
    diff_many_calls models1 models2 reverse = Ok ops ->
    exists sorted1 sorted2 changes,
      sort_models models1 = Ok sorted1
      /\ sort_models models2 = Ok sorted2
      /\ (forall c, In c changes -> is_model_call c = false)
      /\ ops =
         changes
         ++ map CreateModel
              (filter (fun m => negb (name_mem (table_name m) (map table_name models2)))
                 (if reverse then rev sorted1 else sorted1))
         ++ map RemoveModel
              (filter (fun m => negb (name_mem (table_name m) (map table_name models1)))
                 (if reverse then rev sorted2 else sorted2)).
Proof.
  intros models1 models2 reverse ops Hd1 Hd2 H. unfold diff_many_calls in H.
  destruct (sort_models models1) as [sorted1|] eqn:E1; simpl in H; [|discriminate].
  destruct (sort_models models2) as [sorted2|] eqn:E2; simpl in H; [|discriminate].
  set (l1 := if reverse then rev sorted1 else sorted1) in *.
  set (l2 := if reverse then rev sorted2 else sorted2) in *.
  assert (Hin1 : forall m, In m l1 <-> In m models1).
  { intros m. rewrite <- (sort_models_In _ E1 m). unfold l1.
    destruct reverse; [symmetry; apply in_rev | reflexivity]. }
  assert (Hin2 : forall m, In m l2 <-> In m models2).
  { intros m. rewrite <- (sort_models_In _ E2 m). unfold l2.
    destruct reverse; [symmetry; apply in_rev | reflexivity]. }
  assert (Hnd1 : NoDup (map table_name l1)).
  { apply NoDup_map_incl with (l' := models1).
    - unfold l1. pose proof (sort_models_NoDup _ E1).
      destruct reverse; [now apply NoDup_rev | assumption].
    - intros m. apply Hin1.
    - now apply names_distinct_NoDup. }
  assert (Hnd2 : NoDup (map table_name l2)).
  { apply NoDup_map_incl with (l' := models2).
    - unfold l2. pose proof (sort_models_NoDup _ E2).
      destruct reverse; [now apply NoDup_rev | assumption].
    - intros m. apply Hin2.
    - now apply names_distinct_NoDup. }
  assert (Hc1 : forall n, dict_contains (models_map l1) n = name_mem n (map table_name models1)).
  { intros n. apply eq_true_iff_eq.
    rewrite dict_contains_keys, models_map_keys, name_mem_In, !in_map_iff.
    split; intros [m [Hm Hin]]; exists m; split; auto; now apply Hin1. }
  assert (Hc2 : forall n, dict_contains (models_map l2) n = name_mem n (map table_name models2)).
  { intros n. apply eq_true_iff_eq.
    rewrite dict_contains_keys, models_map_keys, name_mem_In, !in_map_iff.
    split; intros [m [Hm Hin]]; exists m; split; auto; now apply Hin2. }
  destruct (flat_mapM _ (models_map l1)) as [changes|] eqn:Ec; simpl in H; [|discriminate].
  assert (Hk1 : dict_keys (models_map l1) = map table_name l1).
  { rewrite models_map_fresh by exact Hnd1. unfold dict_keys. now rewrite map_map. }
  assert (Hk2 : dict_keys (models_map l2) = map table_name l2).
  { rewrite models_map_fresh by exact Hnd2. unfold dict_keys. now rewrite map_map. }
  rewrite Hk1, Hk2 in H.
  rewrite (model_calls CreateModel (models_map l1) (models_map l2) l1) in H
    by (intros m Hm; now apply models_map_get).
  rewrite (model_calls RemoveModel (models_map l2) (models_map l1) l2) in H
    by (intros m Hm; now apply models_map_get).
  simpl in H. injection H as <-.
  exists sorted1, sorted2, changes. split; [reflexivity|]. split; [reflexivity|]. split.
  - intros c Hc. apply flat_mapM_Forall2 in Ec. destruct Ec as [rs [HF ->]].
    apply in_concat in Hc. destruct Hc as [r [Hr Hc]].
    destruct (Forall2_In_r _ HF Hr) as [[name model1] [_ Hstep]].
    destruct (negb (dict_contains (models_map l2) name)).
    + injection Hstep as <-. contradiction.
    + destruct (dict_getitem (models_map l2) name) as [model2|]; simpl in Hstep;
        [|discriminate].
      now apply (@diff_one_calls_no_model model1 model2 r c Hstep).
  - f_equal. f_equal.
    + f_equal. apply filter_ext. intros m. now rewrite Hc2.
    + f_equal. apply filter_ext. intros m. now rewrite Hc1.
Qed.

End Schema.

Lemma flat_mapM_nil :
  forall (A B : Type) (f : A -> result (list B)) l,
    (forall a, In a l -> f a = Ok []) -> flat_mapM f l = Ok [].
Proof.
  induction l as [|a l IH]; intros H; [reflexivity|].
  simpl. rewrite (H a) by now left. simpl.
  rewrite IH by (intros a' Ha'; apply H; now right). reflexivity.
Qed.

Lemma flat_map_nil :
  forall (A B : Type) (f : A -> list B) l,
    (forall a, In a l -> f a = []) -> flat_map f l = [].
Proof.
  induction l as [|a l IH]; intros H; [reflexivity|].
  simpl. rewrite (H a) by now left.
  apply IH. intros a' Ha'. apply H. now right.
Qed.

Lemma Forall2_map_r :
  forall (A B : Type) (R : A -> B -> Prop) (g : A -> B) l,
    (forall a, In a l -> R a (g a)) -> Forall2 R l (map g l).
Proof.
  induction l as [|a l IH]; intros H; simpl; constructor.
  - apply H. now left.
  - apply IH. intros a' Ha'. apply H. now right.
Qed.

Section SchemaClaims.

Context {set_order : SetIteration}.

Lemma compare_fields_self :
  forall f, hashable_params f = true -> compare_fields f f = Ok [].
Proof.
  intros f H. rewrite compare_fields_same_type by reflexivity.
  rewrite H. simpl. rewrite set_sub_self by apply item_eqb_refl.
  now rewrite iter_set_nil.
Qed.

Lemma column_diff_self :
  forall fn name f,
    dict_get fn name = Some f -> hashable_params f = true ->
    column_diff fn fn name = Ok ([], [], []).
Proof.
  intros fn name f Hg Hh.
  rewrite (column_diff_same_type _ _ _ Hg Hg eq_refl (compare_fields_self f Hh)).
  rewrite Bool.eqb_reflx, py_eqb_refl. reflexivity.
Qed.

Lemma diff_one_calls_self :
  forall T, well_formed_model T = true -> diff_one_calls T T = Ok [].
Proof.
  intros T H. unfold well_formed_model in H. apply andb_true_iff in H.
  destruct H as [Hf Hi]. rewrite forallb_forall in Hf.
  apply diff_one_calls_inv.
  exists [], (map (fun _ => ([], [], [])) (common_names T T)), [].
  assert (Ha : names_added T T = []) by (apply set_sub_self, String.eqb_refl).
  assert (Hd : names_dropped T T = []) by (apply set_sub_self, String.eqb_refl).
  assert (Hfm : forall (E : Type) (proj : loop_state -> list E),
             proj ([], [], []) = [] ->
             flat_map proj (map (fun _ : string => ([], [], [])) (common_names T T)) = []).
  { intros E proj Hp. apply flat_map_nil. intros x Hx.
    apply in_map_iff in Hx. destruct Hx as [? [<- _]]. exact Hp. }
  rewrite Ha, Hd. simpl. split; [reflexivity|]. split.
  { apply Forall2_map_r. intros name Hn.
    apply In_common_names in Hn. destruct Hn as [Hn _].
    apply dict_get_keys in Hn. destruct Hn as [f Hg].
    apply (column_diff_self _ _ Hg). apply (Hf (name, f)). now apply dict_get_In. }
  rewrite !Hfm by reflexivity.
  split; [constructor|]. split; [exact Hi|]. split; [exact Hi|].
  unfold compound_drops, compound_adds.
  rewrite set_sub_self by apply index_eqb_refl. now rewrite iter_set_nil.
Qed.

Context {sorter : SortModels}.

Lemma diff_many_calls_self :
  forall S sorted reverse,
    sort_models S = Ok sorted ->
    (forall T, In T S -> well_formed_model T = true) ->
    diff_many_calls S S reverse = Ok [].
Proof.
  intros S sorted reverse Hs Hwf. unfold diff_many_calls. rewrite Hs. simpl.
  set (l := if reverse then rev sorted else sorted).
  assert (Hin : forall m, In m l -> In m S).
  { intros m Hm. apply (sort_models_In _ Hs). unfold l in Hm.
    destruct reverse; [now apply in_rev | exact Hm]. }
  rewrite flat_mapM_nil.
  - simpl.
    assert (Hnone : filter (fun m => negb (dict_contains (models_map l) m))
                      (dict_keys (models_map l)) = []).
    { apply filter_none. intros k Hk. apply dict_contains_keys in Hk. now rewrite Hk. }
    rewrite Hnone. reflexivity.
  - intros [name model1] Hitem.
    assert (Hg : dict_get (models_map l) name = Some model1).
    { apply dict_get_NoDup; [|exact Hitem].
      unfold models_map. apply dict_of_pairs_NoDup. }
    unfold dict_contains, dict_getitem. rewrite Hg. simpl.
    apply diff_one_calls_self. apply Hwf, Hin.
    now apply (models_map_values _ _ _ Hitem).
Qed.

(** C1: the difference of a well-formed schema with itself is empty:
    [diff_many(S, S)] returns the empty list, in either direction, and so
    does [diff_one(T, T)] for a well-formed table. *)
Theorem diff_reflexive :
  forall field_to_code model_to_code (S sorted : list Model) (reverse : bool),
    sort_models S = Ok sorted ->
    (forall T, In T S -> well_formed_model T = true) ->
    diff_many field_to_code model_to_code S S reverse = Ok []
    /\ diff_many_calls S S reverse = Ok []
    /\ forall T, well_formed_model T = true ->
                 diff_one field_to_code model_to_code T T = Ok []
                 /\ diff_one_calls T T = Ok [].
Proof.
  intros ftc mtc S sorted reverse Hs Hwf.
  pose proof (diff_many_calls_self S reverse Hs Hwf) as Hm.
  split; [unfold diff_many; now rewrite Hm|]. split; [exact Hm|].
  intros T HT. pose proof (diff_one_calls_self T HT) as Ho.
  split; [unfold diff_one; now rewrite Ho | exact Ho].
Qed.

(** C3: when the model [T1] has a foreign key to another model [T2], and
    both are in the first schema only, the result of [diff_many] has
    [create_model] for [T2] before [create_model] for [T1]; and when both
    are in the second schema only and [reverse] is set, it has
    [remove_model] for [T1] before [remove_model] for [T2]. *)
Theorem diff_many_dependency_order :
  forall models1 models2 T1 T2,
    names_distinct (map table_name models1) = true ->
    names_distinct (map table_name models2) = true ->
    references T1 T2 ->
    String.eqb (table_name T1) (table_name T2) = false ->
    (forall ops,
        In T1 models1 -> In T2 models1 ->
        name_mem (table_name T1) (map table_name models2) = false ->
        name_mem (table_name T2) (map table_name models2) = false ->
        diff_many_calls models1 models2 false = Ok ops ->
        all_before (CreateModel T2) (CreateModel T1) ops)
    /\ (forall ops,
        In T1 models2 -> In T2 models2 ->
        name_mem (table_name T1) (map table_name models1) = false ->
        name_mem (table_name T2) (map table_name models1) = false ->
        diff_many_calls models1 models2 true = Ok ops ->
        all_before (RemoveModel T1) (RemoveModel T2) ops).
Proof.
  intros models1 models2 T1 T2 Hd1 Hd2 Href Hne.
  apply String.eqb_neq in Hne. split.
  - intros ops H1 H2 Hn1 Hn2 H.
    destruct (diff_many_calls_inv _ _ _ Hd1 Hd2 H)
      as [sorted1 [sorted2 [changes [E1 [E2 [Hch ->]]]]]].
    apply all_before_app.
    + apply all_before_map; [intros a b Hab; now injection Hab|].
      apply all_before_filter; [|now rewrite Hn2 | now rewrite Hn1].
      now apply (sort_models_order _ E1).
    + intros Hc. apply Hch in Hc. discriminate.
    + intros Hc. apply in_map_iff in Hc. destruct Hc as [? [? _]]. discriminate.
  - intros ops H1 H2 Hn1 Hn2 H.
    destruct (diff_many_calls_inv _ _ _ Hd1 Hd2 H)
      as [sorted1 [sorted2 [changes [E1 [E2 [Hch ->]]]]]].
    rewrite app_assoc. rewrite <- (app_nil_r (map RemoveModel _)).
    apply all_before_app.
    + apply all_before_map; [intros a b Hab; now injection Hab|].
      apply all_before_filter; [|now rewrite Hn1 | now rewrite Hn2].
      apply all_before_rev. now apply (sort_models_order _ E2).
    + intros Hc. apply in_app_or in Hc. destruct Hc as [Hc|Hc].
      * apply Hch in Hc. discriminate.
      * apply in_map_iff in Hc. destruct Hc as [? [? _]]. discriminate.
    + intros [].
Qed.

End SchemaClaims.

(** A schema of two tables compared with itself, and a table with
    itself. *)
Lemma diff_reflexive_witness :
  diff_many (fun f _ => field_name f) table_name
    [orders; customers] [orders; customers] false = Ok []
  /\ diff_many_calls [orders; customers] [orders; customers] false = Ok []
  /\ diff_one (fun f _ => field_name f) table_name stores_new stores_new = Ok []
  /\ diff_one_calls stores_new stores_new = Ok [].
Proof.
  destruct (@diff_reflexive insertion_iteration reference_sorter
              (fun f _ => field_name f) table_name
              [orders; customers] [customers; orders] false)
    as [H1 [H2 H3]].
  - reflexivity.
  - intros T [<-|[<-|[]]]; reflexivity.
  - split; [exact H1|]. split; [exact H2|]. apply H3. reflexivity.
Defined.

(** Scenario C with both tables new, and both tables dropped in the
    reverse direction: [orders] refers to [customers]. *)
Lemma diff_many_dependency_order_witness :
  all_before (CreateModel customers) (CreateModel orders)
    [CreateModel customers; CreateModel orders]
  /\ all_before (RemoveModel orders) (RemoveModel customers)
       [RemoveModel orders; RemoveModel customers].
Proof.
  assert (Href : references orders customers).
  { exists "customer", customer_column. split; [simpl; auto | reflexivity]. }
  split.
  - apply (proj1 (@diff_many_dependency_order insertion_iteration reference_sorter
                    [orders; customers] [] orders customers
                    eq_refl eq_refl Href eq_refl));
      try reflexivity; simpl; auto.
  - apply (proj2 (@diff_many_dependency_order insertion_iteration reference_sorter
                    [] [orders; customers] orders customers
                    eq_refl eq_refl Href eq_refl));
      try reflexivity; simpl; auto.
Defined.

(** Scenario C, as text: the declaration of [customers] is printed before
    that of [orders], which refers to it. *)
Lemma scenario_C_text :
  forall field_to_code model_to_code,
    diff_many field_to_code model_to_code [orders; customers] [] false
    = Ok [create_model model_to_code customers; create_model model_to_code orders].
Proof.
  intros field_to_code model_to_code. reflexivity.
Qed.

(** A table that the old schema has too is not created: its columns are
    compared. *)
Lemma scenario_C_orders_kept :
  diff_many_calls [orders; customers] [orders] false = Ok [CreateModel customers].
Proof.
  reflexivity.
Qed.

(** ** [diff_one] returns *)

Lemma Forall2_total :
  forall (A B : Type) (R : A -> B -> Prop) l,
    (forall a, In a l -> exists b, R a b) -> exists l', Forall2 R l l'.
Proof.
  induction l as [|a l IH]; intros H.
  - exists []. constructor.
  - destruct (H a) as [b Hb]; [now left|].
    destruct IH as [l' Hl']; [intros a' Ha'; apply H; now right|].
    exists (b :: l'). now constructor.
Qed.

Section Totality.

Context {set_order : SetIteration}.

(** On well-formed tables [diff_one] raises nothing. *)
Lemma diff_one_calls_total :
  forall m1 m2,
    well_formed_model m1 = true -> well_formed_model m2 = true ->
    exists ops, diff_one_calls m1 m2 = Ok ops.
Proof.
  intros m1 m2 H1 H2. unfold well_formed_model in H1, H2.
  apply andb_true_iff in H1, H2. destruct H1 as [Hf1 Hi1], H2 as [Hf2 Hi2].
  rewrite forallb_forall in Hf1, Hf2.
  assert (Hcs : exists cs,
             Forall2 (fun name x => column_diff (fields m1) (fields m2) name = Ok x)
               (common_names m1 m2) cs).
  { apply Forall2_total. intros name Hn. apply In_common_names in Hn.
    destruct Hn as [Hn1 Hn2].
    apply dict_get_keys in Hn1, Hn2. destruct Hn1 as [f1 Hg1], Hn2 as [f2 Hg2].
    destruct (class_eqb (find_field_type f1) (find_field_type f2)) eqn:Ety.
    - apply class_eqb_eq in Ety.
      assert (Hc : compare_fields f1 f2 =
                   Ok (iter_set item_eqb
                         (set_sub item_eqb (compared_params f1) (compared_params f2)))).
      { rewrite compare_fields_same_type by exact Ety.
        pose proof (Hf1 (name, f1) (dict_get_In _ _ Hg1)) as Hh1.
        pose proof (Hf2 (name, f2) (dict_get_In _ _ Hg2)) as Hh2.
        simpl in Hh1, Hh2. rewrite Hh1, Hh2. reflexivity. }
      rewrite (column_diff_same_type _ _ _ Hg1 Hg2 Ety Hc). eauto.
    - apply class_eqb_false in Ety.
      rewrite (column_diff_cls _ _ _ Hg1 Hg2 Ety). eauto. }
  destruct Hcs as [cs Hcs].
  assert (Hixs : exists ixs,
             Forall2 (fun e r => index_step m1 (fields m2) e = Ok r)
               (flat_map cd_indexes cs) ixs).
  { apply Forall2_total. intros [[n i] u] He.
    apply in_flat_map in He. destruct He as [x [Hx He]].
    destruct (Forall2_In_r _ Hcs Hx) as [name [Hname Hc]].
    assert (n = name) by
      (apply (proj2 (proj2 (@column_diff_names _ _ _ name x Hc)) n i u He)).
    subst n. apply In_common_names in Hname. destruct Hname as [_ Hn2].
    apply dict_get_keys in Hn2. destruct Hn2 as [f2 Hg2].
    unfold index_step, dict_getitem. rewrite Hg2. simpl.
    destruct (is_True i || is_True u); eauto. }
  destruct Hixs as [ixs Hixs].
  assert (Ha : exists added,
             if nonempty (names_added m1 m2)
             then exists flds,
                 mapM (dict_getitem (fields m1)) (iter_set String.eqb (names_added m1 m2))
                 = Ok flds /\ added = [CreateFields m1 flds]
             else added = []).
  { destruct (nonempty (names_added m1 m2)); [|eauto].
    destruct (@Forall2_total _ _ (fun a b => dict_getitem (fields m1) a = Ok b)
                (iter_set String.eqb (names_added m1 m2))) as [flds Hflds].
    - intros name Hn. apply iter_set_incl in Hn. unfold names_added in Hn.
      apply In_set_sub_string in Hn. destruct Hn as [Hn _].
      apply dict_get_keys in Hn. destruct Hn as [f Hg].
      unfold dict_getitem. rewrite Hg. eauto.
    - apply mapM_Forall2 in Hflds. eauto. }
  destruct Ha as [added Ha].
  eexists. apply diff_one_calls_inv. exists added, cs, ixs. repeat split; eauto.
Qed.

End Totality.

(** * Further properties *)

(** ** What [compare_fields] returns *)

Lemma py_eqb_same_kind :
  forall d1 d2,
    py_eqb d1 d2 = true ->
    is_None d1 = is_None d2
    /\ callable d1 = callable d2
    /\ isinstance_Hashable d1 = isinstance_Hashable d2.
Proof.
  intros d1 d2 H. destruct d1, d2; simpl in H; try discriminate; simpl; auto.
Qed.

Lemma set_flags_extra_params :
  forall f null index unique,
    extra_params (set_flags f null index unique) = extra_params f.
Proof.
  intros f null index unique. unfold extra_params.
  change (find_field_type (set_flags f null index unique)) with (find_field_type f).
  unfold FIELD_TO_PARAMS. simpl.
  repeat (match goal with |- context [if ?b then _ else _] => destruct b end;
          try reflexivity).
Qed.

(** The parameters [compare_fields] hashes, key by key. *)
Lemma compared_params_at :
  forall g k,
    dict_get (compared_params g) k =
    if String.eqb k "null" then Some (PyBool (field_null g))
    else if String.eqb k "index" then Some (index_param g)
    else if String.eqb k "default"
         then (if default_compared g then Some (field_default g) else None)
         else dict_get (extra_params g) k.
Proof.
  intros g k. now rewrite compared_params_get, field_to_params_get.
Qed.

Section CompareMore.

Context {set_order : SetIteration}.

Lemma compare_fields_equal_params :
  forall f1 f2,
    class_eqb (find_field_type f1) (find_field_type f2) = true ->
    hashable_params f1 = true ->
    hashable_params f2 = true ->
    (forall k v, dict_get (compared_params f1) k = Some v ->
                 exists v', dict_get (compared_params f2) k = Some v' /\ py_eqb v v' = true) ->
    compare_fields f1 f2 = Ok [].
Proof.
  intros f1 f2 Hty H1 H2 Hsub.
  pose proof (compare_fields_same_type f1 f2 (proj1 (class_eqb_eq _ _) Hty)) as Hc.
  rewrite H1, H2 in Hc. simpl in Hc.
  now rewrite (compare_fields_subsumed f1 f2 Hty Hc Hsub) in Hc.
Qed.

(** X1: for two fields of the same resolved type, the dictionary
    [compare_fields] returns has no key twice, and holds the item (k, v)
    exactly when v is the parameter k of the first field and the second
    field has no parameter k, or one that differs from v. *)
Theorem compare_fields_key_by_key :
  forall f1 f2 diff,
    class_eqb (find_field_type f1) (find_field_type f2) = true ->
    compare_fields f1 f2 = Ok diff ->
    NoDup (dict_keys diff)
    /\ forall k v,
        In (k, v) diff <->
        dict_get (compared_params f1) k = Some v
        /\ forall v', dict_get (compared_params f2) k = Some v' -> py_eqb v v' = false.
Proof.
  intros f1 f2 diff Hty Hc. apply class_eqb_eq in Hty.
  destruct (compare_fields_get f1 f2 Hty Hc) as [Hnd Hget].
  split; [exact Hnd|]. intros k v.
  assert (Hin : In (k, v) diff <-> dict_get diff k = Some v).
  { split; [now apply dict_get_NoDup | apply dict_get_In]. }
  rewrite Hin, Hget. unfold diff_at.
  destruct (dict_get (compared_params f1) k) as [v1|].
  - destruct (dict_get (compared_params f2) k) as [v2|].
    + destruct (py_eqb v1 v2) eqn:E; split.
      * discriminate.
      * intros [Hv Hne]. injection Hv as ->. specialize (Hne v2 eq_refl). congruence.
      * intros Hv. injection Hv as ->. split; [reflexivity|].
        intros v' Hv'. injection Hv' as <-. exact E.
      * intros [Hv _]. exact Hv.
    + split; [|tauto]. intros Hv. split; [exact Hv | discriminate].
  - split; [discriminate | intros [Hv _]; discriminate].
Qed.

(** X2: defaults are compared with Python's [==] on the items of a set:
    two versions of a column that differ only in their defaults, the two
    defaults being equal under [==] (as [True] and [1] are), compare
    equal. *)
Theorem equal_defaults_not_reported :
  forall f d1 d2,
    py_eqb d1 d2 = true ->
    hashable_params (set_default f d1) = true ->
    hashable_params (set_default f d2) = true ->
    compare_fields (set_default f d1) (set_default f d2) = Ok [].
Proof.
  intros f d1 d2 Heq H1 H2.
  apply compare_fields_equal_params; auto.
  - apply class_eqb_eq. reflexivity.
  - intros k v Hg. rewrite compared_params_at in Hg. rewrite compared_params_at.
    rewrite set_default_extra_params in *.
    destruct (String.eqb k "null"); [exists v; split; [exact Hg | apply py_eqb_refl]|].
    destruct (String.eqb k "index"); [exists v; split; [exact Hg | apply py_eqb_refl]|].
    destruct (String.eqb k "default"); [|exists v; split; [exact Hg | apply py_eqb_refl]].
    destruct (py_eqb_same_kind d1 d2 Heq) as [Hn [Hc Hh]].
    unfold default_compared in *. simpl in *. rewrite <- Hn, <- Hc, <- Hh.
    destruct (negb (is_None d1) && negb (callable d1) && isinstance_Hashable d1);
      [|discriminate].
    injection Hg as <-. eauto.
Qed.

(** X3: for a unique column the flag [index] does not count: the parameter
    [index] is (False, True) whatever the flag is, so two versions of a
    unique column that differ only in that flag compare equal, and the
    result of [diff_one] has no index call and no [change_not_null] call
    for the column. *)
Theorem unique_column_ignores_index_flag :
  forall m1 m2 name f null index1 index2 ops,
    dict_get (fields m1) name = Some (set_flags f null index1 true) ->
    dict_get (fields m2) name = Some (set_flags f null index2 true) ->
    diff_one_calls m1 m2 = Ok ops ->
    index_param (set_flags f null index1 true) = PyTuple [PyBool false; PyBool true]
    /\ compare_fields (set_flags f null index1 true) (set_flags f null index2 true) = Ok []
    /\ index_calls name ops = []
    /\ not_null_calls name ops = [].
Proof.
  intros m1 m2 name f null index1 index2 ops H1 H2 H.
  assert (Hip : forall i, index_param (set_flags f null i true)
                          = PyTuple [PyBool false; PyBool true]).
  { intros i. unfold index_param. simpl. now rewrite andb_false_r. }
  split; [apply Hip|].
  assert (Hty : class_eqb (find_field_type (set_flags f null index1 true))
                  (find_field_type (set_flags f null index2 true)) = true).
  { apply class_eqb_eq. reflexivity. }
  destruct (same_type_column _ _ _ H1 H2 Hty H) as [diff [Hc [_ [Hn Hi]]]].
  split; [|split].
  - assert (diff = []); [|now subst].
    apply (compare_fields_subsumed _ _ Hty Hc). intros k v Hg.
    exists v. split; [|apply py_eqb_refl].
    rewrite compared_params_at in Hg. rewrite compared_params_at.
    rewrite set_flags_extra_params in *. rewrite Hip in *. exact Hg.
  - rewrite Hi. unfold index_changes. rewrite !Hip. now rewrite py_eqb_refl.
  - rewrite Hn. unfold not_null_changes. simpl. now rewrite Bool.eqb_reflx.
Qed.

End CompareMore.

(** [users.email]: the difference is the new state of the index. *)
Lemma compare_fields_key_by_key_witness :
  NoDup (dict_keys [("index", PyTuple [PyBool true; PyBool false])])
  /\ forall k v,
      In (k, v) [("index", PyTuple [PyBool true; PyBool false])] <->
      dict_get (compared_params email_indexed) k = Some v
      /\ forall v', dict_get (compared_params email_unique) k = Some v' -> py_eqb v v' = false.
Proof.
  apply (@compare_fields_key_by_key insertion_iteration email_indexed email_unique);
    reflexivity.
Defined.

(** The default [True] against the default [1]. *)
Lemma equal_defaults_not_reported_witness :
  compare_fields (set_default stock_plain (PyBool true)) (set_default stock_plain (PyInt 1))
  = Ok [].
Proof.
  apply (@equal_defaults_not_reported insertion_iteration stock_plain (PyBool true) (PyInt 1));
    reflexivity.
Defined.

Lemma unique_column_ignores_index_flag_witness :
  index_param (set_flags email_unique false true true) = PyTuple [PyBool false; PyBool true]
  /\ compare_fields (set_flags email_unique false true true)
       (set_flags email_unique false false true) = Ok []
  /\ index_calls "email" [] = []
  /\ not_null_calls "email" [] = [].
Proof.
  apply (@unique_column_ignores_index_flag insertion_iteration
           users_unique_indexed users_unique_plain "email" email_unique false true false []);
    reflexivity.
Defined.

(** ** What [diff_one] raises *)

Section Raising.

Context {set_order : SetIteration}.

(** The turn of a column of both tables: it raises [TypeError] when the
    two versions cannot be compared, and nothing else. *)
Lemma column_diff_cases :
  forall fn1 fn2 name f1 f2,
    dict_get fn1 name = Some f1 ->
    dict_get fn2 name = Some f2 ->
    if comparable_fields f1 f2
    then exists x, column_diff fn1 fn2 name = Ok x
    else column_diff fn1 fn2 name = Raise TypeError.
Proof.
  intros fn1 fn2 name f1 f2 H1 H2. unfold comparable_fields.
  destruct (class_eqb (find_field_type f1) (find_field_type f2)) eqn:Ety; simpl.
  - apply class_eqb_eq in Ety.
    pose proof (compare_fields_same_type f1 f2 Ety) as Hc.
    destruct (hashable_params f1 && hashable_params f2).
    + rewrite (column_diff_same_type _ _ _ H1 H2 Ety Hc). eauto.
    + unfold column_diff, change_step, dict_getitem. rewrite H1, H2. simpl.
      now rewrite Hc.
  - apply class_eqb_false in Ety. rewrite (column_diff_cls _ _ _ H1 H2 Ety). eauto.
Qed.

Lemma foldM_change_step_raise :
  forall fn1 fn2 names st e,
    (forall n, In n names -> exists f1 f2, dict_get fn1 n = Some f1 /\ dict_get fn2 n = Some f2) ->
    foldM (change_step fn1 fn2) names st = Raise e ->
    e = TypeError.
Proof.
  intros fn1 fn2. induction names as [|name names IH]; intros [[a b] c] e Hn H.
  - discriminate.
  - cbn [foldM] in H. rewrite change_step_acc in H.
    destruct (Hn name (or_introl eq_refl)) as [f1 [f2 [H1 H2]]].
    pose proof (column_diff_cases fn1 fn2 name H1 H2) as Hc.
    destruct (comparable_fields f1 f2).
    + destruct Hc as [x Hx]. rewrite Hx in H. cbn [bind] in H.
      apply IH in H; [exact H|]. intros n Hin. apply Hn. now right.
    + rewrite Hc in H. cbn [bind] in H. now injection H as <-.
Qed.

Lemma common_names_get :
  forall m1 m2 n,
    In n (common_names m1 m2) ->
    exists f1 f2, dict_get (fields m1) n = Some f1 /\ dict_get (fields m2) n = Some f2.
Proof.
  intros m1 m2 n H. apply In_common_names in H. destruct H as [Ha Hb].
  apply dict_get_keys in Ha, Hb. destruct Ha as [f1 Ha], Hb as [f2 Hb]. eauto.
Qed.

(** The lookups of the loops "Add fields" and over [indexes_] find their
    keys. *)
Lemma added_fields_found :
  forall m1 m2,
    exists flds,
      mapM (dict_getitem (fields m1)) (iter_set String.eqb (names_added m1 m2)) = Ok flds.
Proof.
  intros m1 m2.
  destruct (@Forall2_total _ _ (fun a b => dict_getitem (fields m1) a = Ok b)
              (iter_set String.eqb (names_added m1 m2))) as [flds Hflds].
  - intros name Hn. apply iter_set_incl in Hn. unfold names_added in Hn.
    apply In_set_sub_string in Hn. destruct Hn as [Hn _].
    apply dict_get_keys in Hn. destruct Hn as [f Hg].
    unfold dict_getitem. rewrite Hg. eauto.
  - apply mapM_Forall2 in Hflds. eauto.
Qed.

Lemma index_steps_found :
  forall m1 m2 cs,
    Forall2 (fun name x => column_diff (fields m1) (fields m2) name = Ok x)
      (common_names m1 m2) cs ->
    exists r, flat_mapM (index_step m1 (fields m2)) (flat_map cd_indexes cs) = Ok r.
Proof.
  intros m1 m2 cs Hcs.
  destruct (@Forall2_total _ _ (fun e r => index_step m1 (fields m2) e = Ok r)
              (flat_map cd_indexes cs)) as [ixs Hixs].
  - intros [[n i] u] He.
    apply in_flat_map in He. destruct He as [x [Hx He]].
    destruct (Forall2_In_r _ Hcs Hx) as [name [Hname Hc]].
    assert (n = name) by
      (apply (proj2 (proj2 (@column_diff_names _ _ _ name x Hc)) n i u He)).
    subst n. destruct (common_names_get _ _ _ Hname) as [f1 [f2 [_ Hg2]]].
    unfold index_step, dict_getitem. rewrite Hg2. simpl.
    destruct (is_True i || is_True u); eauto.
  - exists (List.concat ixs). apply flat_mapM_Forall2. eauto.
Qed.

Lemma diff_one_calls_raise :
  forall m1 m2 e, diff_one_calls m1 m2 = Raise e -> e = TypeError.
Proof.
  intros m1 m2 e H. unfold diff_one_calls in H.
  fold (names_added m1 m2) in H. fold (names_dropped m1 m2) in H.
  fold (common_names m1 m2) in H.
  destruct (added_fields_found m1 m2) as [flds Hflds]. rewrite Hflds in H.
  assert (Ha : exists added,
             (if nonempty (names_added m1 m2)
              then flds0 <- Ok flds ;; Ok [CreateFields m1 flds0] else Ok [])
             = Ok added).
  { destruct (nonempty (names_added m1 m2)); simpl; eauto. }
  destruct Ha as [added Ha]. rewrite Ha in H. cbn [bind] in H.
  destruct (foldM _ _ _) as [[[fields_ nulls_] indexes_]|e'] eqn:Ef.
  - cbn [bind] in H.
    apply foldM_change_step in Ef. destruct Ef as [cs [Hcs Hst]].
    simpl in Hst. injection Hst as -> -> ->.
    destruct (index_steps_found m1 m2 Hcs) as [r Hr]. rewrite Hr in H. cbn [bind] in H.
    unfold set_of_indexes in H.
    destruct (forallb _ (indexes m2)); cbn [bind] in H; [|now injection H as <-].
    destruct (forallb _ (indexes m1)); cbn [bind] in H; [discriminate | now injection H as <-].
  - cbn [bind] in H. injection H as <-.
    apply (foldM_change_step_raise _ _ _ _ (common_names_get m1 m2) Ef).
Qed.

Lemma comparable_columns_common :
  forall m1 m2,
    comparable_columns m1 m2 = true <->
    forall name f1 f2,
      dict_get (fields m1) name = Some f1 -> dict_get (fields m2) name = Some f2 ->
      comparable_fields f1 f2 = true.
Proof.
  intros m1 m2. unfold comparable_columns. rewrite forallb_forall. split.
  - intros H name f1 f2 H1 H2.
    assert (Hin : In name (dict_keys (fields m1))).
    { apply dict_get_In in H1. now apply in_map with (f := fst) in H1. }
    specialize (H name Hin). now rewrite H1, H2 in H.
  - intros H name _.
    destruct (dict_get (fields m1) name) as [f1|] eqn:E1; [|reflexivity].
    destruct (dict_get (fields m2) name) as [f2|] eqn:E2; [|reflexivity].
    now apply (H name).
Qed.

(** X4: [diff_one] returns exactly when every column of both tables can be
    compared (the types of its two versions differ, or the parameters of
    both can be hashed) and the index declarations of both tables can be
    hashed; otherwise it raises [TypeError].  It never raises [KeyError]
    or [IndexError], and the parameters of a column that only one of the
    tables has are not hashed. *)
Theorem diff_one_returns_or_type_error :
  forall m1 m2,
    if comparable_tables m1 m2
    then exists ops, diff_one_calls m1 m2 = Ok ops
    else diff_one_calls m1 m2 = Raise TypeError.
Proof.
  intros m1 m2.
  destruct (diff_one_calls m1 m2) as [ops|e] eqn:E.
  - assert (Hc : comparable_tables m1 m2 = true); [|rewrite Hc; eauto].
    apply diff_one_calls_inv in E.
    destruct E as [added [cs [ixs [_ [Hcs [_ [Hi1 [Hi2 _]]]]]]]].
    unfold comparable_tables. rewrite Hi1, Hi2, !andb_true_r.
    apply comparable_columns_common. intros name f1 f2 H1 H2.
    pose proof (dict_get_common m1 m2 name H1 H2) as Hin.
    destruct (Forall2_In_l _ Hcs Hin) as [x [_ Hx]].
    pose proof (column_diff_cases _ _ name H1 H2) as Hcase.
    destruct (comparable_fields f1 f2); [reflexivity|]. congruence.
  - rewrite (diff_one_calls_raise _ _ E) in *.
    destruct (comparable_tables m1 m2) eqn:Hc; [|reflexivity].
    exfalso. unfold comparable_tables in Hc.
    apply andb_true_iff in Hc. destruct Hc as [Hc Hi2].
    apply andb_true_iff in Hc. destruct Hc as [Hc Hi1].
    assert (Hcs : exists cs,
               Forall2 (fun name x => column_diff (fields m1) (fields m2) name = Ok x)
                 (common_names m1 m2) cs).
    { apply Forall2_total. intros name Hn.
      destruct (common_names_get _ _ _ Hn) as [f1 [f2 [H1 H2]]].
      pose proof (column_diff_cases _ _ name H1 H2) as Hcase.
      rewrite (proj1 (comparable_columns_common m1 m2) Hc name f1 f2 H1 H2) in Hcase.
      exact Hcase. }
    destruct Hcs as [cs Hcs].
    destruct (index_steps_found m1 m2 Hcs) as [r Hr].
    apply flat_mapM_Forall2 in Hr. destruct Hr as [ixs [Hixs _]].
    destruct (added_fields_found m1 m2) as [flds Hflds].
    assert (Hok : exists ops, diff_one_calls m1 m2 = Ok ops).
    { eexists. apply diff_one_calls_inv.
      exists (if nonempty (names_added m1 m2) then [CreateFields m1 flds] else []), cs, ixs.
      split; [destruct (nonempty (names_added m1 m2)); eauto|].
      repeat split; eauto. }
    destruct Hok as [ops Hok]. congruence.
Qed.

End Raising.

(** A column whose default cannot be hashed makes [diff_one] raise when
    both tables have it, and not when only the old table has it. *)
Lemma unhashable_column_only_if_compared :
  diff_one_calls crates_new crates_old = Raise TypeError
  /\ diff_one_calls crates_emptied crates_old = Ok [DropFields crates_emptied ["stock"]].
Proof.
  split; reflexivity.
Qed.

(** ** The columns and indexes that [diff_one] adds and drops *)

Lemma nonempty_In :
  forall (A : Type) (l : list A), nonempty l = true <-> exists x, In x l.
Proof.
  intros A [|a l]; simpl; split.
  - discriminate.
  - intros [x []].
  - intros _. exists a. now left.
  - reflexivity.
Qed.

Lemma py_eqb_several_columns :
  forall a b, py_eqb a b = true -> several_columns a = several_columns b.
Proof.
  assert (Hlen : forall xs ys : list pyvalue,
             (fix all2 (xs ys : list pyvalue) {struct xs} : bool :=
                match xs, ys with
                | [], [] => true
                | x :: xs', y :: ys' => py_eqb x y && all2 xs' ys'
                | _, _ => false
                end) xs ys = true -> List.length xs = List.length ys).
  { induction xs as [|x xs IH]; intros [|y ys] H; try discriminate; [reflexivity|].
    apply andb_true_iff in H. simpl. f_equal. apply IH. apply H. }
  intros a b H. unfold several_columns, is_compound.
  destruct a, b; simpl in H; try discriminate; simpl; try reflexivity;
    now rewrite (Hlen _ _ H).
Qed.

Section AddedAndDropped.

Context {set_order : SetIteration}.

(** Where a call of a result of [diff_one] comes from. *)
Lemma diff_one_calls_In :
  forall m1 m2 ops c,
    diff_one_calls m1 m2 = Ok ops -> In c ops ->
    (exists flds,
        c = CreateFields m1 flds
        /\ nonempty (names_added m1 m2) = true
        /\ Forall2 (fun n f => dict_get (fields m1) n = Some f)
             (iter_set String.eqb (names_added m1 m2)) flds)
    \/ (c = DropFields m1 (iter_set String.eqb (names_dropped m1 m2))
        /\ nonempty (names_dropped m1 m2) = true)
    \/ (exists flds, c = ChangeFields m1 flds)
    \/ (exists n v, c = ChangeNotNull m1 n v)
    \/ (exists n, c = DropIndex m1 (PyStr n) \/ exists u, c = AddIndex m1 (PyStr n) u)
    \/ In c (compound_drops m1 m2)
    \/ In c (compound_adds m1 m2).
Proof.
  intros m1 m2 ops c H Hin. apply diff_one_calls_inv in H.
  destruct H as [added [cs [ixs [Ha [Hcs [Hixs [_ [_ ->]]]]]]]].
  repeat (apply in_app_or in Hin; destruct Hin as [Hin|Hin]).
  - left. destruct (nonempty (names_added m1 m2)).
    + destruct Ha as [flds [Hm ->]]. destruct Hin as [<-|[]].
      exists flds. split; [reflexivity|]. split; [reflexivity|].
      apply mapM_Forall2 in Hm. clear - Hm.
      induction Hm as [|n f ns fs Hnf _ IH]; constructor; [|exact IH].
      unfold dict_getitem in Hnf. destruct (dict_get (fields m1) n); congruence.
    + subst. contradiction.
  - right. left. destruct (nonempty (names_dropped m1 m2)); [|contradiction].
    destruct Hin as [<-|[]]. auto.
  - right. right. left. destruct (nonempty (flat_map cd_fields cs)); [|contradiction].
    destruct Hin as [<-|[]]. eauto.
  - right. right. right. left. apply in_map_iff in Hin.
    destruct Hin as [[n v] [<- _]]. eauto.
  - right. right. right. right. left.
    apply in_concat in Hin. destruct Hin as [r [Hr Hc]].
    destruct (Forall2_In_r _ Hixs Hr) as [[[n i] u] [_ Hstep]].
    exists n. unfold index_step in Hstep.
    destruct (is_True i || is_True u).
    + destruct (dict_getitem (fields m2) n) as [f2|]; simpl in Hstep; [|discriminate].
      injection Hstep as <-. apply in_app_or in Hc. destruct Hc as [Hc|[<-|[]]]; [|eauto].
      destruct (field_unique f2 || field_index f2); [|contradiction].
      destruct Hc as [<-|[]]. now left.
    + injection Hstep as <-. destruct Hc as [<-|[]]. now left.
  - tauto.
  - tauto.
Qed.

Lemma compound_adds_In :
  forall m1 m2 c,
    In c (compound_adds m1 m2) ->
    exists cols u,
      c = AddIndex m1 cols u /\ is_compound (cols, u) = true
      /\ In (cols, u) (indexes m1) /\ set_mem index_eqb (cols, u) (indexes m2) = false.
Proof.
  intros m1 m2 c H. unfold compound_adds in H. apply in_flat_map in H.
  destruct H as [[cols u] [Hi Hc]].
  destruct (is_compound (cols, u)) eqn:E; [|contradiction].
  destruct Hc as [<-|[]]. apply iter_set_incl in Hi. unfold set_sub in Hi.
  apply filter_In in Hi. destruct Hi as [Hi Hm]. apply negb_true_iff in Hm.
  exists cols, u. auto.
Qed.

Lemma compound_drops_In :
  forall m1 m2 c,
    In c (compound_drops m1 m2) ->
    exists cols u,
      c = DropIndex m1 cols /\ is_compound (cols, u) = true
      /\ In (cols, u) (indexes m2) /\ set_mem index_eqb (cols, u) (indexes m1) = false.
Proof.
  intros m1 m2 c H. unfold compound_drops in H. apply in_flat_map in H.
  destruct H as [[cols u] [Hi Hc]].
  destruct (is_compound (cols, u)) eqn:E; [|contradiction].
  destruct Hc as [<-|[]]. apply iter_set_incl in Hi. unfold set_sub in Hi.
  apply filter_In in Hi. destruct Hi as [Hi Hm]. apply negb_true_iff in Hm.
  exists cols, u. auto.
Qed.

(** An index of one table that the other does not have is reached by the
    loop, up to [==]. *)
Lemma set_sub_reached :
  forall (s1 s2 : list (pyvalue * pyvalue)) cols u,
    In (cols, u) s1 -> set_mem index_eqb (cols, u) s2 = false ->
    several_columns cols = true ->
    exists cols' u',
      In (cols', u') (iter_set index_eqb (set_sub index_eqb s1 s2))
      /\ index_eqb (cols', u') (cols, u) = true
      /\ is_compound (cols', u') = true.
Proof.
  intros s1 s2 cols u Hin Hm Hc.
  assert (Hs : In (cols, u) (set_sub index_eqb s1 s2)).
  { unfold set_sub. apply filter_In. split; [exact Hin | now rewrite Hm]. }
  pose proof (iter_set_covers index_eqb _ _ index_eqb_refl Hs) as Hcov.
  apply existsb_exists in Hcov. destruct Hcov as [[cols' u'] [Hy Heq]].
  exists cols', u'. split; [exact Hy|]. split; [exact Heq|].
  unfold index_eqb in Heq. simpl in Heq. apply andb_true_iff in Heq.
  pose proof (py_eqb_several_columns _ _ (proj1 Heq)) as Hsc.
  unfold several_columns, is_compound in *. simpl in *. now rewrite Hsc.
Qed.

(** X5: the result of [diff_one] has a [create_fields] call exactly when
    the first table has a column that the second has not; the call is for
    the first table and its fields are the fields of those columns, one
    for each such column. *)
Theorem created_fields_are_the_new_columns :
  forall m1 m2 ops,
    diff_one_calls m1 m2 = Ok ops ->
    ((exists m flds, In (CreateFields m flds) ops) <->
     (exists name, In name (dict_keys (fields m1)) /\ ~ In name (dict_keys (fields m2))))
    /\ forall m flds,
        In (CreateFields m flds) ops ->
        m = m1
        /\ exists names,
            NoDup names
            /\ (forall n, In n names <->
                          In n (dict_keys (fields m1)) /\ ~ In n (dict_keys (fields m2)))
            /\ Forall2 (fun n f => dict_get (fields m1) n = Some f) names flds.
Proof.
  intros m1 m2 ops H.
  assert (Hnames : forall n, In n (iter_set String.eqb (names_added m1 m2)) <->
                             In n (dict_keys (fields m1)) /\ ~ In n (dict_keys (fields m2))).
  { intros n. rewrite iter_set_names_In. apply In_set_sub_string. }
  assert (Hsound : forall m flds,
             In (CreateFields m flds) ops ->
             m = m1 /\ nonempty (names_added m1 m2) = true
             /\ Forall2 (fun n f => dict_get (fields m1) n = Some f)
                  (iter_set String.eqb (names_added m1 m2)) flds).
  { intros m flds Hin.
    destruct (@diff_one_calls_In m1 m2 ops _ H Hin)
      as [[flds' [Hc [Hn HF]]]|[[Hc _]|[[? Hc]|[[? [? Hc]]|[[? [Hc|[? Hc]]]|[Hc|Hc]]]]]];
      try discriminate.
    - injection Hc as -> ->. auto.
    - apply compound_drops_In in Hc. destruct Hc as [? [? [Hc _]]]. discriminate.
    - apply compound_adds_In in Hc. destruct Hc as [? [? [Hc _]]]. discriminate. }
  split.
  - split.
    + intros [m [flds Hin]]. destruct (Hsound m flds Hin) as [_ [Hn _]].
      apply nonempty_In in Hn. destruct Hn as [name Hn].
      exists name. unfold names_added in Hn. now apply In_set_sub_string in Hn.
    + intros [name Hn].
      assert (Hne : nonempty (names_added m1 m2) = true).
      { apply nonempty_In. exists name. unfold names_added. now apply In_set_sub_string. }
      apply diff_one_calls_inv in H.
      destruct H as [added [cs [ixs [Ha [_ [_ [_ [_ ->]]]]]]]].
      rewrite Hne in Ha. destruct Ha as [flds [_ ->]].
      exists m1, flds. now left.
  - intros m flds Hin. destruct (Hsound m flds Hin) as [Hm [_ HF]].
    split; [exact Hm|]. exists (iter_set String.eqb (names_added m1 m2)).
    split; [apply iter_set_names_NoDup|]. split; [exact Hnames | exact HF].
Qed.

(** X6: the result of [diff_one] has a [drop_fields] call exactly when the
    second table has a column that the first has not; the call is for the
    first table and lists the names of those columns, each once. *)
Theorem dropped_fields_are_the_old_columns :
  forall m1 m2 ops,
    diff_one_calls m1 m2 = Ok ops ->
    ((exists m names, In (DropFields m names) ops) <->
     (exists name, In name (dict_keys (fields m2)) /\ ~ In name (dict_keys (fields m1))))
    /\ forall m names,
        In (DropFields m names) ops ->
        m = m1
        /\ NoDup names
        /\ forall n, In n names <->
                     In n (dict_keys (fields m2)) /\ ~ In n (dict_keys (fields m1)).
Proof.
  intros m1 m2 ops H.
  assert (Hsound : forall m names,
             In (DropFields m names) ops ->
             m = m1 /\ names = iter_set String.eqb (names_dropped m1 m2)
             /\ nonempty (names_dropped m1 m2) = true).
  { intros m names Hin.
    destruct (@diff_one_calls_In m1 m2 ops _ H Hin)
      as [[flds' [Hc _]]|[[Hc Hn]|[[? Hc]|[[? [? Hc]]|[[? [Hc|[? Hc]]]|[Hc|Hc]]]]]];
      try discriminate.
    - injection Hc as -> ->. auto.
    - apply compound_drops_In in Hc. destruct Hc as [? [? [Hc _]]]. discriminate.
    - apply compound_adds_In in Hc. destruct Hc as [? [? [Hc _]]]. discriminate. }
  split.
  - split.
    + intros [m [names Hin]]. destruct (Hsound m names Hin) as [_ [_ Hn]].
      apply nonempty_In in Hn. destruct Hn as [name Hn].
      exists name. unfold names_dropped in Hn. now apply In_set_sub_string in Hn.
    + intros [name Hn].
      assert (Hne : nonempty (names_dropped m1 m2) = true).
      { apply nonempty_In. exists name. unfold names_dropped. now apply In_set_sub_string. }
      apply diff_one_calls_inv in H.
      destruct H as [added [cs [ixs [_ [_ [_ [_ [_ ->]]]]]]]].
      rewrite Hne.
      exists m1, (iter_set String.eqb (names_dropped m1 m2)).
      apply in_or_app. right. now left.
  - intros m names Hin. destruct (Hsound m names Hin) as [Hm [-> _]].
    split; [exact Hm|]. split; [apply iter_set_names_NoDup|].
    intros n. rewrite iter_set_names_In. apply In_set_sub_string.
Qed.

(** X7: the index calls of [diff_one] for several columns are those of the
    declarations [indexes]: an [add_index] call for several columns is a
    declaration of the first table that the second table has not, a
    [drop_index] call for several columns one of the second table that the
    first has not; and each such declaration on several columns gets its
    call, up to [==].  So a declaration whose unique flag alone changes is
    dropped and added. *)
Theorem compound_index_calls :
  forall m1 m2 ops,
    diff_one_calls m1 m2 = Ok ops ->
    (forall m cols u,
        In (AddIndex m cols u) ops -> several_columns cols = true ->
        m = m1 /\ In (cols, u) (indexes m1)
        /\ set_mem index_eqb (cols, u) (indexes m2) = false)
    /\ (forall m cols,
        In (DropIndex m cols) ops -> several_columns cols = true ->
        m = m1 /\ exists u, In (cols, u) (indexes m2)
                            /\ set_mem index_eqb (cols, u) (indexes m1) = false)
    /\ (forall cols u,
        In (cols, u) (indexes m1) -> several_columns cols = true ->
        set_mem index_eqb (cols, u) (indexes m2) = false ->
        exists cols' u',
          In (AddIndex m1 cols' u') ops /\ index_eqb (cols', u') (cols, u) = true)
    /\ (forall cols u,
        In (cols, u) (indexes m2) -> several_columns cols = true ->
        set_mem index_eqb (cols, u) (indexes m1) = false ->
        exists cols' u',
          In (DropIndex m1 cols') ops /\ index_eqb (cols', u') (cols, u) = true).
Proof.
  intros m1 m2 ops H. split; [|split; [|split]].
  - intros m cols u Hin Hsc.
    destruct (@diff_one_calls_In m1 m2 ops _ H Hin)
      as [[? [Hc _]]|[[Hc _]|[[? Hc]|[[? [? Hc]]|[[? [Hc|[? Hc]]]|[Hc|Hc]]]]]];
      try discriminate.
    + injection Hc as -> -> ->. discriminate Hsc.
    + apply compound_drops_In in Hc. destruct Hc as [? [? [Hc _]]]. discriminate.
    + apply compound_adds_In in Hc. destruct Hc as [cols' [u' [Hc [_ [Hi Hm]]]]].
      injection Hc as -> -> ->. auto.
  - intros m cols Hin Hsc.
    destruct (@diff_one_calls_In m1 m2 ops _ H Hin)
      as [[? [Hc _]]|[[Hc _]|[[? Hc]|[[? [? Hc]]|[[? [Hc|[? Hc]]]|[Hc|Hc]]]]]];
      try discriminate.
    + injection Hc as -> ->. discriminate Hsc.
    + apply compound_drops_In in Hc. destruct Hc as [cols' [u' [Hc [_ [Hi Hm]]]]].
      injection Hc as -> ->. eauto.
    + apply compound_adds_In in Hc. destruct Hc as [? [? [Hc _]]]. discriminate.
  - intros cols u Hin Hsc Hm.
    destruct (set_sub_reached (indexes m1) (indexes m2) cols u Hin Hm Hsc)
      as [cols' [u' [Hy [Heq Hc']]]].
    exists cols', u'. split; [|exact Heq].
    apply diff_one_calls_inv in H.
    destruct H as [added [cs [ixs [_ [_ [_ [_ [_ ->]]]]]]]].
    repeat (apply in_or_app; right).
    unfold compound_adds. apply in_flat_map. exists (cols', u').
    split; [exact Hy|]. rewrite Hc'. now left.
  - intros cols u Hin Hsc Hm.
    destruct (set_sub_reached (indexes m2) (indexes m1) cols u Hin Hm Hsc)
      as [cols' [u' [Hy [Heq Hc']]]].
    exists cols', u'. split; [|exact Heq].
    apply diff_one_calls_inv in H.
    destruct H as [added [cs [ixs [_ [_ [_ [_ [_ ->]]]]]]]].
    do 5 (apply in_or_app; right). apply in_or_app. left.
    unfold compound_drops. apply in_flat_map. exists (cols', u').
    split; [exact Hy|]. rewrite Hc'. now left.
Qed.

(** X8: every index call of [diff_one] names one column by a string, or
    more than one column by a tuple or a list: an index that [indexes]
    declares on a single column is neither added nor dropped. *)
Theorem index_calls_well_formed :
  forall m1 m2 ops,
    diff_one_calls m1 m2 = Ok ops ->
    forallb index_call_well_formed ops = true.
Proof.
  intros m1 m2 ops H. apply forallb_forall. intros c Hin.
  destruct (@diff_one_calls_In m1 m2 ops _ H Hin)
    as [[? [-> _]]|[[-> _]|[[? ->]|[[? [? ->]]|[[? [->|[? ->]]]|[Hc|Hc]]]]]];
    try reflexivity.
  - apply compound_drops_In in Hc. destruct Hc as [cols [u [-> [Hc _]]]].
    unfold is_compound in Hc. simpl in Hc.
    destruct cols; try discriminate; exact Hc.
  - apply compound_adds_In in Hc. destruct Hc as [cols [u [-> [Hc _]]]].
    unfold is_compound in Hc. simpl in Hc.
    destruct cols; try discriminate; exact Hc.
Qed.

End AddedAndDropped.

Lemma created_fields_are_the_new_columns_witness :
  ((exists m flds, In (CreateFields m flds) stores_calls) <->
   (exists name, In name (dict_keys (fields stores_new))
                 /\ ~ In name (dict_keys (fields stores_old))))
  /\ forall m flds,
      In (CreateFields m flds) stores_calls ->
      m = stores_new
      /\ exists names,
          NoDup names
          /\ (forall n, In n names <->
                        In n (dict_keys (fields stores_new))
                        /\ ~ In n (dict_keys (fields stores_old)))
          /\ Forall2 (fun n f => dict_get (fields stores_new) n = Some f) names flds.
Proof.
  apply (@created_fields_are_the_new_columns insertion_iteration stores_new stores_old).
  reflexivity.
Defined.

Lemma dropped_fields_are_the_old_columns_witness :
  ((exists m names, In (DropFields m names) stores_calls) <->
   (exists name, In name (dict_keys (fields stores_old))
                 /\ ~ In name (dict_keys (fields stores_new))))
  /\ forall m names,
      In (DropFields m names) stores_calls ->
      m = stores_new
      /\ NoDup names
      /\ forall n, In n names <->
                   In n (dict_keys (fields stores_old))
                   /\ ~ In n (dict_keys (fields stores_new)).
Proof.
  apply (@dropped_fields_are_the_old_columns insertion_iteration stores_new stores_old).
  reflexivity.
Defined.

Lemma compound_index_calls_witness :
  (forall m cols u,
      In (AddIndex m cols u) tags_calls -> several_columns cols = true ->
      m = tags_new /\ In (cols, u) (indexes tags_new)
      /\ set_mem index_eqb (cols, u) (indexes tags_old) = false)
  /\ (forall m cols,
      In (DropIndex m cols) tags_calls -> several_columns cols = true ->
      m = tags_new /\ exists u, In (cols, u) (indexes tags_old)
                                /\ set_mem index_eqb (cols, u) (indexes tags_new) = false)
  /\ (forall cols u,
      In (cols, u) (indexes tags_new) -> several_columns cols = true ->
      set_mem index_eqb (cols, u) (indexes tags_old) = false ->
      exists cols' u',
        In (AddIndex tags_new cols' u') tags_calls /\ index_eqb (cols', u') (cols, u) = true)
  /\ (forall cols u,
      In (cols, u) (indexes tags_old) -> several_columns cols = true ->
      set_mem index_eqb (cols, u) (indexes tags_new) = false ->
      exists cols' u',
        In (DropIndex tags_new cols') tags_calls /\ index_eqb (cols', u') (cols, u) = true).
Proof.
  apply (@compound_index_calls insertion_iteration tags_new tags_old).
  reflexivity.
Defined.

Lemma index_calls_well_formed_witness :
  forallb index_call_well_formed tags_calls = true.
Proof.
  apply (@index_calls_well_formed insertion_iteration tags_new tags_old).
  reflexivity.
Defined.

(** ** What [diff_many] creates and removes *)

Lemma Forall2_map_l :
  forall (A B C : Type) (g : A -> B) (R : B -> C -> Prop) l rs,
    Forall2 R (map g l) rs -> Forall2 (fun a r => R (g a) r) l rs.
Proof.
  induction l as [|a l IH]; intros rs H; inversion H; subst; constructor; auto.
Qed.

Lemma NoDup_filter :
  forall (A : Type) (p : A -> bool) (l : list A), NoDup l -> NoDup (filter p l).
Proof.
  induction l as [|a l IH]; simpl; intros H; [constructor|].
  inversion H; subst. destruct (p a); [constructor|]; auto.
  rewrite filter_In. tauto.
Qed.

Section SchemaMore.

Context {set_order : SetIteration} {sorter : SortModels}.

(** The anatomy of a result of [diff_many], with the origin of the calls
    of [diff_one]. *)
Lemma diff_many_calls_anatomy :
  forall models1 models2 reverse ops,
    names_distinct (map table_name models1) = true ->
    names_distinct (map table_name models2) = true ->
    diff_many_calls models1 models2 reverse = Ok ops ->
    exists sorted1 sorted2 rs,
      sort_models models1 = Ok sorted1
      /\ sort_models models2 = Ok sorted2
      /\ Forall2 (fun m1 r =>
                    (name_mem (table_name m1) (map table_name models2) = false /\ r = [])
                    \/ exists m2, In m2 models2 /\ table_name m2 = table_name m1
                                  /\ diff_one_calls m1 m2 = Ok r)
           (if reverse then rev sorted1 else sorted1) rs
      /\ ops =
         List.concat rs
         ++ map CreateModel
              (filter (fun m => negb (name_mem (table_name m) (map table_name models2)))
                 (if reverse then rev sorted1 else sorted1))
         ++ map RemoveModel
              (filter (fun m => negb (name_mem (table_name m) (map table_name models1)))
                 (if reverse then rev sorted2 else sorted2)).
Proof.
  intros models1 models2 reverse ops Hd1 Hd2 H. unfold diff_many_calls in H.
  destruct (sort_models models1) as [sorted1|] eqn:E1; simpl in H; [|discriminate].
  destruct (sort_models models2) as [sorted2|] eqn:E2; simpl in H; [|discriminate].
  set (l1 := if reverse then rev sorted1 else sorted1) in *.
  set (l2 := if reverse then rev sorted2 else sorted2) in *.
  assert (Hin1 : forall m, In m l1 <-> In m models1).
  { intros m. rewrite <- (sort_models_In _ E1 m). unfold l1.
    destruct reverse; [symmetry; apply in_rev | reflexivity]. }
  assert (Hin2 : forall m, In m l2 <-> In m models2).
  { intros m. rewrite <- (sort_models_In _ E2 m). unfold l2.
    destruct reverse; [symmetry; apply in_rev | reflexivity]. }
  assert (Hnd1 : NoDup (map table_name l1)).
  { apply NoDup_map_incl with (l' := models1).
    - unfold l1. pose proof (sort_models_NoDup _ E1).
      destruct reverse; [now apply NoDup_rev | assumption].
    - intros m. apply Hin1.
    - now apply names_distinct_NoDup. }
  assert (Hnd2 : NoDup (map table_name l2)).
  { apply NoDup_map_incl with (l' := models2).
    - unfold l2. pose proof (sort_models_NoDup _ E2).
      destruct reverse; [now apply NoDup_rev | assumption].
    - intros m. apply Hin2.
    - now apply names_distinct_NoDup. }
  assert (Hc1 : forall n, dict_contains (models_map l1) n = name_mem n (map table_name models1)).
  { intros n. apply eq_true_iff_eq.
    rewrite dict_contains_keys, models_map_keys, name_mem_In, !in_map_iff.
    split; intros [m [Hm Hin]]; exists m; split; auto; now apply Hin1. }
  assert (Hc2 : forall n, dict_contains (models_map l2) n = name_mem n (map table_name models2)).
  { intros n. apply eq_true_iff_eq.
    rewrite dict_contains_keys, models_map_keys, name_mem_In, !in_map_iff.
    split; intros [m [Hm Hin]]; exists m; split; auto; now apply Hin2. }
  destruct (flat_mapM _ (models_map l1)) as [changes|] eqn:Ec; simpl in H; [|discriminate].
  assert (Hk1 : dict_keys (models_map l1) = map table_name l1).
  { rewrite models_map_fresh by exact Hnd1. unfold dict_keys. now rewrite map_map. }
  assert (Hk2 : dict_keys (models_map l2) = map table_name l2).
  { rewrite models_map_fresh by exact Hnd2. unfold dict_keys. now rewrite map_map. }
  rewrite Hk1, Hk2 in H.
  rewrite (model_calls CreateModel (models_map l1) (models_map l2) l1) in H
    by (intros m Hm; now apply models_map_get).
  rewrite (model_calls RemoveModel (models_map l2) (models_map l1) l2) in H
    by (intros m Hm; now apply models_map_get).
  simpl in H. injection H as <-.
  apply flat_mapM_Forall2 in Ec. destruct Ec as [rs [HF ->]].
  exists sorted1, sorted2, rs. split; [reflexivity|]. split; [reflexivity|]. split.
  - rewrite (models_map_fresh l1 Hnd1) in HF. apply Forall2_map_l in HF.
    eapply Forall2_impl; [|exact HF]. intros m1 r Hr. simpl in Hr.
    rewrite Hc2 in Hr.
    destruct (name_mem (table_name m1) (map table_name models2)) eqn:Em; simpl in Hr.
    + right. unfold dict_getitem in Hr.
      destruct (dict_get (models_map l2) (table_name m1)) as [m2|] eqn:Eg;
        simpl in Hr; [|discriminate].
      apply dict_get_In in Eg. apply models_map_values in Eg. destruct Eg as [Hm2 Hn].
      exists m2. split; [now apply Hin2|]. split; [now symmetry | exact Hr].
    + left. split; [reflexivity | now injection Hr].
  - f_equal. f_equal.
    + f_equal. apply filter_ext. intros m. now rewrite Hc2.
    + f_equal. apply filter_ext. intros m. now rewrite Hc1.
Qed.

(** X9: on schemas whose table names do not repeat, the result of
    [diff_many] is, for the models of the first schema in the order of
    [sort_models] (the other way round under [reverse]), the calls of
    [diff_one] of each model against the model of the second schema with
    the same table name, nothing for a model without one; then one
    [create_model] for each model of the first schema whose table name
    the second schema has not, in that order; then one [remove_model] for
    each model of the second schema whose table name the first has not,
    in the order of its sorted list.  The sorted lists hold the models of
    the schemas, each once, and no call of [diff_one] is a [create_model]
    or a [remove_model]. *)
Theorem diff_many_creates_and_removes :
  forall models1 models2 reverse ops,
    names_distinct (map table_name models1) = true ->
    names_distinct (map table_name models2) = true ->
    diff_many_calls models1 models2 reverse = Ok ops ->
    exists sorted1 sorted2 rs,
      sort_models models1 = Ok sorted1
      /\ sort_models models2 = Ok sorted2
      /\ NoDup sorted1 /\ (forall m, In m sorted1 <-> In m models1)
      /\ NoDup sorted2 /\ (forall m, In m sorted2 <-> In m models2)
      /\ Forall2 (paired_calls models2) (in_direction reverse sorted1) rs
      /\ (forall c, In c (List.concat rs) -> is_model_call c = false)
      /\ ops =
         List.concat rs
         ++ map CreateModel (filter (lacking models2) (in_direction reverse sorted1))
         ++ map RemoveModel (filter (lacking models1) (in_direction reverse sorted2)).
Proof.
  intros models1 models2 reverse ops Hd1 Hd2 H.
  destruct (diff_many_calls_anatomy _ _ _ Hd1 Hd2 H)
    as [sorted1 [sorted2 [rs [E1 [E2 [HF ->]]]]]].
  assert (HP : Forall2 (paired_calls models2) (in_direction reverse sorted1) rs).
  { eapply Forall2_impl; [|exact HF]. intros m1 r Hr. unfold paired_calls.
    destruct Hr as [[Hn ->]|[m2 [Hm2 [Hn Hd]]]].
    - now rewrite Hn.
    - assert (Hmem : name_mem (table_name m1) (map table_name models2) = true).
      { apply name_mem_In. apply in_map_iff. exists m2. auto. }
      rewrite Hmem. exists m2. auto. }
  exists sorted1, sorted2, rs.
  split; [exact E1|]. split; [exact E2|].
  split; [exact (sort_models_NoDup _ E1)|]. split; [exact (sort_models_In _ E1)|].
  split; [exact (sort_models_NoDup _ E2)|]. split; [exact (sort_models_In _ E2)|].
  split; [exact HP|]. split; [|reflexivity].
  intros c Hc. apply in_concat in Hc. destruct Hc as [r [Hr Hc]].
  destruct (Forall2_In_r _ HF Hr) as [m1 [_ [[_ ->]|[m2 [_ [_ Hd]]]]]];
    [contradiction|].
  now apply (@diff_one_calls_no_model _ m1 m2 r c Hd).
Qed.

(** X10: the direction [reverse] turns both orders round.  When the model
    [T1] has a foreign key to another model [T2]: with [reverse] set and
    both models in the first schema only, [create_model] for [T1] comes
    before [create_model] for [T2]; without [reverse] and both models in
    the second schema only, [remove_model] for [T2] comes before
    [remove_model] for [T1]. *)
Theorem diff_many_other_direction :
  forall models1 models2 T1 T2,
    names_distinct (map table_name models1) = true ->
    names_distinct (map table_name models2) = true ->
    references T1 T2 ->
    String.eqb (table_name T1) (table_name T2) = false ->
    (forall ops,
        In T1 models1 -> In T2 models1 ->
        name_mem (table_name T1) (map table_name models2) = false ->
        name_mem (table_name T2) (map table_name models2) = false ->
        diff_many_calls models1 models2 true = Ok ops ->
        all_before (CreateModel T1) (CreateModel T2) ops)
    /\ (forall ops,
        In T1 models2 -> In T2 models2 ->
        name_mem (table_name T1) (map table_name models1) = false ->
        name_mem (table_name T2) (map table_name models1) = false ->
        diff_many_calls models1 models2 false = Ok ops ->
        all_before (RemoveModel T2) (RemoveModel T1) ops).
Proof.
  intros models1 models2 T1 T2 Hd1 Hd2 Href Hne.
  apply String.eqb_neq in Hne. split.
  - intros ops H1 H2 Hn1 Hn2 H.
    destruct (diff_many_calls_inv _ _ _ Hd1 Hd2 H)
      as [sorted1 [sorted2 [changes [E1 [E2 [Hch ->]]]]]].
    apply all_before_app.
    + apply all_before_map; [intros a b Hab; now injection Hab|].
      apply all_before_filter; [|now rewrite Hn1 | now rewrite Hn2].
      apply all_before_rev. now apply (sort_models_order _ E1).
    + intros Hc. apply Hch in Hc. discriminate.
    + intros Hc. apply in_map_iff in Hc. destruct Hc as [? [? _]]. discriminate.
  - intros ops H1 H2 Hn1 Hn2 H.
    destruct (diff_many_calls_inv _ _ _ Hd1 Hd2 H)
      as [sorted1 [sorted2 [changes [E1 [E2 [Hch ->]]]]]].
    rewrite app_assoc. rewrite <- (app_nil_r (map RemoveModel _)).
    apply all_before_app.
    + apply all_before_map; [intros a b Hab; now injection Hab|].
      apply all_before_filter; [|now rewrite Hn2 | now rewrite Hn1].
      now apply (sort_models_order _ E2).
    + intros Hc. apply in_app_or in Hc. destruct Hc as [Hc|Hc].
      * apply Hch in Hc. discriminate.
      * apply in_map_iff in Hc. destruct Hc as [? [? _]]. discriminate.
    + intros [].
Qed.

(** X11: against an empty schema [diff_many] returns nothing but
    [create_model] calls, one for each model in the order of
    [sort_models] (reversed under [reverse]); and an empty first schema
    gives nothing but the [remove_model] calls, in that order. *)
Theorem diff_many_against_empty :
  forall models reverse,
    names_distinct (map table_name models) = true ->
    (forall ops,
        diff_many_calls models [] reverse = Ok ops ->
        exists sorted,
          sort_models models = Ok sorted
          /\ ops = map CreateModel (if reverse then rev sorted else sorted))
    /\ (forall ops,
        diff_many_calls [] models reverse = Ok ops ->
        exists sorted,
          sort_models models = Ok sorted
          /\ ops = map RemoveModel (if reverse then rev sorted else sorted)).
Proof.
  intros models reverse Hd.
  assert (Hnil : forall sorted, sort_models [] = Ok sorted -> sorted = []).
  { intros [|m l] Hs; [reflexivity|].
    exfalso. apply (proj1 (sort_models_In _ Hs m)). now left. }
  split.
  - intros ops H.
    destruct (@diff_many_calls_anatomy models [] reverse ops Hd eq_refl H)
      as [sorted1 [sorted2 [rs [E1 [E2 [HF ->]]]]]].
    rewrite (Hnil _ E2). exists sorted1. split; [exact E1|].
    assert (Hrs : List.concat rs = []).
    { clear - HF. induction HF as [|m r l rs Hr _ IH]; [reflexivity|].
      simpl. rewrite IH. destruct Hr as [[_ ->]|[m2 [[] _]]]. reflexivity. }
    rewrite Hrs. simpl. destruct reverse; simpl; rewrite app_nil_r;
      f_equal; apply filter_all; reflexivity.
  - intros ops H.
    destruct (@diff_many_calls_anatomy [] models reverse ops eq_refl Hd H)
      as [sorted1 [sorted2 [rs [E1 [E2 [HF ->]]]]]].
    rewrite (Hnil _ E1) in *. exists sorted2. split; [exact E2|].
    assert (Hrs : rs = []).
    { destruct reverse; inversion HF; reflexivity. }
    rewrite Hrs. destruct reverse; simpl; f_equal; apply filter_all; reflexivity.
Qed.

End SchemaMore.

Lemma diff_many_creates_and_removes_witness :
  exists sorted1 sorted2 rs,
    sort_models [stores_new; customers] = Ok sorted1
    /\ sort_models [stores_old] = Ok sorted2
    /\ NoDup sorted1 /\ (forall m, In m sorted1 <-> In m [stores_new; customers])
    /\ NoDup sorted2 /\ (forall m, In m sorted2 <-> In m [stores_old])
    /\ Forall2 (paired_calls [stores_old]) (in_direction false sorted1) rs
    /\ (forall c, In c (List.concat rs) -> is_model_call c = false)
    /\ stores_calls ++ [CreateModel customers] =
       List.concat rs
       ++ map CreateModel (filter (lacking [stores_old]) (in_direction false sorted1))
       ++ map RemoveModel (filter (lacking [stores_new; customers])
                             (in_direction false sorted2)).
Proof.
  apply (@diff_many_creates_and_removes insertion_iteration reference_sorter
           [stores_new; customers] [stores_old] false);
    reflexivity.
Defined.

Lemma diff_many_other_direction_witness :
  all_before (CreateModel orders) (CreateModel customers)
    [CreateModel orders; CreateModel customers]
  /\ all_before (RemoveModel customers) (RemoveModel orders)
       [RemoveModel customers; RemoveModel orders].
Proof.
  assert (Href : references orders customers).
  { exists "customer", customer_column. split; [simpl; auto | reflexivity]. }
  split.
  - apply (proj1 (@diff_many_other_direction insertion_iteration reference_sorter
                    [orders; customers] [] orders customers
                    eq_refl eq_refl Href eq_refl));
      try reflexivity; simpl; auto.
  - apply (proj2 (@diff_many_other_direction insertion_iteration reference_sorter
                    [] [orders; customers] orders customers
                    eq_refl eq_refl Href eq_refl));
      try reflexivity; simpl; auto.
Defined.

Lemma diff_many_against_empty_witness :
  (exists sorted,
      sort_models [orders; customers] = Ok sorted
      /\ [CreateModel customers; CreateModel orders] = map CreateModel sorted)
  /\ (exists sorted,
      sort_models [orders; customers] = Ok sorted
      /\ [RemoveModel customers; RemoveModel orders] = map RemoveModel sorted).
Proof.
  destruct (@diff_many_against_empty insertion_iteration reference_sorter
              [orders; customers] false eq_refl) as [H1 H2].
  split; [apply H1 | apply H2]; reflexivity.
Defined.

(** ** The text of the index statements and of a column *)

Lemma string_app_assoc :
  forall a b c : string, ((a ++ b) ++ c = a ++ (b ++ c))%string.
Proof.
  induction a as [|x a IH]; intros b c; simpl; [reflexivity | now rewrite IH].
Qed.

Lemma string_app_nil_r : forall a : string, (a ++ "" = a)%string.
Proof.
  induction a as [|x a IH]; simpl; [reflexivity | now rewrite IH].
Qed.

Lemma lstrip_padded :
  forall chars p c t,
    all_in chars p = true -> char_in c chars = false ->
    lstrip chars (p ++ String c t) = String c t.
Proof.
  intros chars p c t. induction p as [|x p IH]; simpl; intros Hp Hc.
  - now rewrite Hc.
  - unfold all_in in Hp. simpl in Hp. apply andb_true_iff in Hp.
    destruct Hp as [Hx Hp]. rewrite Hx. now apply IH.
Qed.

Lemma lstrip_all_in :
  forall chars p, all_in chars p = true -> lstrip chars p = "".
Proof.
  intros chars p. induction p as [|x p IH]; simpl; intros Hp; [reflexivity|].
  unfold all_in in Hp. simpl in Hp. apply andb_true_iff in Hp.
  destruct Hp as [Hx Hp]. rewrite Hx. now apply IH.
Qed.

Lemma rstrip_all_in :
  forall chars p, all_in chars p = true -> rstrip chars p = "".
Proof.
  intros chars p. induction p as [|x p IH]; simpl; intros Hp; [reflexivity|].
  unfold all_in in Hp. simpl in Hp. apply andb_true_iff in Hp.
  destruct Hp as [Hx Hp]. rewrite (IH Hp). now rewrite Hx.
Qed.

Lemma rstrip_app :
  forall chars s p,
    rstrip chars (s ++ p) =
    match rstrip chars p with
    | EmptyString => rstrip chars s
    | r => (s ++ r)%string
    end.
Proof.
  intros chars s p. induction s as [|c s IH]; simpl.
  - now destruct (rstrip chars p).
  - rewrite IH. destruct (rstrip chars p) as [|a r]; [reflexivity|].
    now destruct s.
Qed.

Lemma rstrip_ends :
  forall chars t c,
    char_in c chars = false -> rstrip chars (t ++ String c "") = (t ++ String c "")%string.
Proof.
  intros chars t c Hc. rewrite rstrip_app. simpl. now rewrite Hc.
Qed.

Lemma rstrip_padded :
  forall chars t c p,
    all_in chars p = true -> char_in c chars = false ->
    rstrip chars ((t ++ String c "") ++ p) = (t ++ String c "")%string.
Proof.
  intros chars t c p Hp Hc. rewrite rstrip_app, (rstrip_all_in _ _ Hp).
  now apply rstrip_ends.
Qed.

(** A text between two paddings, which starts and ends with a character
    that is not stripped. *)
Lemma strip_padded :
  forall chars p1 p2 c t c' t',
    all_in chars p1 = true -> all_in chars p2 = true ->
    char_in c chars = false -> char_in c' chars = false ->
    String c t = (t' ++ String c' "")%string ->
    strip chars (p1 ++ String c t ++ p2) = String c t.
Proof.
  intros chars p1 p2 c t c' t' H1 H2 Hc Hc' He. unfold strip.
  change (String c t ++ p2)%string with (String c (t ++ p2)).
  rewrite lstrip_padded by assumption.
  change (String c (t ++ p2)) with (String c t ++ p2)%string.
  rewrite He. rewrite rstrip_padded by assumption. reflexivity.
Qed.

Lemma strip_blank :
  forall chars p, all_in chars p = true -> strip chars p = "".
Proof.
  intros chars p H. unfold strip. now rewrite lstrip_all_in.
Qed.

Lemma all_in_app :
  forall chars a b, all_in chars (a ++ b) = all_in chars a && all_in chars b.
Proof.
  intros chars a b. induction a as [|x a IH]; simpl; [reflexivity|].
  unfold all_in in *. simpl. now rewrite IH, andb_assoc.
Qed.

Lemma last_char_split :
  forall s c, exists t, String c s = (t ++ String (last_char s c) "")%string.
Proof.
  induction s as [|x s IH]; intros c; simpl.
  - now exists "".
  - destruct (IH x) as [t Ht]. exists (String c t). simpl. now rewrite <- Ht.
Qed.

(** [repr] of a string starts and ends with a quote. *)
Lemma repr_str_quoted :
  forall s, exists q body,
    repr_str s = String q (body ++ String q "")
    /\ (q = "'"%char \/ q = double_quote).
Proof.
  intros s. unfold repr_str.
  destruct (char_in "'"%char s && negb (char_in double_quote s));
    eexists _, _; (split; [reflexivity|]); auto.
Qed.

Lemma join_cons :
  forall sep x y l, join sep (x :: y :: l) = (x ++ sep ++ join sep (y :: l))%string.
Proof. reflexivity. Qed.

(** Several quoted texts joined start and end with a quote. *)
Lemma join_quoted :
  forall sep l x,
    (forall y, In y (x :: l) ->
               exists q body, y = String q (body ++ String q "")
                              /\ (q = "'"%char \/ q = double_quote)) ->
    exists q t q' t',
      join sep (x :: l) = String q t
      /\ String q t = (t' ++ String q' "")%string
      /\ (q = "'"%char \/ q = double_quote)
      /\ (q' = "'"%char \/ q' = double_quote).
Proof.
  intros sep l. induction l as [|y l IH]; intros x H.
  - destruct (H x (or_introl eq_refl)) as [q [body [-> Hq]]].
    exists q, (body ++ String q "")%string, q, (String q body). simpl. auto.
  - destruct (H x (or_introl eq_refl)) as [q [body [Ex Hq]]].
    destruct (IH y (fun z Hz => H z (or_intror Hz))) as [q1 [t1 [q' [t' [E1 [E2 [_ Hq']]]]]]].
    rewrite join_cons, E1, E2, Ex.
    exists q, ((body ++ String q "") ++ sep ++ t' ++ String q' "")%string,
      q', (String q (body ++ String q "") ++ sep ++ t')%string.
    split; [reflexivity|]. split; [|auto].
    simpl. f_equal. now rewrite !string_app_assoc.
Qed.

Lemma all_names_map :
  forall xs names, all_names xs = Some names -> xs = map PyStr names.
Proof.
  induction xs as [|x xs IH]; intros names H; simpl in H.
  - injection H as <-. reflexivity.
  - destruct x; try discriminate.
    destruct (all_names xs) as [l|]; simpl in H; [|discriminate].
    injection H as <-. simpl. now rewrite (IH l).
Qed.

Lemma map_py_repr_names :
  forall names, map py_repr (map PyStr names) = map repr_str names.
Proof.
  intros names. rewrite map_map. apply map_ext. reflexivity.
Qed.

(** What [repr(name).strip("()[]")] gives. *)
Lemma stripped_columns :
  forall name names,
    index_names name = Some names ->
    strip "()[]" (py_repr name) = columns_text names.
Proof.
  intros name names H.
  assert (Hq : forall q, q = "'"%char \/ q = double_quote -> char_in q "()[]" = false).
  { intros q [->| ->]; reflexivity. }
  assert (Hl : forall open close l,
             all_in "()[]" open = true -> all_in "()[]" close = true ->
             strip "()[]" (open ++ join ", " (map repr_str l) ++ close)
             = join ", " (map repr_str l)).
  { intros open close [|x l] Ho Hcl.
    - simpl. apply strip_blank. rewrite all_in_app. now rewrite Ho, Hcl.
    - destruct (@join_quoted ", " (map repr_str l) (repr_str x))
        as [q [t [q' [t' [E1 [E2 [Hq1 Hq2]]]]]]].
      { intros y Hy. change (In y (map repr_str (x :: l))) in Hy.
        apply in_map_iff in Hy. destruct Hy as [s [<- _]]. apply repr_str_quoted. }
      change (map repr_str (x :: l)) with (repr_str x :: map repr_str l).
      rewrite E1. apply strip_padded with (c' := q') (t' := t'); auto. }
  destruct name as [| | |n|xs|xs|]; simpl in H; try discriminate.
  - injection H as <-. unfold columns_text.
    change (py_repr (PyStr n)) with (repr_str n).
    specialize (Hl "" "" [n] eq_refl eq_refl).
    change (strip "()[]" (repr_str n ++ "") = repr_str n) in Hl.
    now rewrite string_app_nil_r in Hl.
  - destruct (Nat.eqb (List.length xs) 1) eqn:El; [discriminate|].
    apply all_names_map in H. subst xs. unfold columns_text.
    destruct names as [|a [|b l]]; [| discriminate El |].
    + reflexivity.
    + change (py_repr (PyTuple (map PyStr (a :: b :: l))))
        with ("(" ++ join ", " (map py_repr (map PyStr (a :: b :: l))) ++ ")")%string.
      rewrite map_py_repr_names. now apply Hl.
  - apply all_names_map in H. subst xs. unfold columns_text.
    change (py_repr (PyList (map PyStr names)))
      with ("[" ++ join ", " (map py_repr (map PyStr names)) ++ "]")%string.
    rewrite map_py_repr_names. now apply Hl.
Qed.

(** X12: the columns in the text of an index statement.  For an index
    given as one column name, as a list of column names, or as a tuple of
    column names that has not exactly one element, [add_index] and
    [drop_index] list the [repr] of each name, separated by a comma and a
    space, without brackets. *)
Theorem index_statement_columns :
  forall model name names unique,
    index_names name = Some names ->
    add_index model name unique =
      ("migrator.add_index('" ++ table_name model ++ "', " ++ columns_text names
       ++ ", unique=" ++ py_str unique ++ ")")%string
    /\ drop_index model name =
      ("migrator.drop_index('" ++ table_name model ++ "', " ++ columns_text names
       ++ ")")%string.
Proof.
  intros model name names unique H. unfold add_index, drop_index.
  now rewrite (stripped_columns _ H).
Qed.

Lemma index_statement_columns_witness :
  add_index tags_old (PyTuple [PyStr "nick"; PyStr "fax"]) (PyBool false) =
    "migrator.add_index('tags', 'nick', 'fax', unique=False)"
  /\ drop_index tags_old (PyTuple [PyStr "nick"; PyStr "fax"]) =
    "migrator.drop_index('tags', 'nick', 'fax')".
Proof.
  apply (@index_statement_columns tags_old (PyTuple [PyStr "nick"; PyStr "fax"])
           ["nick"; "fax"] (PyBool false)).
  reflexivity.
Defined.

Lemma char_in_app :
  forall c a b, char_in c (a ++ b) = char_in c a || char_in c b.
Proof.
  intros c a b. unfold char_in. induction a as [|x a IH]; simpl; [reflexivity|].
  now rewrite IH, orb_assoc.
Qed.

Lemma all_in_char_out :
  forall chars p c, all_in chars p = true -> char_in c chars = false -> char_in c p = false.
Proof.
  intros chars p c. induction p as [|x p IH]; intros Hp Hc; [reflexivity|].
  unfold all_in in Hp. simpl in Hp. apply andb_true_iff in Hp. destruct Hp as [Hx Hp].
  unfold char_in. simpl. fold (char_in c p). rewrite (IH Hp Hc), orb_false_r.
  destruct (Ascii.eqb c x) eqn:E; [|reflexivity].
  apply Ascii.eqb_eq in E. subst x. congruence.
Qed.

(** [partition] cuts at the first separator. *)
Lemma partition_first :
  forall sep a b,
    char_in sep a = false ->
    partition sep (a ++ String sep b) = (a, String sep "", b).
Proof.
  intros sep a b. induction a as [|x a IH]; intros H; simpl.
  - now rewrite Ascii.eqb_refl.
  - unfold char_in in H. simpl in H. apply orb_false_iff in H. destruct H as [Hx Ha].
    rewrite Ascii.eqb_sym, Hx. fold (char_in sep a) in Ha. now rewrite (IH Ha).
Qed.

Lemma py_strip_padded :
  forall p1 s p2,
    blank p1 = true -> blank p2 = true -> trimmed s = true ->
    py_strip (p1 ++ s ++ p2) = s.
Proof.
  intros p1 s p2 H1 H2 Hs. unfold py_strip. destruct s as [|c t].
  - apply strip_blank. rewrite all_in_app. unfold blank in *.
    change ("" ++ p2)%string with p2. now rewrite H1, H2.
  - simpl in Hs. apply andb_true_iff in Hs. destruct Hs as [Hc Hl].
    unfold solid in Hc, Hl. apply andb_true_iff in Hc, Hl.
    destruct Hc as [Hc _], Hl as [Hl _]. apply negb_true_iff in Hc, Hl.
    destruct (last_char_split t c) as [t' Ht'].
    now apply strip_padded with (c' := last_char t c) (t' := t').
Qed.

Lemma module_of_class :
  forall n,
    match dict_get FIELD_MODULES_MAP n with Some m => m | None => "pw" end
    = if dict_contains FIELD_MODULES_MAP n then "pw_pext" else "pw".
Proof.
  intros n. unfold dict_contains, FIELD_MODULES_MAP. simpl.
  repeat (destruct (String.eqb n _); [reflexivity|]). reflexivity.
Qed.

(** X13: the declaration of a column.  When the text playhouse prints for
    the column is a name and a declaration around the first [=] sign, with
    any white space about them, [field_to_code] gives the name, the [=]
    sign between two spaces or none, the module, a dot and the declaration
    as it stands, later [=] signs included; the module is [pw_pext] for
    the class names of [FIELD_MODULES_MAP], looked up under the resolved
    type of the field, and [pw] otherwise. *)
Theorem field_to_code_text :
  forall vanilla field space p1 name p2 p3 decl p4,
    vanilla field = (p1 ++ name ++ p2 ++ "=" ++ p3 ++ decl ++ p4)%string ->
    blank p1 = true -> blank p2 = true -> blank p3 = true -> blank p4 = true ->
    trimmed name = true -> trimmed decl = true ->
    char_in "="%char name = false ->
    field_to_code vanilla field space =
      (name ++ (if space then " " else "") ++ "=" ++ (if space then " " else "")
       ++ (if dict_contains FIELD_MODULES_MAP (cls_name (find_field_type field))
           then "pw_pext" else "pw")
       ++ "." ++ decl)%string.
Proof.
  intros vanilla field space p1 name p2 p3 decl p4 Hv H1 H2 H3 H4 Hn Hd He.
  unfold field_to_code, Column_get_field. rewrite Hv.
  assert (Hcut : partition "="%char (p1 ++ name ++ p2 ++ "=" ++ p3 ++ decl ++ p4)
                 = ((p1 ++ name ++ p2)%string, "=", (p3 ++ decl ++ p4)%string)).
  { replace (p1 ++ name ++ p2 ++ "=" ++ p3 ++ decl ++ p4)%string
      with ((p1 ++ name ++ p2) ++ String "="%char (p3 ++ decl ++ p4))%string
      by (now rewrite !string_app_assoc).
    apply partition_first. rewrite !char_in_app, He.
    rewrite (@all_in_char_out whitespace p1 "="%char H1 eq_refl).
    now rewrite (@all_in_char_out whitespace p2 "="%char H2 eq_refl). }
  rewrite Hcut. rewrite !py_strip_padded by assumption.
  now rewrite module_of_class.
Qed.

Lemma field_to_code_text_witness :
  field_to_code vanilla_sample customer_column false =
    "customer=pw.ForeignKeyField(null=True)".
Proof.
  apply (@field_to_code_text vanilla_sample customer_column false
           "" "customer" " " " " "ForeignKeyField(null=True)" "");
    reflexivity.
Defined.

Section SameParameters.

Context {set_order : SetIteration}.

(** X14: [diff_one] reads of a column its resolved type and the dictionary
    of its compared parameters, and nothing else.  For a column of both
    tables that has the same resolved type and the same compared
    parameters in both, the result has no [change_not_null] and no index
    call for it and no [change_fields] call with it, whatever else differs
    between the two versions: the table a foreign key refers to, for one. *)
Theorem same_parameters_nothing_reported :
  forall m1 m2 name f1 f2 ops,
    dict_get (fields m1) name = Some f1 ->
    dict_get (fields m2) name = Some f2 ->
    find_field_type f1 = find_field_type f2 ->
    compared_params f1 = compared_params f2 ->
    keyed_by_name m1 = true ->
    diff_one_calls m1 m2 = Ok ops ->
    not_null_calls name ops = []
    /\ index_calls name ops = []
    /\ forall m flds, In (ChangeFields m flds) ops -> ~ In f1 flds.
Proof.
  intros m1 m2 name f1 f2 ops H1 H2 Hty Hp Hk H.
  assert (Hty' : class_eqb (find_field_type f1) (find_field_type f2) = true)
    by (now apply class_eqb_eq).
  destruct (same_type_column _ _ _ H1 H2 Hty' H) as [diff [Hc _]].
  assert (Hd : diff = []).
  { apply (compare_fields_subsumed f1 f2 Hty' Hc).
    intros k v Hv. exists v. rewrite <- Hp. split; [exact Hv | apply py_eqb_refl]. }
  subst diff.
  exact (unchanged_column _ _ _ H1 H2 Hty' Hc Hk H).
Qed.

End SameParameters.

Lemma same_parameters_nothing_reported_witness :
  not_null_calls "customer" [] = []
  /\ index_calls "customer" [] = []
  /\ forall m flds, In (ChangeFields m flds) [] -> ~ In customer_column flds.
Proof.
  apply (@same_parameters_nothing_reported insertion_iteration
           orders orders_moved "customer" customer_column customer_column_moved []);
    reflexivity.
Defined.
